(** * Rylan's Animal Story Studio: content filter, prompt builder,
      generation client, generation gateway, local persistence, the forms
      and the application state.

    Shallow embedding of the TypeScript sources and the properties of the
    specification that are stated about them.

    Conventions of the embedding.
    - A JavaScript string is the [string] of the bytes of its UTF-8
      encoding, which is also how the literals of this file are read.
      [length] counts UTF-16 code units and [trim] removes the white space
      and line terminators of ECMAScript, both read off the bytes.  A
      search for an ASCII literal ([includes], [startsWith], [endsWith])
      finds the same occurrences in the bytes as in the code units.
    - [toLowerCase] is a parameter, the class [Js.Unicode]: the Unicode
      tables are the engine's.  The statements hold for every case mapping
      that folds a stretch of ASCII characters in place; they are run on
      ASCII text with [Js.asciiOnly].
    - An optional field ([x?: T], or a value that may be [undefined]) is an
      [option]. JavaScript truthiness of such a value is [truthy]: the value
      is present and is not the empty string.
    - Code that talks to the network is written in a state monad over a
      [World] that records every request sent; the answers of the network
      are a parameter of the development. *)

From Stdlib Require Import Ascii ZArith Bool Lia DecimalString.
From stdpp Require Import gmap strings list sorting.

(** ** JavaScript strings *)

Module Js.

(** The byte [c] is one of A-Z. *)
Definition is_upper (c : ascii) : bool :=
  let n := Ascii.N_of_ascii c in ((65 <=? n) && (n <=? 90))%N.

Definition lower_char (c : ascii) : ascii :=
  if is_upper c then Ascii.ascii_of_N (Ascii.N_of_ascii c + 32) else c.

(** The text with its letters A-Z folded to a-z and every other byte
    kept: what [toLowerCase] does to a text of ASCII characters. *)
Fixpoint lowerAscii (s : string) : string :=
  match s with
  | EmptyString => EmptyString
  | String c s' => String (lower_char c) (lowerAscii s')
  end.

(** The byte [c] is an ASCII character (U+0000 to U+007F). *)
Definition is_ascii (c : ascii) : bool := (Ascii.N_of_ascii c <? 128)%N.

Fixpoint isAscii (s : string) : bool :=
  match s with
  | EmptyString => true
  | String c s' => is_ascii c && isAscii s'
  end.

(** [s.toLowerCase()].  The case mapping of Unicode lives in the tables
    of the JavaScript engine, not in this repository; it is a parameter.
    What is used of it is what Unicode's default case conversion fixes for
    ASCII: a stretch of ASCII characters is folded in place, A-Z to a-z,
    whatever surrounds it, and nothing is put before it when nothing comes
    before it, or after it when nothing comes after it. *)
Class Unicode := {
  toLowerCase : string -> string;
  toLowerCase_ascii :
    forall pre mid post, isAscii mid = true ->
    exists pre' post',
      toLowerCase (pre +:+ mid +:+ post) = pre' +:+ lowerAscii mid +:+ post' /\
      (pre = "" -> pre' = "") /\ (post = "" -> post' = "")
}.

(** The case mapping that folds A-Z and keeps every other byte: it agrees
    with every [Unicode] on ASCII text, and is used to run the code on
    such text. *)
Definition asciiOnly : Unicode.
Proof.
  refine {| toLowerCase := lowerAscii |}.
  intros pre mid post _. exists (lowerAscii pre), (lowerAscii post).
  split; [|split; intros ->; reflexivity].
  assert (forall s t, lowerAscii (s +:+ t) = lowerAscii s +:+ lowerAscii t)
    as Happ.
  { intros s t. induction s as [|c s IH]; [reflexivity|].
    change (String c s +:+ t) with (String c (s +:+ t)).
    cbn [lowerAscii]. rewrite IH. reflexivity. }
  rewrite !Happ. reflexivity.
Defined.

(** [s.startsWith(t)] *)
Definition startsWith (s t : string) : bool := String.prefix t s.

(** [s.includes(t)]: [t] occurs in [s] at some position. *)
Fixpoint includes (s t : string) : bool :=
  String.prefix t s ||
  match s with
  | EmptyString => false
  | String _ s' => includes s' t
  end.

(** Truthiness of a string: only the empty string is falsy. *)
Definition nonempty (s : string) : bool :=
  match s with EmptyString => false | _ => true end.

(** Truthiness of a string that may be [undefined]. *)
Definition truthy (o : option string) : bool :=
  match o with Some s => nonempty s | None => false end.

(** [a || b] on strings that may be [undefined]. *)
Definition or_else (a b : option string) : option string :=
  if truthy a then a else b.

(** [parts.join(sep)] *)
Definition join (sep : string) (parts : list string) : string :=
  String.concat sep parts.

(** A number rendered by a template literal, for a natural number. *)
Definition ofNat (n : nat) : string :=
  NilEmpty.string_of_uint (Nat.to_uint n).

(** The double-quote character, as a string. *)
Definition dquote : string := String "034"%char EmptyString.

(** The number of occurrences of [t] in [s]: the positions of [s] at
    which [t] starts. *)
Fixpoint occurrences (t s : string) : nat :=
  (if String.prefix t s then 1 else 0) +
  match s with
  | EmptyString => 0
  | String _ s' => occurrences t s'
  end.

(** The UTF-16 code units of the character whose encoding starts with
    the byte [c]: none for a continuation byte (10xxxxxx), which belongs to
    the character before it; two for the lead byte of a four-byte sequence
    (a code point above U+FFFF, a surrogate pair in JavaScript); one for
    every other byte. *)
Definition units (c : ascii) : nat :=
  let n := Ascii.N_of_ascii c in
  if ((128 <=? n) && (n <? 192))%N then 0
  else if (240 <=? n)%N then 2 else 1.

(** [s.length]: the number of UTF-16 code units. *)
Fixpoint length (s : string) : nat :=
  match s with
  | EmptyString => 0
  | String c s' => units c + length s'
  end.

(** The white space and line terminators of ECMAScript, which [trim]
    removes, by the length of their encoding.  One byte: U+0009 to U+000D
    and U+0020. *)
Definition is_space1 (c1 : ascii) : bool :=
  let n := Ascii.N_of_ascii c1 in ((n =? 32) || ((9 <=? n) && (n <=? 13)))%N.

(** Two bytes: U+00A0 (C2 A0). *)
Definition is_space2 (c1 c2 : ascii) : bool :=
  ((Ascii.N_of_ascii c1 =? 194) && (Ascii.N_of_ascii c2 =? 160))%N.

(** Three bytes: U+1680 (E1 9A 80), U+2000 to U+200A (E2 80 80 to E2 80
    8A), U+2028 and U+2029 (E2 80 A8, E2 80 A9), U+202F (E2 80 AF), U+205F
    (E2 81 9F), U+3000 (E3 80 80) and U+FEFF (EF BB BF). *)
Definition is_space3 (c1 c2 c3 : ascii) : bool :=
  let n1 := Ascii.N_of_ascii c1 in
  let n2 := Ascii.N_of_ascii c2 in
  let n3 := Ascii.N_of_ascii c3 in
  (((n1 =? 225) && (n2 =? 154) && (n3 =? 128))
   || ((n1 =? 226) && (n2 =? 128)
       && (((128 <=? n3) && (n3 <=? 138)) || (n3 =? 168) || (n3 =? 169)
           || (n3 =? 175)))
   || ((n1 =? 226) && (n2 =? 129) && (n3 =? 159))
   || ((n1 =? 227) && (n2 =? 128) && (n3 =? 128))
   || ((n1 =? 239) && (n2 =? 187) && (n3 =? 191)))%N.

(** [s.trimStart()] *)
Fixpoint trimStart (s : string) : string :=
  match s with
  | EmptyString => EmptyString
  | String c1 s1 =>
      if is_space1 c1 then trimStart s1
      else
        match s1 with
        | EmptyString => s
        | String c2 s2 =>
            if is_space2 c1 c2 then trimStart s2
            else
              match s2 with
              | EmptyString => s
              | String c3 s3 =>
                  if is_space3 c1 c2 c3 then trimStart s3 else s
              end
        end
  end.

(** [s.trimEnd()]: the text is cut where what remains is white space
    only. *)
Fixpoint trimEnd (s : string) : string :=
  match s with
  | EmptyString => EmptyString
  | String c s' =>
      if nonempty (trimStart s) then String c (trimEnd s') else EmptyString
  end.

(** [s.trim()] *)
Definition trim (s : string) : string := trimEnd (trimStart s).

(** [s.endsWith(t)] *)
Fixpoint endsWith (s t : string) : bool :=
  String.eqb s t ||
  match s with
  | EmptyString => false
  | String _ s' => endsWith s' t
  end.

End Js.

(** ** Content filter (contentFilter.ts) *)

Module ContentFilter.

Definition BLOCKED_TERMS : list string :=
  [ (* Violence *)
    "kill"; "killing"; "dead"; "death"; "die"; "dying"; "murder"; "blood";
    "bloody"; "weapon"; "gun"; "knife"; "sword"; "fight"; "fighting"; "war";
    "battle"; "hurt"; "attack"; "attacking"; "destroy"; "explosion"; "bomb";
    (* Scary *)
    "scary"; "horror"; "monster"; "demon"; "devil"; "evil"; "nightmare";
    "haunted"; "ghost"; "zombie"; "vampire"; "skeleton"; "creepy";
    "terrifying"; "frightening";
    (* Inappropriate *)
    "naked"; "nude"; "sexy"; "kiss"; "kissing"; "romantic"; "love"; "dating";
    "boyfriend"; "girlfriend"; "married"; "wedding";
    (* Negative emotions (when excessive) *)
    "hate"; "hating"; "angry"; "furious"; "rage"; "crying"; "sad";
    "depressed";
    (* Substances *)
    "alcohol"; "beer"; "wine"; "drunk"; "smoke"; "smoking"; "drugs" ].

(** The object literal [GENTLE_ALTERNATIVES], in source order. *)
Definition GENTLE_ALTERNATIVES_entries : list (string * string) :=
  [ ("scary", "exciting");
    ("fight", "play");
    ("fighting", "playing");
    ("angry", "grumpy");
    ("sad", "a little blue");
    ("crying", "feeling emotional");
    ("hurt", "bumped") ].

Fixpoint assoc (k : string) (l : list (string * string)) : option string :=
  match l with
  | [] => None
  | (k', v) :: l' => if String.eqb k k' then Some v else assoc k l'
  end.

(** [GENTLE_ALTERNATIVES[term]] *)
Definition GENTLE_ALTERNATIVES (term : string) : option string :=
  assoc term GENTLE_ALTERNATIVES_entries.

Record ContentCheckResult := {
  isAllowed : bool;
  friendlyMessage : option string;
  cleanedText : option string
}.

Definition alternativeMessage (term alternative : string) : string :=
  "Oops! Let's use friendlier words. Instead of " +:+ Js.dquote +:+ term
    +:+ Js.dquote +:+ ", how about " +:+ Js.dquote +:+ alternative
    +:+ Js.dquote +:+ "? 🌟".

Definition genericMessage : string :=
  "Hmm, let's keep our stories happy and friendly! Try describing something nice that could happen instead. 🌈".

Definition reassuringMessage : string :=
  "That sounds like an adventure! Remember, everything turns out okay in the end! ✨".

(** The result returned from inside the first loop when [term] matched. *)
Definition blockedResult (extraGentleMode : bool) (term : string)
  : ContentCheckResult :=
  if extraGentleMode && Js.truthy (GENTLE_ALTERNATIVES term) then
    {| isAllowed := false;
       friendlyMessage :=
         Some (alternativeMessage term (default "" (GENTLE_ALTERNATIVES term)));
       cleanedText := None |}
  else
    {| isAllowed := false;
       friendlyMessage := Some genericMessage;
       cleanedText := None |}.

(** [for (const term of BLOCKED_TERMS) { if (lowerText.includes(term)) return ... }];
    [None] when the loop ends without returning. *)
Fixpoint scanBlocked (lowerText : string) (extraGentleMode : bool)
    (terms : list string) : option ContentCheckResult :=
  match terms with
  | [] => None
  | term :: rest =>
      if Js.includes lowerText term
      then Some (blockedResult extraGentleMode term)
      else scanBlocked lowerText extraGentleMode rest
  end.

Definition mildlyNegative : list string :=
  [ "lost"; "alone"; "dark"; "storm"; "thunder" ].

(** The second loop, over [mildlyNegative]. *)
Fixpoint scanMild (text lowerText : string) (terms : list string)
  : option ContentCheckResult :=
  match terms with
  | [] => None
  | term :: rest =>
      if Js.includes lowerText term
      then Some {| isAllowed := true;
                   friendlyMessage := Some reassuringMessage;
                   cleanedText := Some text |}
      else scanMild text lowerText rest
  end.

Definition checkContent {U : Js.Unicode} (text : string)
    (extraGentleMode : bool) : ContentCheckResult :=
  let lowerText := Js.toLowerCase text in
  match scanBlocked lowerText extraGentleMode BLOCKED_TERMS with
  | Some r => r
  | None =>
      let plain := {| isAllowed := true;
                      friendlyMessage := None;
                      cleanedText := Some text |} in
      if extraGentleMode then
        match scanMild text lowerText mildlyNegative with
        | Some r => r
        | None => plain
        end
      else plain
  end.

Definition nameMissingMessage : string :=
  "Every animal needs a name! What would you like to call them? 🐴".

Definition nameTooLongMessage : string :=
  "That's a very long name! Can you make it a bit shorter? 📝".

Definition validateAnimalName {U : Js.Unicode} (name : string)
  : ContentCheckResult :=
  if negb (Js.nonempty name) || (Js.length (Js.trim name) =? 0) then
    {| isAllowed := false;
       friendlyMessage := Some nameMissingMessage;
       cleanedText := None |}
  else if 30 <? Js.length name then
    {| isAllowed := false;
       friendlyMessage := Some nameTooLongMessage;
       cleanedText := None |}
  else checkContent name false.

Definition descriptionMissingMessage : string :=
  "Tell us what's happening in your scene! What are your animals doing? 🎬".

Definition descriptionTooLongMessage : string :=
  "Wow, that's a lot of story! Try to describe the main thing happening in a shorter way. 📖".

Definition validateSceneDescription {U : Js.Unicode} (description : string)
  : ContentCheckResult :=
  if negb (Js.nonempty description)
     || (Js.length (Js.trim description) =? 0) then
    {| isAllowed := false;
       friendlyMessage := Some descriptionMissingMessage;
       cleanedText := None |}
  else if 500 <? Js.length description then
    {| isAllowed := false;
       friendlyMessage := Some descriptionTooLongMessage;
       cleanedText := None |}
  else checkContent description false.

End ContentFilter.

(** ** Data model (types/index.ts) *)

Inductive Species :=
  | Horse | Cow | Pig | Sheep | Chicken | Cat | Dog | Goat | Bunny | Duck
  | Other.

Definition Species_str (s : Species) : string :=
  match s with
  | Horse => "Horse" | Cow => "Cow" | Pig => "Pig" | Sheep => "Sheep"
  | Chicken => "Chicken" | Cat => "Cat" | Dog => "Dog" | Goat => "Goat"
  | Bunny => "Bunny" | Duck => "Duck" | Other => "Other"
  end.

Inductive Personality :=
  | Brave | Kind | Silly | Curious | Calm | Adventurous | Gentle | Playful.

Definition Personality_str (p : Personality) : string :=
  match p with
  | Brave => "Brave" | Kind => "Kind" | Silly => "Silly"
  | Curious => "Curious" | Calm => "Calm" | Adventurous => "Adventurous"
  | Gentle => "Gentle" | Playful => "Playful"
  end.

Inductive Location :=
  | Stable | Barn | Pasture | Meadow | ForestTrail | RidingArena
  | WinterField | River | MountainPath | CozyFarm.

Inductive AnimalMode := dream | toy.

Record AnimalColors := {
  primary : string;
  secondary : string;
  markings : option string
}.

Module Animal.
Record t := mk {
  id : string;
  createdAt : Z;
  mode : AnimalMode;
  name : string;
  species : Species;
  personality : Personality;
  colors : AnimalColors;
  specialThing : option string;
  stickerDataUrl : option string;
  portraitDataUrl : option string
}.

(** The same character with other colors. *)
Definition with_colors (a : t) (c : AnimalColors) : t :=
  mk (id a) (createdAt a) (mode a) (name a) (species a) (personality a) c
     (specialThing a) (stickerDataUrl a) (portraitDataUrl a).
End Animal.

Module Scene.
Record t := mk {
  id : string;
  createdAt : Z;
  title : string;
  location : Location;
  animalIds : list string;
  userDescription : string;
  promptUsed : string;
  imageDataUrls : list string;
  chosenImageDataUrl : option string;
  caption : option string;
  voiceNoteDataUrl : option string
}.
End Scene.

Module Settings.
Record t := mk {
  openaiApiKey : option string;
  imageModel : string;
  imageCount : Z;
  kidSafeMode : bool;
  extraGentleMode : bool
}.
End Settings.

#[global] Instance Species_eq_dec : EqDecision Species.
Proof. solve_decision. Defined.
#[global] Instance Personality_eq_dec : EqDecision Personality.
Proof. solve_decision. Defined.
#[global] Instance Location_eq_dec : EqDecision Location.
Proof. solve_decision. Defined.
#[global] Instance AnimalMode_eq_dec : EqDecision AnimalMode.
Proof. solve_decision. Defined.
#[global] Instance AnimalColors_eq_dec : EqDecision AnimalColors.
Proof. solve_decision. Defined.
#[global] Instance Animal_eq_dec : EqDecision Animal.t.
Proof. solve_decision. Defined.
#[global] Instance Scene_eq_dec : EqDecision Scene.t.
Proof. solve_decision. Defined.
#[global] Instance Settings_eq_dec : EqDecision Settings.t.
Proof. solve_decision. Defined.

(** ** Prompt builder (imageGeneration.ts, contentFilter.ts) *)

Module PromptBuilder.

(** A line break inside a template literal. *)
Definition nl : string := String "010"%char EmptyString.

Definition ART_STYLE : string :=
  "cozy children's storybook watercolor illustration, warm soft lighting, " +:+ nl +:+
  "gentle pastel colors with pops of warmth, friendly inviting atmosphere, " +:+ nl +:+
  "hand-painted feel with soft edges, magical dreamy quality, " +:+ nl +:+
  "reminiscent of classic children's picture books".

Definition LOCATION_DESCRIPTIONS (l : Location) : string :=
  match l with
  | Stable => "a cozy wooden stable with hay bales, warm lantern light, and comfortable stalls"
  | Barn => "a charming red barn with open doors, golden sunlight streaming in, rustic wooden beams"
  | Pasture => "a lush green pasture with wildflowers, white wooden fences, and rolling hills"
  | Meadow => "a beautiful wildflower meadow with butterflies, soft grass, and gentle sunshine"
  | ForestTrail => "a magical forest trail with dappled sunlight through leaves, ferns, and mossy rocks"
  | RidingArena => "a well-kept riding arena with white fences, soft sandy ground, and blue sky"
  | WinterField => "a peaceful snowy field with gentle snowflakes, frost-covered fences, and cozy atmosphere"
  | River => "a gentle babbling brook with smooth stones, willow trees, and sparkling water"
  | MountainPath => "a scenic mountain trail with wildflowers, pine trees, and distant peaks"
  | CozyFarm => "a charming farmyard with a cottage, vegetable garden, and friendly atmosphere"
  end.

Definition buildKidSafePromptSuffix : string :=
  nl +:+
  "IMPORTANT STYLE REQUIREMENTS:" +:+ nl +:+
  "- Cozy, warm, and friendly atmosphere" +:+ nl +:+
  "- Soft, inviting colors with gentle lighting" +:+ nl +:+
  "- All animals have happy, friendly expressions" +:+ nl +:+
  "- Safe, wholesome environment suitable for children" +:+ nl +:+
  "- Storybook illustration style with a magical, dreamy quality" +:+ nl +:+
  "- No scary, violent, or inappropriate elements" +:+ nl +:+
  "- Everything feels safe, warm, and welcoming".

(** [animal.portraitDataUrl || animal.stickerDataUrl] *)
Definition imageOf (animal : Animal.t) : option string :=
  Js.or_else (Animal.portraitDataUrl animal) (Animal.stickerDataUrl animal).

(** [hasImage] in a boolean position. *)
Definition hasImage (animal : Animal.t) : bool := Js.truthy (imageOf animal).

(** The array [parts] built for the character at position [index]. *)
Definition descriptorParts {U : Js.Unicode} (index : nat) (animal : Animal.t)
  : list string :=
  let c := Animal.colors animal in
  [ Animal.name animal +:+ " the " +:+
      Js.toLowerCase (Species_str (Animal.species animal));
    if hasImage animal
    then " (shown in reference image " +:+ Js.ofNat (index + 1) +:+ ")"
    else "";
    if negb (hasImage animal) then " (" +:+ primary c else "";
    if negb (hasImage animal) && Js.nonempty (secondary c)
    then " with " +:+ secondary c +:+ " markings" else "";
    if negb (hasImage animal) && Js.truthy (markings c)
    then ", " +:+ default "" (markings c) else "";
    if negb (hasImage animal) then ")" else "";
    ", who is " +:+ Js.toLowerCase (Personality_str (Animal.personality animal));
    if Js.truthy (Animal.specialThing animal)
    then " and " +:+ default "" (Animal.specialThing animal) else "" ].

(** [parts.join('')] *)
Definition descriptor {U : Js.Unicode} (index : nat) (animal : Animal.t)
  : string :=
  Js.join "" (descriptorParts index animal).

(** [animals.map((animal, index) => ...).join('; ')] *)
Definition animalDescriptions {U : Js.Unicode} (animals : list Animal.t)
  : string :=
  Js.join "; " (imap descriptor animals).

Definition buildScenePrompt {U : Js.Unicode} (animals : list Animal.t)
    (location : Location) (userDescription : string) : string :=
  ART_STYLE +:+ "." +:+ nl +:+
  nl +:+
  "Scene setting: " +:+ LOCATION_DESCRIPTIONS location +:+ "." +:+ nl +:+
  nl +:+
  "Characters: " +:+ animalDescriptions animals +:+ "." +:+ nl +:+
  nl +:+
  "What's happening: " +:+ userDescription +:+ nl +:+
  nl +:+
  "IMPORTANT: Draw the characters to match the reference images provided. Keep their appearance consistent with the references." +:+ nl +:+
  nl +:+
  buildKidSafePromptSuffix.

Definition buildAnimalPortraitPrompt {U : Js.Unicode} (animal : Animal.t)
  : string :=
  let c := Animal.colors animal in
  let colorDesc :=
    if Js.nonempty (secondary c)
    then primary c +:+ " with " +:+ secondary c +:+ " markings"
    else primary c in
  let markingsDesc :=
    if Js.truthy (markings c) then ", " +:+ default "" (markings c) else "" in
  ART_STYLE +:+ "." +:+ nl +:+
  nl +:+
  "A friendly portrait of " +:+ Animal.name animal +:+ ", a " +:+
    Js.toLowerCase (Personality_str (Animal.personality animal)) +:+ " " +:+
    Js.toLowerCase (Species_str (Animal.species animal)) +:+ "." +:+ nl +:+
  nl +:+
  "Color: " +:+ colorDesc +:+ markingsDesc +:+ "." +:+ nl +:+
  nl +:+
  (if Js.truthy (Animal.specialThing animal)
   then "Special detail: " +:+ default "" (Animal.specialThing animal) +:+ "."
   else "") +:+ nl +:+
  nl +:+
  "The animal should have a warm, friendly expression and be looking at the viewer." +:+ nl +:+
  "Centered composition with soft background." +:+ nl +:+
  nl +:+
  buildKidSafePromptSuffix.

(** [getAnimalImages]: [map] to the image, then [filter] the truthy ones. *)
Definition getAnimalImages (animals : list Animal.t) : list string :=
  omap (fun img => img) (List.filter Js.truthy (map imageOf animals)).

End PromptBuilder.

(** ** Generation client (imageGeneration.ts) *)

Module Client.

Record ImageGenerationResult := {
  success : bool;
  images : option (list string);
  error : option string
}.

(** The body posted to [/api/generate-image]. *)
Record RequestBody := {
  body_prompt : string;
  body_count : Z;
  body_referenceImages : list string
}.

(** What [response.json()] yields, at the fields the client reads. *)
Record Payload := {
  data_error : option string;
  data_images : option (list string)
}.

(** The outcome of [fetch] followed by [response.json()]. *)
Inductive FetchOutcome :=
  | FetchRejects                                  (* [fetch] throws *)
  | JsonRejects (status : nat)           (* the body is not a JSON object *)
  | Responds (status : nat) (data : Payload).

(** [response.ok]: the status is in the range 200-299. *)
Definition ok (status : nat) : bool := (200 <=? status) && (status <=? 299).

Definition friendlyError (error : string) : string :=
  if Js.includes error "Rate" || Js.includes error "rate"
     || Js.includes error "429" then
    "Whoa, slow down! Wait a moment and try again ⏰"
  else if Js.includes error "content" || Js.includes error "safety"
          || Js.includes error "policy" then
    "Let's try describing something different! 🌈"
  else if Js.includes error "API key" || Js.includes error "not configured"
          || Js.includes error "auth" || Js.includes error "401" then
    "Oops! Something's not set up right. Ask Uncle Gavin! 🔧"
  else if Js.includes error "billing" || Js.includes error "quota"
          || Js.includes error "403" then
    "The magic machine needs more fuel! Ask Uncle Gavin 🔧"
  else
    "Something went wrong. Let's try again! 🔄".

Definition failure (msg : string) : ImageGenerationResult :=
  {| success := false; images := None; error := Some msg |}.

Definition noImagesMessage : string :=
  "No images were created. Let's try again! 🔄".

Definition connectivityMessage : string :=
  "Could not connect to the server. Check your internet! 🌐".

Section WithServer.
Context {U : Js.Unicode}.
(** The server behind [fetch('/api/generate-image', ...)]. *)
Variable fetch : RequestBody -> FetchOutcome.

Definition generateImages (prompt : string) (_settings : Settings.t)
    (count : Z) (referenceImages : option (list string))
  : ImageGenerationResult :=
  match fetch {| body_prompt := prompt;
                 body_count := count;
                 body_referenceImages := default [] referenceImages |} with
  | FetchRejects => failure connectivityMessage
  | JsonRejects _ => failure connectivityMessage
  | Responds status data =>
      if negb (ok status) then
        failure (friendlyError
                   (if Js.truthy (data_error data)
                    then default "" (data_error data)
                    else "Error " +:+ Js.ofNat status))
      else
        match data_images data with
        | None => failure noImagesMessage
        | Some [] => failure noImagesMessage
        | Some imgs =>
            {| success := true; images := Some imgs; error := None |}
        end
  end.

Definition generateAnimalPortrait (animal : Animal.t) (settings : Settings.t)
  : ImageGenerationResult :=
  let prompt := PromptBuilder.buildAnimalPortraitPrompt animal in
  generateImages prompt settings 1 None.
End WithServer.

End Client.

(** ** The network seen from the serverless function *)

Module Net.

(** The provider steps of the gateway. *)
Inductive Provider := OpenAIVision | Gemini | OpenAIDalle.

#[global] Instance Provider_eq_dec : EqDecision Provider.
Proof. solve_decision. Defined.

(** The requests the function sends, with the fields it fills in. *)
Inductive Request :=
  | GeminiGenerate (apiKey text : string)
      (* POST .../models/gemini-2.0-flash-exp:generateContent?key=apiKey,
         contents: [{ parts: [{ text }] }] *)
  | OpenAIImages (apiKey model prompt : string)
      (* POST https://api.openai.com/v1/images/generations,
         Authorization: Bearer apiKey, body { model, prompt, n: 1, ... } *)
  | Download (url : string).
      (* GET url *)

Record InlineData := { mimeType : option string; data : string }.

(** One element of [candidates[0].content.parts]. *)
Record Part := { inlineData : option InlineData }.

(** A parsed response body, at the paths the function reads. *)
Record Json := {
  error_message : option string;  (* [.error?.message] *)
  candidate_parts : list Part;    (* [.candidates?.[0]?.content?.parts || []] *)
  first_b64_json : option string; (* [.data?.[0]?.b64_json] *)
  first_url : option string       (* [.data?.[0]?.url] *)
}.

Definition emptyJson : Json :=
  {| error_message := None; candidate_parts := [];
     first_b64_json := None; first_url := None |}.

Record Response := {
  status : nat;
  json : option Json;      (* [None]: [response.json()] rejects *)
  base64 : option string   (* the body bytes through [btoa]; [None]: it throws *)
}.

(** [response.ok] *)
Definition ok (r : Response) : bool :=
  (200 <=? status r) && (status r <=? 299).

Inductive FetchResult :=
  | Rejected                     (* [fetch] throws *)
  | Responded (r : Response).

(** What one run of the function did: the requests sent, oldest first,
    and the provider steps entered, oldest first. *)
Record World := {
  sent : list Request;
  tried : list Provider
}.

Definition start : World := {| sent := []; tried := [] |}.

Definition M (A : Type) : Type := World -> A * World.

Definition ret {A} (a : A) : M A := fun w => (a, w).

Definition bind {A B} (m : M A) (k : A -> M B) : M B :=
  fun w => let (a, w') := m w in k a w'.

(** Enter a provider step. The list [tried] is a record kept for the
    statements about the order of the steps; the source has no such
    variable. *)
Definition enter (p : Provider) : M unit :=
  fun w => (tt, {| sent := sent w; tried := tried w ++ [p] |}).

(** The world after one more request. *)
Definition after (w : World) (req : Request) : World :=
  {| sent := sent w ++ [req]; tried := tried w |}.

Section WithNetwork.
(** The answer to a request, given the requests sent before it. *)
Variable network : list Request -> Request -> FetchResult.

Definition fetch (req : Request) : M FetchResult :=
  fun w => (network (sent w) req, after w req).
End WithNetwork.

(** The value every provider function returns. *)
Record GenResult := {
  success : bool;
  images : option (list string);
  error : option string
}.

Definition failed (msg : string) : GenResult :=
  {| success := false; images := None; error := Some msg |}.

(** The code after the loop of every provider function. *)
Definition finish (images : list string) : GenResult :=
  match images with
  | [] => failed "No images generated"
  | _ => {| success := true; images := Some images; error := None |}
  end.

(** The serverless function's HTTP request. *)
Record Body := {
  prompt : option string;
  count : option Z;                        (* default 1 *)
  referenceImages : option (list string)   (* default [] *)
}.

Record HttpRequest := {
  method : string;
  body : option Body   (* [None]: [request.json()] rejects *)
}.

Record Env := {
  GEMINI_API_KEY : option string;
  OPENAI_API_KEY : option string
}.

(** The body of the function's answer: [{ error }] or a [GenResult]. *)
Inductive Answer :=
  | ErrorOnly (error : string)
  | Result (r : GenResult).

Record HttpResponse := { code : nat; answer : Answer }.

(** The image taken from a Gemini response: the first part whose MIME type
    starts with [image/], as a data URL. *)
Fixpoint firstImagePart (parts : list Part) : list string :=
  match parts with
  | [] => []
  | part :: rest =>
      match inlineData part with
      | Some d =>
          match mimeType d with
          | Some mt =>
              if Js.startsWith mt "image/"
              then ["data:" +:+ mt +:+ ";base64," +:+ data d]
              else firstImagePart rest
          | None => firstImagePart rest
          end
      | None => firstImagePart rest
      end
  end.

End Net.

Notation "'do' x <- m ; k" := (Net.bind m (fun x => k))
  (at level 10, x name, m at level 100, k at level 200,
   format "'[v' 'do'  x  <-  m ; '/' k ']'").

(** ** Generation gateway without reference images
       (the serverless function that supports Gemini and OpenAI DALL-E) *)

Module PlainGateway.
Import Net.

Section WithNetwork.
Variable network : list Request -> Request -> FetchResult.

(** The loop of [generateWithGemini], with [remaining] iterations to go. *)
Fixpoint geminiLoop (prompt apiKey : string) (remaining : nat)
    (images : list string) : M GenResult :=
  match remaining with
  | O => ret (finish images)
  | S remaining' =>
      do r <- fetch network
                (GeminiGenerate apiKey ("Generate an image: " +:+ prompt));
      match r with
      | Rejected => ret (failed "Gemini connection failed")
      | Responded response =>
          if negb (ok response) then
            let errorData := default emptyJson (json response) in
            if status response =? 429 then
              ret (failed "Rate limited - try again in a moment")
            else if (status response =? 400)
                    && Js.includes (default "" (error_message errorData))
                                   "safety" then
              ret (failed "Content blocked - try different description")
            else
              ret (failed ("Gemini error: " +:+ Js.ofNat (status response)))
          else
            match json response with
            | None => ret (failed "Gemini connection failed")
            | Some data =>
                geminiLoop prompt apiKey remaining'
                  (images ++ firstImagePart (candidate_parts data))
            end
      end
  end.

Definition generateWithGemini (prompt apiKey : string) (count : Z)
  : M GenResult :=
  do _ <- enter Gemini;
  geminiLoop prompt apiKey (Z.to_nat count) [].

(** The loop of [generateWithOpenAI]. *)
Fixpoint openAILoop (prompt apiKey : string) (remaining : nat)
    (images : list string) : M GenResult :=
  match remaining with
  | O => ret (finish images)
  | S remaining' =>
      do r <- fetch network (OpenAIImages apiKey "dall-e-3" prompt);
      match r with
      | Rejected => ret (failed "OpenAI connection failed")
      | Responded response =>
          if negb (ok response) then
            let errorData := default emptyJson (json response) in
            if status response =? 401 then
              ret (failed "Invalid API key")
            else if status response =? 429 then
              ret (failed "Rate limited - try again in a moment")
            else if status response =? 400 then
              ret (failed (if Js.truthy (error_message errorData)
                           then default "" (error_message errorData)
                           else "Bad request"))
            else
              ret (failed ("OpenAI error: " +:+ Js.ofNat (status response)))
          else
            match json response with
            | None => ret (failed "OpenAI connection failed")
            | Some data =>
                openAILoop prompt apiKey remaining'
                  (if Js.truthy (first_b64_json data)
                   then images ++ ["data:image/png;base64," +:+
                                   default "" (first_b64_json data)]
                   else images)
            end
      end
  end.

Definition generateWithOpenAI (prompt apiKey : string) (count : Z)
  : M GenResult :=
  do _ <- enter OpenAIDalle;
  openAILoop prompt apiKey (Z.to_nat count) [].

Definition respond (code : nat) (a : Answer) : M HttpResponse :=
  ret {| code := code; answer := a |}.

Definition handler (env : Env) (request : HttpRequest) : M HttpResponse :=
  if negb (String.eqb (method request) "POST") then
    respond 405 (ErrorOnly "Method not allowed")
  else
    let geminiKey := GEMINI_API_KEY env in
    let openaiKey := OPENAI_API_KEY env in
    if negb (Js.truthy geminiKey) && negb (Js.truthy openaiKey) then
      respond 500 (ErrorOnly "No API key configured")
    else
      match body request with
      | None => respond 500 (ErrorOnly "Server error")
      | Some b =>
          let count := default 1%Z (Net.count b) in
          if negb (Js.truthy (prompt b)) then
            respond 400 (ErrorOnly "Prompt is required")
          else
            let prompt := default "" (prompt b) in
            (* Fall back to OpenAI *)
            let fallBack :=
              if Js.truthy openaiKey then
                do result <- generateWithOpenAI prompt (default "" openaiKey)
                               (Z.min count 4);
                respond (if success result then 200 else 400)
                        (Result result)
              else
                respond 500 (ErrorOnly "Image generation failed") in
            (* Try Gemini first *)
            if Js.truthy geminiKey then
              do result <- generateWithGemini prompt (default "" geminiKey)
                             (Z.min count 4);
              if success result then respond 200 (Result result)
              else fallBack
            else fallBack
      end.
End WithNetwork.

End PlainGateway.

(** ** Generation gateway with reference images
       (the serverless function that uses OpenAI GPT-Image-1 when reference
       images are supplied; its text follows the README in README.md) *)

Module ReferenceGateway.
Import Net.

Section WithNetwork.
Variable network : list Request -> Request -> FetchResult.

(** The loop of [generateWithOpenAIVision]. The array [content] that the
    loop body fills with the reference images is not part of the request
    it sends: the body holds [model], [prompt], [n], [size], [quality]. *)
Fixpoint visionLoop (prompt apiKey : string)
    (referenceImages : list string) (remaining : nat)
    (images : list string) : M GenResult :=
  match remaining with
  | O => ret (finish images)
  | S remaining' =>
      do r <- fetch network (OpenAIImages apiKey "gpt-image-1" prompt);
      match r with
      | Rejected => ret (failed "OpenAI connection failed")
      | Responded response =>
          if negb (ok response) then
            ret (failed ("GPT-Image error: " +:+ Js.ofNat (status response)))
          else
            match json response with
            | None => ret (failed "OpenAI connection failed")
            | Some data =>
                if Js.truthy (first_b64_json data) then
                  visionLoop prompt apiKey referenceImages remaining'
                    (images ++ ["data:image/png;base64," +:+
                                default "" (first_b64_json data)])
                else if Js.truthy (first_url data) then
                  let url := default "" (first_url data) in
                  do img <- fetch network (Download url);
                  visionLoop prompt apiKey referenceImages remaining'
                    (images ++
                     [match img with
                      | Responded imgResp =>
                          match base64 imgResp with
                          | Some b => "data:image/png;base64," +:+ b
                          | None => url
                          end
                      | Rejected => url
                      end])
                else
                  visionLoop prompt apiKey referenceImages remaining' images
            end
      end
  end.

Definition generateWithOpenAIVision (prompt apiKey : string) (count : Z)
    (referenceImages : list string) : M GenResult :=
  do _ <- enter OpenAIVision;
  visionLoop prompt apiKey referenceImages (Z.to_nat count) [].

(** The loop of [generateWithGemini]. *)
Fixpoint geminiLoop (prompt apiKey : string) (remaining : nat)
    (images : list string) : M GenResult :=
  match remaining with
  | O => ret (finish images)
  | S remaining' =>
      do r <- fetch network
                (GeminiGenerate apiKey ("Generate an image: " +:+ prompt));
      match r with
      | Rejected => ret (failed "Gemini connection failed")
      | Responded response =>
          if negb (ok response) then
            if status response =? 429 then ret (failed "Rate limited")
            else
              ret (failed ("Gemini error: " +:+ Js.ofNat (status response)))
          else
            match json response with
            | None => ret (failed "Gemini connection failed")
            | Some data =>
                geminiLoop prompt apiKey remaining'
                  (images ++ firstImagePart (candidate_parts data))
            end
      end
  end.

Definition generateWithGemini (prompt apiKey : string) (count : Z)
  : M GenResult :=
  do _ <- enter Gemini;
  geminiLoop prompt apiKey (Z.to_nat count) [].

(** The loop of [generateWithOpenAI]. *)
Fixpoint openAILoop (prompt apiKey : string) (remaining : nat)
    (images : list string) : M GenResult :=
  match remaining with
  | O => ret (finish images)
  | S remaining' =>
      do r <- fetch network (OpenAIImages apiKey "dall-e-3" prompt);
      match r with
      | Rejected => ret (failed "OpenAI connection failed")
      | Responded response =>
          if negb (ok response) then
            if status response =? 401 then ret (failed "Invalid API key")
            else if status response =? 429 then ret (failed "Rate limited")
            else
              ret (failed ("OpenAI error: " +:+ Js.ofNat (status response)))
          else
            match json response with
            | None => ret (failed "OpenAI connection failed")
            | Some data =>
                openAILoop prompt apiKey remaining'
                  (if Js.truthy (first_b64_json data)
                   then images ++ ["data:image/png;base64," +:+
                                   default "" (first_b64_json data)]
                   else images)
            end
      end
  end.

Definition generateWithOpenAI (prompt apiKey : string) (count : Z)
  : M GenResult :=
  do _ <- enter OpenAIDalle;
  openAILoop prompt apiKey (Z.to_nat count) [].

Definition respond (code : nat) (a : Answer) : M HttpResponse :=
  ret {| code := code; answer := a |}.

Definition handler (env : Env) (request : HttpRequest) : M HttpResponse :=
  if negb (String.eqb (method request) "POST") then
    respond 405 (ErrorOnly "Method not allowed")
  else
    let openaiKey := OPENAI_API_KEY env in
    let geminiKey := GEMINI_API_KEY env in
    if negb (Js.truthy openaiKey) && negb (Js.truthy geminiKey) then
      respond 500 (ErrorOnly "No API key configured")
    else
      match body request with
      | None => respond 500 (ErrorOnly "Server error")
      | Some b =>
          let count := default 1%Z (Net.count b) in
          let referenceImages := default [] (Net.referenceImages b) in
          if negb (Js.truthy (prompt b)) then
            respond 400 (ErrorOnly "Prompt is required")
          else
            let prompt := default "" (prompt b) in
            (* Fall back to OpenAI DALL-E 3 *)
            let step3 :=
              if Js.truthy openaiKey then
                do result <- generateWithOpenAI prompt (default "" openaiKey)
                               (Z.min count 4);
                respond (if success result then 200 else 400)
                        (Result result)
              else
                respond 500 (ErrorOnly "Image generation failed") in
            (* Try Gemini (no reference image support yet) *)
            let step2 :=
              if Js.truthy geminiKey
                 && (length referenceImages =? 0) then
                do result <- generateWithGemini prompt (default "" geminiKey)
                               (Z.min count 4);
                if success result then respond 200 (Result result)
                else step3
              else step3 in
            (* Reference images and an OpenAI key: GPT-Image-1 *)
            if (0 <? length referenceImages) && Js.truthy openaiKey then
              do result <- generateWithOpenAIVision prompt
                             (default "" openaiKey) (Z.min count 4)
                             referenceImages;
              if success result then respond 200 (Result result)
              else step2
            else step2
      end.
End WithNetwork.

End ReferenceGateway.

(** ** Local persistence (database.ts) *)

Module Database.

(** The three object stores. [animals] and [scenes] are keyed by the key
    path [id]; [settings] has out-of-line keys and the code uses the key
    [main] only. *)
Record Store := {
  animals : gmap string Animal.t;
  scenes : gmap string Scene.t;
  settings : gmap string Settings.t
}.

Definition emptyStore : Store :=
  {| animals := ∅; scenes := ∅; settings := ∅ |}.

(** A store with key path [id] files every record under its own [id]. *)
Definition keyed {A} (key : A -> string) (m : gmap string A) : Prop :=
  map_Forall (fun k a => key a = k) m.

#[global] Instance keyed_dec {A} (key : A -> string) (m : gmap string A)
  : Decision (keyed key m).
Proof. unfold keyed. apply _. Defined.

Definition wellFormed (db : Store) : Prop :=
  keyed Animal.id (animals db) /\ keyed Scene.id (scenes db).

#[global] Instance wellFormed_dec (db : Store) : Decision (wellFormed db).
Proof. unfold wellFormed. apply _. Defined.

(** The order of the index [by-created]: by [createdAt], then by primary
    key. *)
Definition byCreated {A} (createdAt : A -> Z) (key : A -> string)
  : relation A :=
  fun a b => (createdAt a < createdAt b)%Z \/
             (createdAt a = createdAt b /\ String.le (key a) (key b)).

#[global] Instance byCreated_dec {A} (createdAt : A -> Z) (key : A -> string)
  : RelDecision (byCreated createdAt key).
Proof. intros a b. unfold byCreated. apply _. Defined.

(** [db.getAllFromIndex(store, 'by-created')] *)
Definition getAllFromIndex {A} (createdAt : A -> Z) (key : A -> string)
    (m : gmap string A) : list A :=
  merge_sort (byCreated createdAt key) (map snd (map_to_list m)).

Definition getAllAnimals (db : Store) : list Animal.t :=
  reverse (getAllFromIndex Animal.createdAt Animal.id (animals db)).

Definition saveAnimal (animal : Animal.t) (db : Store) : Store :=
  {| animals := <[Animal.id animal := animal]> (animals db);
     scenes := scenes db; settings := settings db |}.

Definition deleteAnimal (id : string) (db : Store) : Store :=
  {| animals := delete id (animals db);
     scenes := scenes db; settings := settings db |}.

Definition getAllScenes (db : Store) : list Scene.t :=
  reverse (getAllFromIndex Scene.createdAt Scene.id (scenes db)).

Definition saveScene (scene : Scene.t) (db : Store) : Store :=
  {| animals := animals db;
     scenes := <[Scene.id scene := scene]> (scenes db);
     settings := settings db |}.

Definition deleteScene (id : string) (db : Store) : Store :=
  {| animals := animals db;
     scenes := delete id (scenes db); settings := settings db |}.

Definition getAnimal (id : string) (db : Store) : option Animal.t :=
  animals db !! id.

Definition getScene (id : string) (db : Store) : option Scene.t :=
  scenes db !! id.

Definition DEFAULT_SETTINGS : Settings.t :=
  {| Settings.openaiApiKey := None;
     Settings.imageModel := "dall-e-3";
     Settings.imageCount := 4;
     Settings.kidSafeMode := true;
     Settings.extraGentleMode := false |}.

Definition getSettings (db : Store) : Settings.t :=
  default DEFAULT_SETTINGS (settings db !! "main").

Definition saveSettings (s : Settings.t) (db : Store) : Store :=
  {| animals := animals db; scenes := scenes db;
     settings := <["main" := s]> (settings db) |}.

Record ExportData := {
  version : Z;
  exportedAt : string;
  export_animals : list Animal.t;
  export_scenes : list Scene.t;
  export_settings : Settings.t
}.

(** [{ ...s, openaiApiKey: key }] *)
Definition withApiKey (s : Settings.t) (key : option string) : Settings.t :=
  {| Settings.openaiApiKey := key;
     Settings.imageModel := Settings.imageModel s;
     Settings.imageCount := Settings.imageCount s;
     Settings.kidSafeMode := Settings.kidSafeMode s;
     Settings.extraGentleMode := Settings.extraGentleMode s |}.

(** [exportAllData]; [now] is [new Date().toISOString()]. *)
Definition exportAllData (now : string) (db : Store) : ExportData :=
  let animals := getAllAnimals db in
  let scenes := getAllScenes db in
  let settings := getSettings db in
  let safeSettings := withApiKey settings None in
  {| version := 1;
     exportedAt := now;
     export_animals := animals;
     export_scenes := scenes;
     export_settings := safeSettings |}.

(** [for (const x of xs) await tx.store.put(x)] *)
Definition putAll {A} (key : A -> string) (xs : list A) (m : gmap string A)
  : gmap string A :=
  foldl (fun acc x => <[key x := x]> acc) m xs.

Definition importAllData (data : ExportData) (db : Store) : Store :=
  let db1 := {| animals := putAll Animal.id (export_animals data) (animals db);
                scenes := scenes db; settings := settings db |} in
  let db2 := {| animals := animals db1;
                scenes := putAll Scene.id (export_scenes data) (scenes db1);
                settings := settings db1 |} in
  let existingSettings := getSettings db2 in
  let newSettings :=
    withApiKey (export_settings data)
               (Settings.openaiApiKey existingSettings) in
  saveSettings newSettings db2.

Definition clearAllData (db : Store) : Store := emptyStore.

(** [(await db.getAllFromIndex(store, 'by-created')).reverse()], as
    [getAllAnimals] and [getAllScenes] have it. *)
Definition listing {A} (createdAt : A -> Z) (key : A -> string)
    (m : gmap string A) : list A :=
  reverse (getAllFromIndex createdAt key m).

End Database.

(** ** Vocabulary of the specification *)

Module Spec.

(** [a] and [b] are the same character up to the case of a letter A-Z. *)
Definition sameLetter (a b : ascii) : bool :=
  let x := Ascii.N_of_ascii a in
  let y := Ascii.N_of_ascii b in
  ((x =? y) || ((65 <=? x) && (x <=? 90) && (y =? x + 32))
            || ((65 <=? y) && (y <=? 90) && (x =? y + 32)))%N.

Fixpoint equalsIgnoreCase (s t : string) : bool :=
  match s, t with
  | EmptyString, EmptyString => true
  | String a s', String b t' => sameLetter a b && equalsIgnoreCase s' t'
  | _, _ => false
  end.

(** [term] occurs in [text] at some position, in some casing of its
    letters A-Z and a-z. *)
Definition containsIgnoreCase (text term : string) : Prop :=
  exists pre mid post,
    text = pre +:+ mid +:+ post /\ equalsIgnoreCase mid term = true.

(** [term] occurs in [text] when case is ignored, the way the code
    decides it: [term] occurs in the text brought to lower case. *)
Definition matches {U : Js.Unicode} (text term : string) : Prop :=
  Js.includes (Js.toLowerCase text) term = true.

(** The part of a character's descriptor before the appearance clause. *)
Definition who {U : Js.Unicode} (a : Animal.t) : string :=
  Animal.name a +:+ " the " +:+ Js.toLowerCase (Species_str (Animal.species a)).

(** The part of a character's descriptor after the appearance clause. *)
Definition manner {U : Js.Unicode} (a : Animal.t) : string :=
  ", who is " +:+ Js.toLowerCase (Personality_str (Animal.personality a)) +:+
  match Animal.specialThing a with
  | Some thing => if Js.nonempty thing then " and " +:+ thing else ""
  | None => ""
  end.

(** A descriptor that defers to reference image [n]. *)
Definition deferral {U : Js.Unicode} (n : nat) (a : Animal.t) : string :=
  who a +:+ " (shown in reference image " +:+ Js.ofNat n +:+ ")" +:+ manner a.

(** The full color text: the primary color, then the secondary color and
    the markings when present. *)
Definition fullColorText (c : AnimalColors) : string :=
  primary c +:+
  (if Js.nonempty (secondary c)
   then " with " +:+ secondary c +:+ " markings" else "") +:+
  match markings c with
  | Some m => if Js.nonempty m then ", " +:+ m else ""
  | None => ""
  end.

(** A descriptor that spells the colors out. *)
Definition inlineColors {U : Js.Unicode} (a : Animal.t) : string :=
  who a +:+ " (" +:+ fullColorText (Animal.colors a) +:+ ")" +:+ manner a.

(** The clause of the character at position [index], counted from 0: the
    deferral to its reference image, numbered from 1, when it has a
    portrait or sticker image, and the inline color text when it has
    neither. *)
Definition clause {U : Js.Unicode} (index : nat) (a : Animal.t) : string :=
  if PromptBuilder.hasImage a then deferral (index + 1) a else inlineColors a.


(** A generation request as it reaches the serverless function: an HTTP
    POST whose body is [b] ([None]: a body that does not parse). *)
Definition post (b : option Net.Body) : Net.HttpRequest :=
  {| Net.method := "POST"; Net.body := b |}.

(** A single-image request fails: [fetch] throws, the status is not
    2xx, or the body of a 2xx answer does not parse. *)
Definition fails (r : Net.FetchResult) : bool :=
  match r with
  | Net.Rejected => true
  | Net.Responded response =>
      negb (Net.ok response) ||
      match Net.json response with Some _ => false | None => true end
  end.

(** The image a Gemini answer contributes. *)
Definition geminiImages (r : Net.FetchResult) : list string :=
  match r with
  | Net.Responded {| Net.json := Some data |} =>
      Net.firstImagePart (Net.candidate_parts data)
  | _ => []
  end.

(** The image an OpenAI DALL-E answer contributes. *)
Definition openAIImages (r : Net.FetchResult) : list string :=
  match r with
  | Net.Responded {| Net.json := Some data |} =>
      match Net.first_b64_json data with
      | Some b64 =>
          if Js.nonempty b64 then ["data:image/png;base64," +:+ b64] else []
      | None => []
      end
  | _ => []
  end.

Section Attempt.
Variable network : list Net.Request -> Net.Request -> Net.FetchResult.
(** The single-image request of the attempt. *)
Variable req : Net.Request.
(** The image taken from an answer that did not fail. *)
Variable extract : Net.FetchResult -> list string.
(** The requests sent before the attempt. *)
Variable history : list Net.Request.

(** The answer to the [i]-th request of the attempt, counted from 0. *)
Definition answerAt (i : nat) : Net.FetchResult :=
  network (history ++ replicate i req) req.

(** The images of the first [n] answers, in order. *)
Definition collected (n : nat) : list string :=
  flat_map (fun i => extract (answerAt i)) (seq 0 n).

(** One provider attempt for [n] images, that ends with [result] after
    sending [sent']: either request [j] is the first that fails, the
    attempt stops there and reports a failure without images; or none
    of the [n] requests fails, all [n] are sent one after the other, and
    the result is made of the images of all [n] answers. *)
Definition allOrNothing (n : nat) (result : Net.GenResult)
    (sent' : list Net.Request) : Prop :=
  (exists j, j < n /\
     (forall i, i < j -> fails (answerAt i) = false) /\
     fails (answerAt j) = true /\
     Net.success result = false /\ Net.images result = None /\
     sent' = history ++ replicate (S j) req)
  \/
  ((forall i, i < n -> fails (answerAt i) = false) /\
   result = Net.finish (collected n) /\
   sent' = history ++ replicate n req).
End Attempt.

(** A successful result for [n] requested images holds at least one image
    and at most [n]. *)
Definition someImages (n : nat) (result : Net.GenResult) : Prop :=
  Net.success result = true ->
  exists imgs, Net.images result = Some imgs /\ 1 <= length imgs <= n.

(** The result of a provider attempt for [n] images: a failure without
    images, or a success with at least one image and at most [n]. *)
Definition outcome (n : nat) (result : Net.GenResult) : Prop :=
  (Net.success result = false /\ Net.images result = None) \/
  (exists img imgs,
     result = {| Net.success := true; Net.images := Some (img :: imgs);
                 Net.error := None |} /\
     S (length imgs) <= n).

(** What a provider function leaves behind when run from the world [w]:
    the step it entered, at most [perImage] requests for each of the [n]
    images, and the kind of result it gives. *)
Definition attempted (p : Net.Provider) (perImage : nat) (n : nat)
    (w : Net.World) (run : Net.GenResult * Net.World) : Prop :=
  Net.tried (snd run) = Net.tried w ++ [p] /\
  length (Net.sent (snd run)) <= length (Net.sent w) + perImage * n /\
  outcome n (fst run).

(** What a run of the serverless function amounts to for a request that
    asks for [n] images: at most [perImage] requests for each image, and
    either an error answer with status 400, 405 or 500, or the result of a
    provider attempt with status 200 when it succeeded and 400 when not. *)
Definition handled (perImage n : nat) (run : Net.HttpResponse * Net.World)
  : Prop :=
  length (Net.sent (snd run)) <= perImage * n /\
  ((exists msg, Net.answer (fst run) = Net.ErrorOnly msg /\
                (Net.code (fst run) = 400 \/ Net.code (fst run) = 405 \/
                 Net.code (fst run) = 500)) \/
   (exists r, Net.answer (fst run) = Net.Result r /\ outcome n r /\
              Net.code (fst run) = if Net.success r then 200 else 400)).

(** The number of images the function asks a provider for: the [count] of
    the body, 1 when absent, and at most 4. *)
Definition asked (request : Net.HttpRequest) : nat :=
  match Net.body request with
  | Some b => Z.to_nat (Z.min (default 1%Z (Net.count b)) 4)
  | None => 0
  end.

(** The provider steps [steps] use configured credentials only: Gemini
    is among them only if the Gemini key is set, GPT-Image-1 and DALL-E
    only if the OpenAI key is set. *)
Definition credentialed (env : Net.Env) (steps : list Net.Provider) : Prop :=
  (Js.truthy (Net.GEMINI_API_KEY env) = false -> Net.Gemini ∉ steps) /\
  (Js.truthy (Net.OPENAI_API_KEY env) = false ->
   (Net.OpenAIVision ∉ steps) /\ (Net.OpenAIDalle ∉ steps)).

(** A successful result for [n] requested images holds all [n] of them. *)
Definition allImages (n : nat) (result : Net.GenResult) : Prop :=
  Net.success result = true ->
  exists imgs, Net.images result = Some imgs /\ length imgs = n.

(** A network that answers every request with status 2xx and a body
    without image data. *)
Definition imageless (network : list Net.Request -> Net.Request -> Net.FetchResult)
  : Prop :=
  forall history req, exists response data,
    network history req = Net.Responded response /\
    Net.ok response = true /\ Net.json response = Some data /\
    Net.firstImagePart (Net.candidate_parts data) = [] /\
    Js.truthy (Net.first_b64_json data) = false.

End Spec.

(** ** Sample data *)

Module Sample.

Definition star : Animal.t :=
  {| Animal.id := "a-star"; Animal.createdAt := 1735000000000;
     Animal.mode := dream; Animal.name := "Star";
     Animal.species := Horse; Animal.personality := Brave;
     Animal.colors := {| primary := "white"; secondary := "brown";
                         markings := Some "a star on the forehead" |};
     Animal.specialThing := Some "loves apples";
     Animal.stickerDataUrl := None;
     Animal.portraitDataUrl := Some "data:image/png;base64,U1RBUg==" |}.

Definition moo : Animal.t :=
  {| Animal.id := "b-moo"; Animal.createdAt := 1735000000500;
     Animal.mode := dream; Animal.name := "Moo";
     Animal.species := Cow; Animal.personality := Kind;
     Animal.colors := {| primary := "black"; secondary := "white";
                         markings := None |};
     Animal.specialThing := None;
     Animal.stickerDataUrl := None;
     Animal.portraitDataUrl := None |}.

Definition dot : Animal.t :=
  {| Animal.id := "c-dot"; Animal.createdAt := 1735000000500;
     Animal.mode := toy; Animal.name := "Dot";
     Animal.species := Dog; Animal.personality := Playful;
     Animal.colors := {| primary := "golden"; secondary := "";
                         markings := None |};
     Animal.specialThing := None;
     Animal.stickerDataUrl := Some "data:image/png;base64,RE9U";
     Animal.portraitDataUrl := None |}.

Definition picnic : Scene.t :=
  {| Scene.id := "s-picnic"; Scene.createdAt := 1735000001000;
     Scene.title := "Picnic"; Scene.location := Meadow;
     Scene.animalIds := ["a-star"; "b-moo"];
     Scene.userDescription := "They share apples";
     Scene.promptUsed := "prompt";
     Scene.imageDataUrls := ["data:image/png;base64,UElD"];
     Scene.chosenImageDataUrl := Some "data:image/png;base64,UElD";
     Scene.caption := None; Scene.voiceNoteDataUrl := None |}.

Definition settings : Settings.t :=
  {| Settings.openaiApiKey := Some "sk-secret";
     Settings.imageModel := "dall-e-3"; Settings.imageCount := 2;
     Settings.kidSafeMode := true; Settings.extraGentleMode := true |}.

(** A 2xx answer that carries one image in each provider's format. *)
Definition imageAnswer : Net.Response :=
  {| Net.status := 200;
     Net.json := Some
       {| Net.error_message := None;
          Net.candidate_parts :=
            [ {| Net.inlineData :=
                   Some {| Net.mimeType := Some "image/png";
                           Net.data := "QUJD" |} |} ];
          Net.first_b64_json := Some "QUJD";
          Net.first_url := None |};
     Net.base64 := Some "QUJD" |}.

(** A network on which every request succeeds. *)
Definition happyNetwork (_ : list Net.Request) (_ : Net.Request)
  : Net.FetchResult :=
  Net.Responded imageAnswer.

(** A network on which the third request of a run is answered with
    status 503 and every other request succeeds. *)
Definition flakyNetwork (history : list Net.Request) (_ : Net.Request)
  : Net.FetchResult :=
  if length history =? 2
  then Net.Responded {| Net.status := 503; Net.json := None;
                        Net.base64 := None |}
  else Net.Responded imageAnswer.

(** A 2xx answer without image data: Gemini answered with text only,
    OpenAI with an empty [data] array. *)
Definition textAnswer : Net.Response :=
  {| Net.status := 200;
     Net.json := Some
       {| Net.error_message := None;
          Net.candidate_parts := [ {| Net.inlineData := None |} ];
          Net.first_b64_json := None;
          Net.first_url := None |};
     Net.base64 := None |}.

(** A network on which the second request of a run is answered without
    image data and every other request with an image. *)
Definition skippingNetwork (history : list Net.Request) (_ : Net.Request)
  : Net.FetchResult :=
  if length history =? 1 then Net.Responded textAnswer
  else Net.Responded imageAnswer.

(** A network on which every request is answered with status 429. *)
Definition busyNetwork (_ : list Net.Request) (_ : Net.Request)
  : Net.FetchResult :=
  Net.Responded {| Net.status := 429; Net.json := None; Net.base64 := None |}.

(** A network on which every request is answered without image data. *)
Definition textNetwork (_ : list Net.Request) (_ : Net.Request)
  : Net.FetchResult :=
  Net.Responded textAnswer.

Definition geminiOnly : Net.Env :=
  {| Net.GEMINI_API_KEY := Some "gemini-key"; Net.OPENAI_API_KEY := None |}.

Definition bothKeys : Net.Env :=
  {| Net.GEMINI_API_KEY := Some "gemini-key";
     Net.OPENAI_API_KEY := Some "sk-key" |}.

Definition noKeys : Net.Env :=
  {| Net.GEMINI_API_KEY := None; Net.OPENAI_API_KEY := None |}.

(** The no-break space U+00A0, bytes C2 A0. *)
Definition nbsp : string := String "194"%char (String "160"%char "").

(** A store with three characters, a scene and saved settings. *)
Definition store : Database.Store :=
  Database.saveSettings settings
    (Database.saveScene picnic
       (Database.saveAnimal star
          (Database.saveAnimal moo
             (Database.saveAnimal dot Database.emptyStore)))).

(** A request for two images with one reference image. *)
Definition withReference : Net.Body :=
  {| Net.prompt := Some "two friends in a meadow";
     Net.count := Some 2%Z;
     Net.referenceImages := Some ["data:image/png;base64,U1RBUg=="] |}.

(** A request for four images. *)
Definition fourImages : Net.Body :=
  {| Net.prompt := Some "two friends in a meadow";
     Net.count := Some 4%Z;
     Net.referenceImages := None |}.

(** The same request without reference images. *)
Definition withoutReference : Net.Body :=
  {| Net.prompt := Some "two friends in a meadow";
     Net.count := Some 2%Z;
     Net.referenceImages := None |}.

End Sample.

(** ** The client in front of the serverless function *)

Module Deployment.

(** The request that the client's [fetch] hands to the function: a POST
    whose JSON body holds the three fields of the client's body. *)
Definition request (b : Client.RequestBody) : Net.HttpRequest :=
  {| Net.method := "POST";
     Net.body := Some {| Net.prompt := Some (Client.body_prompt b);
                         Net.count := Some (Client.body_count b);
                         Net.referenceImages :=
                           Some (Client.body_referenceImages b) |} |}.

(** The body of the function's answer as [response.json()] gives it back:
    [JSON.stringify] leaves out the fields that are [undefined]. *)
Definition payload (a : Net.Answer) : Client.Payload :=
  match a with
  | Net.ErrorOnly e =>
      {| Client.data_error := Some e; Client.data_images := None |}
  | Net.Result r =>
      {| Client.data_error := Net.error r; Client.data_images := Net.images r |}
  end.

(** The client's [fetch] when [handler] is the function behind
    [/api/generate-image]; each call is a run of its own. *)
Definition serve (handler : Net.HttpRequest -> Net.M Net.HttpResponse)
    (b : Client.RequestBody) : Client.FetchOutcome :=
  let response := fst (handler (request b) Net.start) in
  Client.Responds (Net.code response) (payload (Net.answer response)).

End Deployment.

(** ** Scene maker (SceneMaker.tsx) *)

Module SceneMaker.

(** [ids.includes(id)] *)
Definition includesId (ids : list string) (id : string) : bool :=
  existsb (String.eqb id) ids.

Definition toggleAnimal (selectedAnimalIds : list string) (id : string)
  : list string :=
  if includesId selectedAnimalIds id then
    List.filter (fun aid => negb (String.eqb aid id)) selectedAnimalIds
  else if length selectedAnimalIds <? 3 then
    selectedAnimalIds ++ [id]
  else selectedAnimalIds.

(** [animals.filter(a => selectedAnimalIds.includes(a.id))] *)
Definition selectedAnimals (animals : list Animal.t)
    (selectedAnimalIds : list string) : list Animal.t :=
  List.filter (fun a => includesId selectedAnimalIds (Animal.id a)) animals.

End SceneMaker.

(** ** Dream animal form (DreamAnimal.tsx) *)

Module DreamAnimal.

(** The state of the form that [handleSave] reads. *)
Record Form := {
  name : string;
  species : Species;
  primaryColor : string;
  secondaryColor : string;
  markings : string;
  personality : Personality;
  specialThing : string;
  portrait : option string
}.

(** What [handleSave] does: [setError(msg)], or [onSave(animal)]. *)
Inductive Outcome :=
  | SetError (msg : string)
  | OnSave (animal : Animal.t).

(** [s.trim() || undefined] *)
Definition trimmedOrUndefined (s : string) : option string :=
  if Js.nonempty (Js.trim s) then Some (Js.trim s) else None.

(** [handleSave]; [uuid] is [uuidv4()] and [now] is [Date.now()]. *)
Definition handleSave {U : Js.Unicode} (form : Form) (settings : Settings.t)
    (uuid : string) (now : Z) : Outcome :=
  let nameCheck := ContentFilter.validateAnimalName (name form) in
  if negb (ContentFilter.isAllowed nameCheck) then
    SetError (if Js.truthy (ContentFilter.friendlyMessage nameCheck)
              then default "" (ContentFilter.friendlyMessage nameCheck)
              else "Please enter a valid name")
  else
    let specialCheck :=
      ContentFilter.checkContent (specialThing form)
                                 (Settings.extraGentleMode settings) in
    if Js.nonempty (specialThing form)
       && negb (ContentFilter.isAllowed specialCheck) then
      SetError (if Js.truthy (ContentFilter.friendlyMessage specialCheck)
                then default "" (ContentFilter.friendlyMessage specialCheck)
                else "Let's use friendlier words!")
    else
      OnSave {| Animal.id := uuid;
                Animal.createdAt := now;
                Animal.mode := dream;
                Animal.name := Js.trim (name form);
                Animal.species := species form;
                Animal.personality := personality form;
                Animal.colors :=
                  Build_AnimalColors (primaryColor form) (secondaryColor form)
                    (trimmedOrUndefined (markings form));
                Animal.specialThing := trimmedOrUndefined (specialThing form);
                Animal.stickerDataUrl := None;
                Animal.portraitDataUrl :=
                  if Js.truthy (portrait form) then portrait form else None |}.

End DreamAnimal.

(** ** Toy animal form (ToyAnimal.tsx) *)

Module ToyAnimal.

(** The state of the form that [handleSave] reads. *)
Record Form := {
  name : string;
  species : Species;
  personality : Personality;
  specialThing : string;
  stickerImage : option string
}.

(** [handleSave]; [uuid] is [uuidv4()] and [now] is [Date.now()]. *)
Definition handleSave {U : Js.Unicode} (form : Form) (uuid : string) (now : Z)
  : DreamAnimal.Outcome :=
  let nameCheck := ContentFilter.validateAnimalName (name form) in
  if negb (ContentFilter.isAllowed nameCheck) then
    DreamAnimal.SetError
      (if Js.truthy (ContentFilter.friendlyMessage nameCheck)
       then default "" (ContentFilter.friendlyMessage nameCheck)
       else "Please enter a valid name")
  else if negb (Js.truthy (stickerImage form)) then
    DreamAnimal.SetError "No photo processed yet!"
  else
    DreamAnimal.OnSave
      {| Animal.id := uuid;
         Animal.createdAt := now;
         Animal.mode := toy;
         Animal.name := Js.trim (name form);
         Animal.species := species form;
         Animal.personality := personality form;
         Animal.colors := Build_AnimalColors "#8B4513" "#FFFFFF" None;
         Animal.specialThing :=
           DreamAnimal.trimmedOrUndefined (specialThing form);
         Animal.stickerDataUrl := stickerImage form;
         Animal.portraitDataUrl := None |}.

End ToyAnimal.

(** ** Scene viewer (SceneViewer.tsx) *)

Module SceneViewer.

(** [{ ...scene, caption }] *)
Definition withCaption (scene : Scene.t) (caption : option string)
  : Scene.t :=
  Scene.mk (Scene.id scene) (Scene.createdAt scene) (Scene.title scene)
    (Scene.location scene) (Scene.animalIds scene)
    (Scene.userDescription scene) (Scene.promptUsed scene)
    (Scene.imageDataUrls scene) (Scene.chosenImageDataUrl scene)
    caption (Scene.voiceNoteDataUrl scene).

(** [{ ...scene, voiceNoteDataUrl }] *)
Definition withVoiceNote (scene : Scene.t) (voiceNoteDataUrl : option string)
  : Scene.t :=
  Scene.mk (Scene.id scene) (Scene.createdAt scene) (Scene.title scene)
    (Scene.location scene) (Scene.animalIds scene)
    (Scene.userDescription scene) (Scene.promptUsed scene)
    (Scene.imageDataUrls scene) (Scene.chosenImageDataUrl scene)
    (Scene.caption scene) voiceNoteDataUrl.

(** The scene that [handleSaveCaption] hands to [onUpdate]. *)
Definition handleSaveCaption (scene : Scene.t) (caption : string) : Scene.t :=
  withCaption scene (DreamAnimal.trimmedOrUndefined caption).

(** The scene that [handleStopRecording] hands to [onUpdate] once
    [stopRecording()] has given [audioDataUrl]. *)
Definition handleStopRecording (scene : Scene.t) (audioDataUrl : string)
  : Scene.t :=
  withVoiceNote scene (Some audioDataUrl).

(** The scene that [handleDeleteRecording] hands to [onUpdate] when the
    user confirms. *)
Definition handleDeleteRecording (scene : Scene.t) : Scene.t :=
  withVoiceNote scene None.

End SceneViewer.

(** ** The application state and its handlers (App.tsx) *)

Module App.

Inductive Page :=
  | PageHome | PageAnimals | PageDreamAnimal | PageToyAnimal
  | PageSceneMaker | PageStorybook | PageSceneViewer | PageParentMode.

(** The state of [App] once [loadData] is through, together with the
    database behind the services and the number of calls of
    [launchConfetti] so far.  A handler runs to its end before the next
    one starts. *)
Record State := mk {
  currentPage : Page;
  selectedSceneId : option string;
  animals : list Animal.t;
  scenes : list Scene.t;
  settings : Settings.t;
  hasCreatedFirstAnimal : bool;
  hasCreatedFirstScene : bool;
  confetti : nat;
  db : Database.Store
}.

(** The state after the effect [loadData] on the database [store]. *)
Definition loadData (store : Database.Store) : State :=
  let loadedAnimals := Database.getAllAnimals store in
  let loadedScenes := Database.getAllScenes store in
  let loadedSettings := Database.getSettings store in
  {| currentPage := PageHome;
     selectedSceneId := None;
     animals := loadedAnimals;
     scenes := loadedScenes;
     settings := loadedSettings;
     hasCreatedFirstAnimal := bool_decide (0 < length loadedAnimals);
     hasCreatedFirstScene := bool_decide (0 < length loadedScenes);
     confetti := 0;
     db := store |}.

Definition navigateTo (page : Page) (st : State) : State :=
  mk page None (animals st) (scenes st) (settings st)
     (hasCreatedFirstAnimal st) (hasCreatedFirstScene st) (confetti st)
     (db st).

Definition handleSaveAnimal (animal : Animal.t) (st : State) : State :=
  let db1 := Database.saveAnimal animal (db st) in
  let animals1 :=
    animal :: filter (fun a => Animal.id a <> Animal.id animal) (animals st) in
  let st1 :=
    if negb (hasCreatedFirstAnimal st) then
      mk (currentPage st) (selectedSceneId st) animals1 (scenes st)
         (settings st) true (hasCreatedFirstScene st) (S (confetti st)) db1
    else
      mk (currentPage st) (selectedSceneId st) animals1 (scenes st)
         (settings st) (hasCreatedFirstAnimal st) (hasCreatedFirstScene st)
         (confetti st) db1 in
  navigateTo PageAnimals st1.

Definition handleDeleteAnimal (id : string) (st : State) : State :=
  mk (currentPage st) (selectedSceneId st)
     (filter (fun a => Animal.id a <> id) (animals st)) (scenes st)
     (settings st) (hasCreatedFirstAnimal st) (hasCreatedFirstScene st)
     (confetti st) (Database.deleteAnimal id (db st)).

Definition handleSaveScene (scene : Scene.t) (st : State) : State :=
  let db1 := Database.saveScene scene (db st) in
  let scenes1 :=
    scene :: filter (fun s => Scene.id s <> Scene.id scene) (scenes st) in
  let st1 :=
    if negb (hasCreatedFirstScene st) then
      mk (currentPage st) (selectedSceneId st) (animals st) scenes1
         (settings st) (hasCreatedFirstAnimal st) true (S (confetti st)) db1
    else
      mk (currentPage st) (selectedSceneId st) (animals st) scenes1
         (settings st) (hasCreatedFirstAnimal st) (hasCreatedFirstScene st)
         (confetti st) db1 in
  navigateTo PageStorybook st1.

Definition handleUpdateScene (scene : Scene.t) (st : State) : State :=
  mk (currentPage st) (selectedSceneId st) (animals st)
     ((fun s => if decide (Scene.id s = Scene.id scene) then scene else s)
        <$> scenes st)
     (settings st) (hasCreatedFirstAnimal st) (hasCreatedFirstScene st)
     (confetti st) (Database.saveScene scene (db st)).

Definition handleDeleteScene (id : string) (st : State) : State :=
  mk (currentPage st) (selectedSceneId st) (animals st)
     (filter (fun s => Scene.id s <> id) (scenes st))
     (settings st) (hasCreatedFirstAnimal st) (hasCreatedFirstScene st)
     (confetti st) (Database.deleteScene id (db st)).

Definition handleViewScene (scene : Scene.t) (st : State) : State :=
  mk PageSceneViewer (Some (Scene.id scene)) (animals st) (scenes st)
     (settings st) (hasCreatedFirstAnimal st) (hasCreatedFirstScene st)
     (confetti st) (db st).

Definition handleUpdateSettings (newSettings : Settings.t) (st : State)
  : State :=
  mk (currentPage st) (selectedSceneId st) (animals st) (scenes st)
     newSettings (hasCreatedFirstAnimal st) (hasCreatedFirstScene st)
     (confetti st) (Database.saveSettings newSettings (db st)).

(** [selectedSceneId ? scenes.find(s => s.id === selectedSceneId) : null];
    the empty string is falsy. *)
Definition selectedScene (st : State) : option Scene.t :=
  match selectedSceneId st with
  | Some id =>
      if Js.nonempty id
      then list_find (fun s => Scene.id s = id) (scenes st) ≫= (Some ∘ snd)
      else None
  | None => None
  end.

(** What the pages can ask of [App]: the [onSave] of the two animal
    forms and of the scene maker, the deletions of the stable and of the
    storybook, the view of a scene, the three updates of the scene viewer,
    which is rendered on the page [scene-viewer] with the selected scene,
    and the update of the settings. *)
Inductive Event :=
  | SaveAnimal (animal : Animal.t)
  | DeleteAnimal (id : string)
  | SaveScene (scene : Scene.t)
  | DeleteScene (id : string)
  | ViewScene (scene : Scene.t)
  | SaveCaption (caption : string)
  | StopRecording (audioDataUrl : string)
  | DeleteRecording
  | UpdateSettings (newSettings : Settings.t)
  | NavigateTo (page : Page).

(** An update of the scene viewer: nothing where the viewer is not
    rendered. *)
Definition viewerUpdate (update : Scene.t -> Scene.t) (st : State) : State :=
  match currentPage st, selectedScene st with
  | PageSceneViewer, Some scene => handleUpdateScene (update scene) st
  | _, _ => st
  end.

Definition step (st : State) (e : Event) : State :=
  match e with
  | SaveAnimal animal => handleSaveAnimal animal st
  | DeleteAnimal id => handleDeleteAnimal id st
  | SaveScene scene => handleSaveScene scene st
  | DeleteScene id => handleDeleteScene id st
  | ViewScene scene => handleViewScene scene st
  | SaveCaption caption =>
      viewerUpdate (fun scene => SceneViewer.handleSaveCaption scene caption) st
  | StopRecording audioDataUrl =>
      viewerUpdate
        (fun scene => SceneViewer.handleStopRecording scene audioDataUrl) st
  | DeleteRecording => viewerUpdate SceneViewer.handleDeleteRecording st
  | UpdateSettings newSettings => handleUpdateSettings newSettings st
  | NavigateTo page => navigateTo page st
  end.

Definition run (events : list Event) (st : State) : State :=
  foldl step st events.

(** The lists on the screen are what [loadData] would load. *)
Definition inSync (st : State) : Prop :=
  animals st = Database.getAllAnimals (db st) /\
  scenes st = Database.getAllScenes (db st) /\
  settings st = Database.getSettings (db st).

(** A saved animal or scene is newer than every other one on the screen,
    as one made with [Date.now()] is when the clock moves on. *)
Definition timely (st : State) (e : Event) : Prop :=
  match e with
  | SaveAnimal animal =>
      forall a, a ∈ animals st -> Animal.id a <> Animal.id animal ->
                (Animal.createdAt a < Animal.createdAt animal)%Z
  | SaveScene scene =>
      forall s, s ∈ scenes st -> Scene.id s <> Scene.id scene ->
                (Scene.createdAt s < Scene.createdAt scene)%Z
  | _ => True
  end.

Fixpoint timelyRun (events : list Event) (st : State) : Prop :=
  match events with
  | [] => True
  | e :: events => timely st e /\ timelyRun events (step st e)
  end.



End App.

(** * Properties *)

(** ** Strings *)

Section JsFacts.
Import Js.

Lemma sapp_cons a s t : String a s +:+ t = String a (s +:+ t).
Proof. reflexivity. Qed.

Lemma sapp_nil_l s : "" +:+ s = s.
Proof. reflexivity. Qed.

Lemma sapp_nil_r s : s +:+ "" = s.
Proof. induction s as [|a s IH]; [done|]. by rewrite sapp_cons, IH. Qed.

Lemma sapp_assoc (s t u : string) : (s +:+ t) +:+ u = s +:+ t +:+ u.
Proof. induction s as [|a s IH]; [done|]. by rewrite !sapp_cons, IH. Qed.

Lemma prefix_iff t s :
  String.prefix t s = true <-> exists post, s = t +:+ post.
Proof.
  revert s. induction t as [|a t IH]; intros s.
  - destruct s; simpl; split; eauto.
  - destruct s as [|b s]; simpl.
    + split; [done|]. by intros [post ?].
    + destruct (Ascii.ascii_dec a b) as [->|Hne].
      * rewrite IH. split.
        -- intros [post ->]. by exists post.
        -- intros [post Heq]. rewrite sapp_cons in Heq. simplify_eq. eauto.
      * split; [done|]. intros [post Heq]. rewrite sapp_cons in Heq.
        by simplify_eq.
Qed.

Lemma includes_iff s t :
  includes s t = true <-> exists pre post, s = pre +:+ t +:+ post.
Proof.
  induction s as [|a s IH].
  - cbn [includes]. rewrite orb_false_r, prefix_iff. split.
    + intros [post ->]. by exists "", post.
    + intros [[|] [post Heq]]; [eauto|done].
  - cbn [includes]. rewrite orb_true_iff, prefix_iff, IH. split.
    + intros [[post ->]|(pre & post & ->)].
      * by exists "", post.
      * by exists (String a pre), post.
    + intros ([|b pre] & post & Heq).
      * left. eauto.
      * right. rewrite sapp_cons in Heq. simplify_eq. eauto.
Qed.

Lemma lowerAscii_app s t :
  lowerAscii (s +:+ t) = lowerAscii s +:+ lowerAscii t.
Proof. induction s as [|a s IH]; [done|]. rewrite sapp_cons. simpl. by rewrite IH. Qed.

(** A split of the lower-cased text is the image of a split of the text. *)
Lemma lowerAscii_split s a b :
  lowerAscii s = a +:+ b ->
  exists a' b', s = a' +:+ b' /\ lowerAscii a' = a /\ lowerAscii b' = b.
Proof.
  revert s. induction a as [|c a IH]; intros s Heq.
  - by exists "", s.
  - destruct s as [|d s]; [done|]. rewrite sapp_cons in Heq. simpl in Heq.
    simplify_eq. destruct (IH s) as (a' & b' & -> & <- & <-); [done|].
    by exists (String d a'), b'.
Qed.

Lemma N_of_ascii_lower c :
  is_upper c = true ->
  Ascii.N_of_ascii (lower_char c) = (Ascii.N_of_ascii c + 32)%N.
Proof.
  intros Hup. unfold lower_char. rewrite Hup. unfold is_upper in Hup.
  apply andb_true_iff in Hup as [?%N.leb_le ?%N.leb_le].
  apply Ascii.N_ascii_embedding. lia.
Qed.

Lemma N_of_ascii_inj a b : Ascii.N_of_ascii a = Ascii.N_of_ascii b -> a = b.
Proof.
  intros H. rewrite <- (Ascii.ascii_N_embedding a), <- (Ascii.ascii_N_embedding b).
  by rewrite H.
Qed.

(** A character and its lower case are the same letter. *)
Lemma sameLetter_lower c : Spec.sameLetter c (lower_char c) = true.
Proof.
  unfold Spec.sameLetter. destruct (is_upper c) eqn:Hup.
  - rewrite (N_of_ascii_lower _ Hup). unfold is_upper in Hup.
    cbv zeta in Hup. rewrite Hup, N.eqb_refl. simpl. by rewrite orb_true_r.
  - unfold lower_char. rewrite Hup. by rewrite N.eqb_refl.
Qed.

(** Lower-casing a character gives a lower-case letter [b] it equals up
    to case. *)
Lemma sameLetter_lower_eq a b :
  is_upper b = false -> Spec.sameLetter a b = true -> lower_char a = b.
Proof.
  unfold Spec.sameLetter, is_upper. cbv zeta. intros Hb H.
  rewrite Hb, orb_false_r in H. apply orb_true_iff in H as [H|H].
  - apply N.eqb_eq, N_of_ascii_inj in H as ->.
    unfold lower_char, is_upper. cbv zeta. by rewrite Hb.
  - apply andb_true_iff in H as [Hup H]. apply N.eqb_eq in H.
    apply N_of_ascii_inj. rewrite N_of_ascii_lower; done.
Qed.

Lemma lowerAscii_fixed_cons c s :
  lowerAscii (String c s) = String c s ->
  is_upper c = false /\ lowerAscii s = s.
Proof.
  simpl. intros Heq. injection Heq as Hc Hs. split; [|done].
  destruct (is_upper c) eqn:Hup; [|done].
  pose proof (N_of_ascii_lower _ Hup) as HN. rewrite Hc in HN. lia.
Qed.

Lemma equalsIgnoreCase_lower mid term :
  lowerAscii term = term ->
  Spec.equalsIgnoreCase mid term = true -> lowerAscii mid = term.
Proof.
  revert term. induction mid as [|a mid IH]; intros [|b term] Hfix H;
    try done.
  cbn [Spec.equalsIgnoreCase] in H. apply andb_true_iff in H as [Hab H].
  apply lowerAscii_fixed_cons in Hfix as [Hb Hfix].
  cbn [lowerAscii]. f_equal; [by apply sameLetter_lower_eq | by apply IH].
Qed.

Lemma equalsIgnoreCase_lowerAscii s :
  Spec.equalsIgnoreCase s (lowerAscii s) = true.
Proof.
  induction s as [|a s IH]; [done|]. simpl. by rewrite sameLetter_lower, IH.
Qed.

(** What [includes] decides on the ASCII fold of a text, for a lower-case
    [term]. *)
Lemma includes_lowerAscii_iff text term :
  lowerAscii term = term ->
  includes (lowerAscii text) term = true <-> Spec.containsIgnoreCase text term.
Proof.
  intros Hfix. rewrite includes_iff. split.
  - intros (pre & post & Heq).
    apply lowerAscii_split in Heq as (pre' & rest & -> & <- & Heq).
    apply lowerAscii_split in Heq as (mid & post' & -> & <- & <-).
    exists pre', mid, post'. split; [done|].
    apply equalsIgnoreCase_lowerAscii.
  - intros (pre & mid & post & -> & Hmid).
    exists (lowerAscii pre), (lowerAscii post).
    rewrite !lowerAscii_app. by rewrite (equalsIgnoreCase_lower mid term).
Qed.

Lemma isAscii_app s t :
  isAscii (s +:+ t) = isAscii s && isAscii t.
Proof.
  induction s as [|a s IH]; [done|]. rewrite sapp_cons. cbn [isAscii].
  by rewrite IH, andb_assoc.
Qed.

Lemma is_ascii_lower_char c : is_ascii (lower_char c) = is_ascii c.
Proof.
  unfold lower_char. destruct (is_upper c) eqn:Hup; [|done].
  unfold is_ascii. rewrite Ascii.N_ascii_embedding.
  - unfold is_upper in Hup.
    apply andb_true_iff in Hup as [?%N.leb_le ?%N.leb_le].
    transitivity true; [apply N.ltb_lt; lia|symmetry; apply N.ltb_lt; lia].
  - unfold is_upper in Hup.
    apply andb_true_iff in Hup as [?%N.leb_le ?%N.leb_le]. lia.
Qed.

Lemma isAscii_lowerAscii s : isAscii (lowerAscii s) = isAscii s.
Proof.
  induction s as [|a s IH]; [done|]. cbn [lowerAscii isAscii].
  by rewrite is_ascii_lower_char, IH.
Qed.

(** Two casings of a text have the same ASCII fold. *)
Lemma equalsIgnoreCase_same_fold mid term :
  Spec.equalsIgnoreCase mid term = true -> lowerAscii mid = lowerAscii term.
Proof.
  revert term. induction mid as [|a mid IH]; intros [|b term] H; try done.
  cbn [Spec.equalsIgnoreCase] in H. apply andb_true_iff in H as [Hab H].
  cbn [lowerAscii]. f_equal; [|by apply IH].
  clear -Hab. unfold Spec.sameLetter in Hab. cbv zeta in Hab.
  apply orb_true_iff in Hab as [Hab|Hab];
    [apply orb_true_iff in Hab as [Hab|Hab]|].
  - by apply N.eqb_eq, N_of_ascii_inj in Hab as ->.
  - apply andb_true_iff in Hab as [Hup Hab]. apply N.eqb_eq in Hab.
    assert (is_upper a = true) as Ha by exact Hup.
    apply andb_true_iff in Hup as [?%N.leb_le ?%N.leb_le].
    apply N_of_ascii_inj. rewrite (N_of_ascii_lower a Ha).
    unfold lower_char. destruct (is_upper b) eqn:Hb; [|done].
    unfold is_upper in Hb.
    apply andb_true_iff in Hb as [?%N.leb_le ?%N.leb_le]. lia.
  - apply andb_true_iff in Hab as [Hup Hab]. apply N.eqb_eq in Hab.
    assert (is_upper b = true) as Hb by exact Hup.
    apply andb_true_iff in Hup as [?%N.leb_le ?%N.leb_le].
    apply N_of_ascii_inj. rewrite (N_of_ascii_lower b Hb).
    unfold lower_char. destruct (is_upper a) eqn:Ha; [|done].
    unfold is_upper in Ha.
    apply andb_true_iff in Ha as [?%N.leb_le ?%N.leb_le]. lia.
Qed.

(** A casing of an ASCII text is an ASCII text. *)
Lemma equalsIgnoreCase_isAscii mid term :
  isAscii term = true -> Spec.equalsIgnoreCase mid term = true ->
  isAscii mid = true.
Proof.
  intros Hterm Heq. rewrite <- isAscii_lowerAscii.
  rewrite (equalsIgnoreCase_same_fold mid term Heq).
  by rewrite isAscii_lowerAscii.
Qed.

Context {U : Unicode}.

(** On ASCII text every case mapping is the ASCII fold. *)
Lemma toLowerCase_of_ascii s :
  isAscii s = true -> toLowerCase s = lowerAscii s.
Proof.
  intros Hs. destruct (toLowerCase_ascii "" s "" Hs)
    as (pre & post & Heq & Hpre & Hpost).
  rewrite sapp_nil_l, sapp_nil_r in Heq.
  by rewrite Heq, Hpre, Hpost, sapp_nil_l, sapp_nil_r.
Qed.

(** A lower-case ASCII [term] that occurs in the text in some casing, at
    some position, occurs in the lower-cased text. *)
Lemma includes_toLowerCase text term :
  isAscii term = true -> lowerAscii term = term ->
  Spec.containsIgnoreCase text term ->
  includes (toLowerCase text) term = true.
Proof.
  intros Hascii Hfix (pre & mid & post & -> & Hmid).
  pose proof (equalsIgnoreCase_isAscii mid term Hascii Hmid) as Hm.
  destruct (toLowerCase_ascii pre mid post Hm) as (pre' & post' & -> & _).
  rewrite (equalsIgnoreCase_lower mid term Hfix Hmid).
  apply includes_iff. by exists pre', post'.
Qed.

(** On ASCII text, the lower-cased text holds [term] exactly when the text
    holds a casing of it. *)
Lemma includes_toLowerCase_iff text term :
  isAscii text = true -> lowerAscii term = term ->
  includes (toLowerCase text) term = true <->
  Spec.containsIgnoreCase text term.
Proof.
  intros Htext Hfix. rewrite (toLowerCase_of_ascii text Htext).
  by apply includes_lowerAscii_iff.
Qed.

End JsFacts.

(** ** Content filter *)

Section ContentFilterFacts.
Import ContentFilter.
Context {U : Js.Unicode}.

Lemma BLOCKED_TERMS_lower term :
  term ∈ BLOCKED_TERMS -> Js.lowerAscii term = term.
Proof.
  assert (Forall (fun t => Js.lowerAscii t = t) BLOCKED_TERMS) as H
    by (repeat constructor).
  rewrite Forall_forall in H. apply H.
Qed.

Lemma BLOCKED_TERMS_ascii term :
  term ∈ BLOCKED_TERMS -> Js.isAscii term = true.
Proof.
  assert (Forall (fun t => Js.isAscii t = true) BLOCKED_TERMS) as H
    by (repeat constructor).
  rewrite Forall_forall in H. apply H.
Qed.

(** On ASCII text the content filter runs as with the ASCII fold. *)
Lemma checkContent_ascii text g :
  Js.isAscii text = true ->
  checkContent text g = checkContent (U := Js.asciiOnly) text g.
Proof.
  intros Htext. unfold checkContent. cbv zeta.
  by rewrite (toLowerCase_of_ascii text Htext).
Qed.

Lemma blockedResult_denies g term :
  isAllowed (blockedResult g term) = false /\
  cleanedText (blockedResult g term) = None.
Proof. unfold blockedResult. by destruct (_ && _). Qed.

(** The first loop returns at the first term of the list that occurs in
    the lower-cased text. *)
Lemma scanBlocked_Some lowerText g terms r :
  scanBlocked lowerText g terms = Some r <->
  exists before first after,
    terms = before ++ first :: after /\
    (forall t, t ∈ before -> Js.includes lowerText t = false) /\
    Js.includes lowerText first = true /\
    r = blockedResult g first.
Proof.
  induction terms as [|term rest IH]; simpl.
  - split; [done|]. intros (before & ? & ? & Heq & _). by destruct before.
  - destruct (Js.includes lowerText term) eqn:Hinc.
    + split.
      * intros [= <-]. exists [], term, rest. split_and!; try done.
        by intros t ?%not_elem_of_nil.
      * intros ([|b before] & first & after & Heq & Hbefore & Hfirst & ->);
          simplify_eq/=; [done|].
        rewrite Hbefore in Hinc; [done|]. by left.
    + rewrite IH. split.
      * intros (before & first & after & -> & Hbefore & Hfirst & ->).
        exists (term :: before), first, after. split_and!; try done.
        intros t [->|?]%elem_of_cons; auto.
      * intros ([|b before] & first & after & Heq & Hbefore & Hfirst & ->);
          simplify_eq/=; [congruence|].
        exists before, first, after. split_and!; try done.
        intros t ?. apply Hbefore. by right.
Qed.

Lemma scanBlocked_None lowerText g terms :
  scanBlocked lowerText g terms = None <->
  forall t, t ∈ terms -> Js.includes lowerText t = false.
Proof.
  induction terms as [|term rest IH]; simpl.
  - split; [|done]. by intros _ t ?%not_elem_of_nil.
  - destruct (Js.includes lowerText term) eqn:Hinc.
    + split; [done|]. intros H. rewrite H in Hinc; [done|]. by left.
    + rewrite IH. split.
      * intros H t [->|?]%elem_of_cons; auto.
      * intros H t ?. apply H. by right.
Qed.

(** Whether the first loop returns does not depend on the mode flag. *)
Lemma scanBlocked_flag lowerText g g' terms :
  (scanBlocked lowerText g terms = None /\
   scanBlocked lowerText g' terms = None) \/
  exists first,
    scanBlocked lowerText g terms = Some (blockedResult g first) /\
    scanBlocked lowerText g' terms = Some (blockedResult g' first).
Proof.
  induction terms as [|term rest IH]; simpl; [by left|].
  destruct (Js.includes lowerText term); [|done]. right. by exists term.
Qed.

Lemma scanMild_allows text lowerText terms r :
  scanMild text lowerText terms = Some r ->
  isAllowed r = true /\ cleanedText r = Some text.
Proof.
  induction terms as [|term rest IH]; simpl; [done|].
  destruct (Js.includes lowerText term); [|done]. by intros [= <-].
Qed.

(** C2: a blocked term that occurs in a text in any casing, at any
    position, matches it; a text that a blocked term matches is denied by
    [checkContent] whatever the extra-gentle flag; and the result is the
    one of the first term of the blocklist, in list order, that matches
    the text. *)
Theorem checkContent_blocks_any_casing (text : string) (extraGentle : bool) :
  (forall term, term ∈ BLOCKED_TERMS ->
     Spec.containsIgnoreCase text term -> Spec.matches text term) /\
  (forall term, term ∈ BLOCKED_TERMS -> Spec.matches text term ->
     isAllowed (checkContent text extraGentle) = false /\
     exists before first after,
       BLOCKED_TERMS = before ++ first :: after /\
       (forall t, t ∈ before -> ~ Spec.matches text t) /\
       Spec.matches text first /\
       checkContent text extraGentle = blockedResult extraGentle first).
Proof.
  split.
  - intros term Hin Hocc.
    by apply includes_toLowerCase;
      [apply BLOCKED_TERMS_ascii|apply BLOCKED_TERMS_lower|].
  - intros term Hin Hocc. unfold Spec.matches in *.
    unfold checkContent. cbv zeta.
    destruct (scanBlocked (Js.toLowerCase text) extraGentle BLOCKED_TERMS)
      as [r|] eqn:Hscan.
    + apply scanBlocked_Some in Hscan
        as (before & first & after & Heq & Hbefore & Hfirst & ->).
      split; [apply blockedResult_denies|].
      exists before, first, after. split_and!; try done.
      intros t Ht Hc. rewrite Hbefore in Hc; done.
    + rewrite scanBlocked_None in Hscan. rewrite Hscan in Hocc; done.
Qed.

(** C7: [checkContent "fight"] denies in both modes. Without the
    extra-gentle flag the message is the generic redirect, which names
    neither "fight" nor "play"; with the flag the message is the one that
    offers "play", the registered alternative, in place of "fight". *)
Theorem checkContent_fight :
  checkContent "fight" false =
    {| isAllowed := false;
       friendlyMessage := Some genericMessage;
       cleanedText := None |} /\
  Js.includes genericMessage "fight" = false /\
  Js.includes genericMessage "play" = false /\
  GENTLE_ALTERNATIVES "fight" = Some "play" /\
  checkContent "fight" true =
    {| isAllowed := false;
       friendlyMessage := Some (alternativeMessage "fight" "play");
       cleanedText := None |} /\
  Js.includes (alternativeMessage "fight" "play")
    ("Instead of " +:+ Js.dquote +:+ "fight" +:+ Js.dquote +:+
     ", how about " +:+ Js.dquote +:+ "play" +:+ Js.dquote) = true.
Proof. rewrite !(checkContent_ascii "fight") by done. split_and!; by vm_compute. Qed.

(** C9: the extra-gentle flag never changes the decision of
    [checkContent]: [isAllowed] and [cleanedText] are the same for both
    values of the flag; only the friendly message may differ. *)
Theorem checkContent_flag_independent (text : string) :
  isAllowed (checkContent text true) = isAllowed (checkContent text false) /\
  cleanedText (checkContent text true) = cleanedText (checkContent text false).
Proof.
  unfold checkContent. cbv zeta.
  destruct (scanBlocked_flag (Js.toLowerCase text) true false BLOCKED_TERMS)
    as [[-> ->]|(first & -> & ->)].
  - destruct (scanMild text (Js.toLowerCase text) mildlyNegative) as [r|] eqn:Hm;
      [|done].
    by apply scanMild_allows in Hm as [-> ->].
  - destruct (blockedResult_denies true first) as [-> ->].
    by destruct (blockedResult_denies false first) as [-> ->].
Qed.

End ContentFilterFacts.

Lemma checkContent_blocks_any_casing_witness :
  "fight" ∈ ContentFilter.BLOCKED_TERMS /\
  Spec.containsIgnoreCase "Let's FiGhT!" "fight" /\
  ContentFilter.isAllowed
    (ContentFilter.checkContent (U := Js.asciiOnly) "Let's FiGhT!" true)
    = false.
Proof.
  assert ("fight" ∈ ContentFilter.BLOCKED_TERMS) as Hin
    by (apply list_elem_of_In; vm_compute; tauto).
  assert (Spec.containsIgnoreCase "Let's FiGhT!" "fight") as Hocc
    by (exists "Let's ", "FiGhT", "!"; split; reflexivity).
  split_and!; [exact Hin | exact Hocc |].
  destruct (checkContent_blocks_any_casing (U := Js.asciiOnly)
              "Let's FiGhT!" true) as [Hmatch Hdeny].
  exact (proj1 (Hdeny "fight" Hin (Hmatch "fight" Hin Hocc))).
Defined.

(** ** Prompt builder *)

Section PromptBuilderFacts.
Import PromptBuilder.
Context {U : Js.Unicode}.

Lemma manner_parts a :
  ", who is " +:+ Js.toLowerCase (Personality_str (Animal.personality a)) +:+
  (if Js.truthy (Animal.specialThing a)
   then " and " +:+ default "" (Animal.specialThing a) else "")
  = Spec.manner a.
Proof.
  unfold Spec.manner. destruct (Animal.specialThing a) as [thing|]; [|done].
  by destruct thing.
Qed.

(** The descriptor of a character that has an image. *)
Lemma descriptor_with_image index a :
  hasImage a = true -> descriptor index a = Spec.deferral (index + 1) a.
Proof.
  intros H. unfold descriptor, descriptorParts, Js.join. cbv zeta.
  rewrite H. cbn [negb andb String.concat].
  rewrite !sapp_nil_l. unfold Spec.deferral, Spec.who.
  rewrite <- manner_parts. by rewrite !sapp_assoc.
Qed.

(** The descriptor of a character that has no image. *)
Lemma descriptor_without_image index a :
  hasImage a = false -> descriptor index a = Spec.inlineColors a.
Proof.
  intros H. unfold descriptor, descriptorParts, Js.join. cbv zeta.
  rewrite H. cbn [negb andb String.concat].
  rewrite !sapp_nil_l.
  unfold Spec.inlineColors, Spec.who, Spec.fullColorText.
  rewrite <- manner_parts.
  destruct (Animal.colors a) as [p s m]; cbn [primary secondary markings].
  destruct m as [[|c m]|]; destruct s as [|c' s];
    cbn [Js.truthy Js.nonempty default];
    by rewrite ?sapp_nil_l, ?sapp_nil_r, ?sapp_assoc, ?sapp_nil_l.
Qed.

Lemma hasImage_with_colors a c :
  hasImage (Animal.with_colors a c) = hasImage a.
Proof. reflexivity. Qed.

Lemma deferral_with_colors n a c :
  Spec.deferral n (Animal.with_colors a c) = Spec.deferral n a.
Proof. reflexivity. Qed.

Lemma descriptor_clause index a : descriptor index a = Spec.clause index a.
Proof.
  unfold Spec.clause. destruct (hasImage a) eqn:Ha.
  - by apply descriptor_with_image.
  - by apply descriptor_without_image.
Qed.

Lemma animalDescriptions_clauses animals :
  animalDescriptions animals = Js.join "; " (imap Spec.clause animals).
Proof.
  unfold animalDescriptions. f_equal. apply imap_ext.
  intros i a _. apply descriptor_clause.
Qed.

(** The prompt holds the joined clauses of the characters between
    [Characters: ] and the full stop that follows them; what comes before
    and after does not depend on the characters. *)
Lemma buildScenePrompt_characters location userDescription :
  exists pre post, forall animals,
    buildScenePrompt animals location userDescription =
    pre +:+ "Characters: " +:+ Js.join "; " (imap Spec.clause animals)
        +:+ "." +:+ post.
Proof.
  exists (ART_STYLE +:+ "." +:+ nl +:+ nl +:+ "Scene setting: " +:+
          LOCATION_DESCRIPTIONS location +:+ "." +:+ nl +:+ nl).
  eexists. intros animals. unfold buildScenePrompt.
  rewrite animalDescriptions_clauses, !sapp_assoc. reflexivity.
Qed.

(** C3: for every list of characters, the scene prompt holds, between
    [Characters: ] and the full stop after them, the clauses of the
    characters joined by [; ], and nothing else of the prompt depends on
    the characters.  The clause of a character that has a portrait or
    sticker image defers to its reference image and holds none of its
    colors: the prompt stays the same when the colors of such characters
    change.  The clause of a character with neither image spells out the
    full color text.  With three characters of which exactly one lacks an
    image, the prompt holds the inline colors of that one and the deferrals
    of the two others. *)
Theorem buildScenePrompt_colors_or_reference (location : Location)
    (userDescription : string) :
  exists pre post,
    (forall animals,
       buildScenePrompt animals location userDescription =
         pre +:+ "Characters: " +:+ Js.join "; " (imap Spec.clause animals)
             +:+ "." +:+ post) /\
    (forall index a, hasImage a = true ->
       Spec.clause index a =
         Spec.who a +:+ " (shown in reference image " +:+ Js.ofNat (index + 1)
           +:+ ")" +:+ Spec.manner a /\
       forall c, Spec.clause index (Animal.with_colors a c) =
                 Spec.clause index a) /\
    (forall index a, hasImage a = false ->
       Spec.clause index a =
         Spec.who a +:+ " (" +:+ Spec.fullColorText (Animal.colors a)
           +:+ ")" +:+ Spec.manner a) /\
    (forall animals animals',
       Forall2 (fun a a' =>
                  if hasImage a
                  then exists c, a' = Animal.with_colors a c
                  else a' = a) animals animals' ->
       buildScenePrompt animals' location userDescription =
       buildScenePrompt animals location userDescription) /\
    (forall a b c,
       length (List.filter (fun x => negb (hasImage x)) [a; b; c]) = 1 ->
       (hasImage a = false ->
        buildScenePrompt [a; b; c] location userDescription =
          pre +:+ "Characters: "
              +:+ (Spec.inlineColors a +:+ "; " +:+ Spec.deferral 2 b
                     +:+ "; " +:+ Spec.deferral 3 c)
              +:+ "." +:+ post) /\
       (hasImage b = false ->
        buildScenePrompt [a; b; c] location userDescription =
          pre +:+ "Characters: "
              +:+ (Spec.deferral 1 a +:+ "; " +:+ Spec.inlineColors b
                     +:+ "; " +:+ Spec.deferral 3 c)
              +:+ "." +:+ post) /\
       (hasImage c = false ->
        buildScenePrompt [a; b; c] location userDescription =
          pre +:+ "Characters: "
              +:+ (Spec.deferral 1 a +:+ "; " +:+ Spec.deferral 2 b
                     +:+ "; " +:+ Spec.inlineColors c)
              +:+ "." +:+ post)).
Proof.
  destruct (buildScenePrompt_characters location userDescription)
    as (pre & post & Hprompt).
  exists pre, post. split_and!.
  - exact Hprompt.
  - intros index a Ha. unfold Spec.clause. rewrite Ha. split; [done|].
    intros c. by rewrite hasImage_with_colors, Ha.
  - intros index a Ha. unfold Spec.clause. by rewrite Ha.
  - intros animals animals' Hsame. rewrite !Hprompt.
    assert (forall n, imap (fun i => Spec.clause (n + i)) animals' =
                      imap (fun i => Spec.clause (n + i)) animals) as Himap.
    { induction Hsame as [|a a' l l' Ha Hl IH]; intros n; [done|].
      cbn [imap]. f_equal.
      - revert Ha. unfold Spec.clause.
        destruct (hasImage a) eqn:Himg; intros Ha.
        + destruct Ha as [c ->]. by rewrite hasImage_with_colors, Himg.
        + subst a'. by rewrite Himg.
      - unfold compose.
        rewrite (imap_ext _ (fun i => Spec.clause (S n + i)) l');
          [|intros; f_equal; lia].
        rewrite (imap_ext (fun i => Spec.clause (n + S i))
                   (fun i => Spec.clause (S n + i)) l);
          [|intros; f_equal; lia].
        apply IH. }
    assert (imap Spec.clause animals' = imap Spec.clause animals) as ->
      by apply (Himap 0).
    done.
  - intros a b c Hone. cbn [List.filter] in Hone. rewrite Hprompt.
    unfold Spec.clause, Js.join. cbn [imap compose String.concat].
    destruct (hasImage a) eqn:Ha, (hasImage b) eqn:Hb, (hasImage c) eqn:Hc;
      try discriminate Hone; by split_and!.
Qed.

End PromptBuilderFacts.

Lemma buildScenePrompt_colors_or_reference_witness :
  length (List.filter (fun x => negb (PromptBuilder.hasImage x))
                      [Sample.star; Sample.moo; Sample.dot]) = 1 /\
  PromptBuilder.hasImage Sample.moo = false /\
  exists pre post,
    PromptBuilder.buildScenePrompt (U := Js.asciiOnly)
      [Sample.star; Sample.moo; Sample.dot] Meadow "They share apples" =
      pre +:+ "Characters: "
          +:+ (Spec.deferral (U := Js.asciiOnly) 1 Sample.star +:+ "; "
               +:+ Spec.inlineColors (U := Js.asciiOnly) Sample.moo +:+ "; "
               +:+ Spec.deferral (U := Js.asciiOnly) 3 Sample.dot)
          +:+ "." +:+ post.
Proof.
  split; [reflexivity|]. split; [reflexivity|].
  destruct (buildScenePrompt_colors_or_reference (U := Js.asciiOnly) Meadow
              "They share apples") as (pre & post & _ & _ & _ & _ & Hthree).
  exists pre, post.
  exact (proj1 (proj2 (Hthree Sample.star Sample.moo Sample.dot eq_refl))
           eq_refl).
Defined.

(** The scenario of the specification, counted on the prompt text. *)
Example three_characters_one_without_image :
  let prompt := PromptBuilder.buildScenePrompt (U := Js.asciiOnly)
                  [Sample.star; Sample.moo; Sample.dot]
                  Meadow "They share apples" in
  PromptBuilder.animalDescriptions (U := Js.asciiOnly)
    [Sample.star; Sample.moo; Sample.dot] =
    "Star the horse (shown in reference image 1), who is brave and loves apples; Moo the cow (black with white markings), who is kind; Dot the dog (shown in reference image 3), who is playful" /\
  Js.occurrences " (shown in reference image " prompt = 2 /\
  Js.occurrences " (black with white markings)" prompt = 1 /\
  Js.occurrences "white with brown markings" prompt = 0 /\
  Js.occurrences "golden" prompt = 0.
Proof. by vm_compute. Qed.

Section ReferenceImageFacts.
Import PromptBuilder.
Context {U : Js.Unicode}.

(** *** Reference images *)


Lemma getAnimalImages_cons a l :
  getAnimalImages (a :: l) =
  (if hasImage a then [default "" (imageOf a)] else []) ++ getAnimalImages l.
Proof.
  unfold getAnimalImages, hasImage. cbn [map List.filter].
  destruct (imageOf a) as [img|] eqn:Himg; cbn [Js.truthy]; [|done].
  by destruct (Js.nonempty img).
Qed.

Lemma getAnimalImages_length l :
  length (getAnimalImages l) <= length l.
Proof.
  induction l as [|a l IH]; [done|]. rewrite getAnimalImages_cons.
  rewrite length_app. destruct (hasImage a); simpl; lia.
Qed.




End ReferenceImageFacts.



(** ** Generation client *)

Section ClientFacts.
Import Client.
Variable fetch : RequestBody -> FetchOutcome.

(** C5: a 2xx answer whose payload has no [images] or an empty [images]
    array makes [generateImages] fail with the no-images message; and a
    successful result always carries at least one image. *)
Theorem generateImages_empty_is_failure (prompt : string)
    (settings : Settings.t) (count : Z)
    (referenceImages : option (list string)) :
  (forall status data,
     fetch {| body_prompt := prompt; body_count := count;
              body_referenceImages := default [] referenceImages |}
       = Responds status data ->
     200 <= status <= 299 ->
     data_images data = None \/ data_images data = Some [] ->
     generateImages fetch prompt settings count referenceImages =
       {| success := false; images := None;
          error := Some "No images were created. Let's try again! 🔄" |}) /\
  (success (generateImages fetch prompt settings count referenceImages) = true ->
   exists img imgs,
     images (generateImages fetch prompt settings count referenceImages)
       = Some (img :: imgs)).
Proof.
  unfold generateImages. split.
  - intros status data -> [Hlo Hhi] Himgs.
    assert (ok status = true) as ->.
    { unfold ok. apply andb_true_iff. split; by apply Nat.leb_le. }
    cbn [negb]. by destruct Himgs as [-> | ->].
  - destruct (fetch _) as [| |status data]; cbn; try done.
    destruct (negb (ok status)); [done|].
    destruct (data_images data) as [[|img imgs]|]; cbn; try done. eauto.
Qed.

End ClientFacts.

Lemma generateImages_empty_is_failure_witness :
  let fetch := fun _ => Client.Responds 200
                 {| Client.data_error := None; Client.data_images := Some [] |} in
  Client.generateImages fetch "a pony" Sample.settings 2 None =
    {| Client.success := false; Client.images := None;
       Client.error := Some "No images were created. Let's try again! 🔄" |}.
Proof.
  intros fetch.
  apply (proj1 (generateImages_empty_is_failure fetch "a pony" Sample.settings
                  2 None) 200
           {| Client.data_error := None; Client.data_images := Some [] |}).
  - reflexivity.
  - lia.
  - by right.
Defined.

(** ** Generation gateway: one provider attempt *)

Section AttemptFacts.
Import Net.
Variable network : list Request -> Request -> FetchResult.

Lemma answerAt_0 req history :
  Spec.answerAt network req history 0 = network history req.
Proof. unfold Spec.answerAt. simpl. by rewrite app_nil_r. Qed.

Lemma answerAt_S req history i :
  Spec.answerAt network req history (S i) =
  Spec.answerAt network req (history ++ [req]) i.
Proof. unfold Spec.answerAt. simpl. by rewrite <- app_assoc. Qed.

Lemma flat_map_seq_S {A} (f : nat -> list A) a n :
  flat_map f (seq (S a) n) = flat_map (fun i => f (S i)) (seq a n).
Proof.
  revert a. induction n as [|n IH]; intros a; [done|].
  cbn [seq flat_map]. by rewrite IH.
Qed.

Lemma collected_S req extract history n :
  Spec.collected network req extract history (S n) =
  extract (network history req) ++
  Spec.collected network req extract (history ++ [req]) n.
Proof.
  unfold Spec.collected. cbn [seq flat_map].
  rewrite answerAt_0, flat_map_seq_S. f_equal.
  apply flat_map_ext. intros i. by rewrite answerAt_S.
Qed.

Section Loop.
(** A loop that sends [req] up to [remaining] times, stops with a
    failure at the first answer that fails, and otherwise adds the
    image of the answer to [images]. *)
Variable req : Request.
Variable extract : FetchResult -> list string.
Variable loop : nat -> list string -> M GenResult.

Hypothesis loop_O : forall images w, loop 0 images w = (finish images, w).
Hypothesis loop_S : forall n images w,
  let r := network (sent w) req in
  (Spec.fails r = true /\
   exists msg, loop (S n) images w = (failed msg, after w req)) \/
  (Spec.fails r = false /\
   loop (S n) images w = loop n (images ++ extract r) (after w req)).

Lemma loop_tried n images w : tried (snd (loop n images w)) = tried w.
Proof.
  revert images w. induction n as [|n IH]; intros images w.
  - by rewrite loop_O.
  - destruct (loop_S n images w) as [[_ [msg ->]]|[_ ->]]; [done|].
    by rewrite IH.
Qed.

Lemma loop_allOrNothing n images w :
  (exists j, j < n /\
     (forall i, i < j ->
        Spec.fails (Spec.answerAt network req (sent w) i) = false) /\
     Spec.fails (Spec.answerAt network req (sent w) j) = true /\
     success (fst (loop n images w)) = false /\
     Net.images (fst (loop n images w)) = None /\
     sent (snd (loop n images w)) = sent w ++ replicate (S j) req)
  \/
  ((forall i, i < n ->
      Spec.fails (Spec.answerAt network req (sent w) i) = false) /\
   fst (loop n images w) =
     finish (images ++ Spec.collected network req extract (sent w) n) /\
   sent (snd (loop n images w)) = sent w ++ replicate n req).
Proof.
  revert images w. induction n as [|n IH]; intros images w.
  - right. rewrite loop_O. simpl. rewrite !app_nil_r.
    split_and!; [lia|done..].
  - destruct (loop_S n images w) as [[Hf [msg ->]]|[Hf ->]].
    + left. exists 0. rewrite answerAt_0. split_and!; try done; lia.
    + destruct (IH (images ++ extract (network (sent w) req)) (after w req))
        as [(j & Hj & Hbefore & Hfail & Hs & Hi & Hsent)
           |(Hall & Hres & Hsent)]; cbn [after sent] in *.
      * left. exists (S j). split_and!; [lia | | | done | done | ].
        -- intros [|i] Hi'; [by rewrite answerAt_0|].
           rewrite answerAt_S. apply Hbefore. lia.
        -- by rewrite answerAt_S.
        -- rewrite Hsent, <- app_assoc. done.
      * right. split_and!.
        -- intros [|i] Hi'; [by rewrite answerAt_0|].
           rewrite answerAt_S. apply Hall. lia.
        -- by rewrite Hres, collected_S, app_assoc.
        -- rewrite Hsent, <- app_assoc. done.
Qed.
End Loop.

End AttemptFacts.

Section ProviderFacts.
Import Net.
Variable network : list Request -> Request -> FetchResult.

(** Unfold one iteration of a provider loop and split on the answer. *)
Ltac loop_step :=
  unfold bind, fetch;
  match goal with
  | |- context [network ?h ?q] => destruct (network h q) as [|[st [data|] b64]]
  end;
  cbn [Spec.fails Spec.geminiImages Spec.openAIImages json status];
  unfold ok; cbn [status json negb];
  repeat match goal with
    | |- context [(200 <=? ?st) && (?st <=? 299)] =>
        destruct ((200 <=? st) && (st <=? 299)); cbn [negb orb]
    | |- context [if ?c then ret _ else _] => destruct c
    end;
  try (left; split; [done|]; unfold ret; eauto; fail).

Lemma plain_geminiLoop_S prompt apiKey n images w :
  let req := GeminiGenerate apiKey ("Generate an image: " +:+ prompt) in
  let r := network (sent w) req in
  (Spec.fails r = true /\
   exists msg, PlainGateway.geminiLoop network prompt apiKey (S n) images w
               = (failed msg, after w req)) \/
  (Spec.fails r = false /\
   PlainGateway.geminiLoop network prompt apiKey (S n) images w =
   PlainGateway.geminiLoop network prompt apiKey n
     (images ++ Spec.geminiImages r) (after w req)).
Proof. cbv zeta. cbn [PlainGateway.geminiLoop]. loop_step. by right. Qed.

Lemma reference_geminiLoop_S prompt apiKey n images w :
  let req := GeminiGenerate apiKey ("Generate an image: " +:+ prompt) in
  let r := network (sent w) req in
  (Spec.fails r = true /\
   exists msg, ReferenceGateway.geminiLoop network prompt apiKey (S n) images w
               = (failed msg, after w req)) \/
  (Spec.fails r = false /\
   ReferenceGateway.geminiLoop network prompt apiKey (S n) images w =
   ReferenceGateway.geminiLoop network prompt apiKey n
     (images ++ Spec.geminiImages r) (after w req)).
Proof. cbv zeta. cbn [ReferenceGateway.geminiLoop]. loop_step. by right. Qed.

Lemma push_b64 (images : list string) (b64 : option string) :
  (if Js.truthy b64
   then images ++ ["data:image/png;base64," +:+ default "" b64]
   else images) =
  images ++ match b64 with
            | Some s => if Js.nonempty s
                        then ["data:image/png;base64," +:+ s] else []
            | None => []
            end.
Proof.
  destruct b64 as [s|]; cbn; [|by rewrite app_nil_r].
  destruct (Js.nonempty s); [done|by rewrite app_nil_r].
Qed.

Lemma plain_openAILoop_S prompt apiKey n images w :
  let req := OpenAIImages apiKey "dall-e-3" prompt in
  let r := network (sent w) req in
  (Spec.fails r = true /\
   exists msg, PlainGateway.openAILoop network prompt apiKey (S n) images w
               = (failed msg, after w req)) \/
  (Spec.fails r = false /\
   PlainGateway.openAILoop network prompt apiKey (S n) images w =
   PlainGateway.openAILoop network prompt apiKey n
     (images ++ Spec.openAIImages r) (after w req)).
Proof.
  cbv zeta. cbn [PlainGateway.openAILoop]. loop_step. right. by rewrite push_b64.
Qed.

Lemma reference_openAILoop_S prompt apiKey n images w :
  let req := OpenAIImages apiKey "dall-e-3" prompt in
  let r := network (sent w) req in
  (Spec.fails r = true /\
   exists msg, ReferenceGateway.openAILoop network prompt apiKey (S n) images w
               = (failed msg, after w req)) \/
  (Spec.fails r = false /\
   ReferenceGateway.openAILoop network prompt apiKey (S n) images w =
   ReferenceGateway.openAILoop network prompt apiKey n
     (images ++ Spec.openAIImages r) (after w req)).
Proof.
  cbv zeta. cbn [ReferenceGateway.openAILoop]. loop_step. right. by rewrite push_b64.
Qed.

End ProviderFacts.

Section ProviderAttempts.
Import Net.
Variable network : list Request -> Request -> FetchResult.

(** An attempt that reports success sent all its requests and none of
    them failed. *)
Lemma allOrNothing_success req extract history n result sent' :
  Spec.allOrNothing network req extract history n result sent' ->
  success result = true ->
  (forall i, i < n ->
     Spec.fails (Spec.answerAt network req history i) = false) /\
  result = finish (Spec.collected network req extract history n) /\
  sent' = history ++ replicate n req.
Proof.
  intros [(j & _ & _ & _ & Hs & _)|H] Hok; [congruence|done].
Qed.

Lemma flat_map_length_le {A B} (f : A -> list B) (l : list A) :
  (forall x, length (f x) <= 1) -> length (flat_map f l) <= length l.
Proof.
  intros Hf. induction l as [|x l IH]; [done|].
  cbn [flat_map]. rewrite length_app. specialize (Hf x). simpl. lia.
Qed.

(** A successful attempt returns at least one image and at most one for
    each request. *)
Lemma allOrNothing_someImages req extract history n result sent' :
  (forall r, length (extract r) <= 1) ->
  Spec.allOrNothing network req extract history n result sent' ->
  Spec.someImages n result.
Proof.
  intros Hone Hrun Hok.
  apply allOrNothing_success in Hrun as (_ & -> & _); [|done].
  pose proof (flat_map_length_le
                (fun i => extract (Spec.answerAt network req history i))
                (seq 0 n) (fun i => Hone _)) as Hlen.
  rewrite length_seq in Hlen. fold (Spec.collected network req extract history n) in Hlen.
  destruct (Spec.collected network req extract history n) as [|img imgs];
    [done|].
  exists (img :: imgs). split; [done|]. simpl in *. lia.
Qed.

Lemma firstImagePart_length parts : length (firstImagePart parts) <= 1.
Proof.
  induction parts as [|part parts IH]; simpl; [lia|].
  destruct (inlineData part) as [d|]; [|done].
  destruct (mimeType d) as [mt|]; [|done].
  destruct (Js.startsWith mt "image/"); [simpl; lia|done].
Qed.

Lemma geminiImages_length r : length (Spec.geminiImages r) <= 1.
Proof.
  destruct r as [|[st [data|] b64]]; simpl; try lia.
  apply firstImagePart_length.
Qed.

Lemma openAIImages_length r : length (Spec.openAIImages r) <= 1.
Proof.
  destruct r as [|[st [data|] b64]]; simpl; try lia.
  destruct (first_b64_json data) as [s|]; simpl; [|lia].
  destruct (Js.nonempty s); simpl; lia.
Qed.

Lemma plain_generateWithGemini_attempt prompt apiKey count w :
  let run := PlainGateway.generateWithGemini network prompt apiKey count w in
  Spec.allOrNothing network
    (GeminiGenerate apiKey ("Generate an image: " +:+ prompt))
    Spec.geminiImages (sent w) (Z.to_nat count)
    (fst run) (sent (snd run)) /\
  tried (snd run) = tried w ++ [Gemini].
Proof.
  unfold PlainGateway.generateWithGemini, bind, enter.
  set (w1 := {| sent := sent w; tried := tried w ++ [Gemini] |}).
  split.
  - apply (loop_allOrNothing network _ Spec.geminiImages
             (PlainGateway.geminiLoop network prompt apiKey)
             (fun _ _ => eq_refl)
             (plain_geminiLoop_S network prompt apiKey)
             (Z.to_nat count) [] w1).
  - apply (loop_tried network _ Spec.geminiImages
             (PlainGateway.geminiLoop network prompt apiKey)
             (fun _ _ => eq_refl)
             (plain_geminiLoop_S network prompt apiKey)).
Qed.

Lemma plain_generateWithOpenAI_attempt prompt apiKey count w :
  let run := PlainGateway.generateWithOpenAI network prompt apiKey count w in
  Spec.allOrNothing network (OpenAIImages apiKey "dall-e-3" prompt)
    Spec.openAIImages (sent w) (Z.to_nat count)
    (fst run) (sent (snd run)) /\
  tried (snd run) = tried w ++ [OpenAIDalle].
Proof.
  unfold PlainGateway.generateWithOpenAI, bind, enter.
  set (w1 := {| sent := sent w; tried := tried w ++ [OpenAIDalle] |}).
  split.
  - apply (loop_allOrNothing network _ Spec.openAIImages
             (PlainGateway.openAILoop network prompt apiKey)
             (fun _ _ => eq_refl)
             (plain_openAILoop_S network prompt apiKey)
             (Z.to_nat count) [] w1).
  - apply (loop_tried network _ Spec.openAIImages
             (PlainGateway.openAILoop network prompt apiKey)
             (fun _ _ => eq_refl)
             (plain_openAILoop_S network prompt apiKey)).
Qed.

Lemma reference_generateWithGemini_attempt prompt apiKey count w :
  let run := ReferenceGateway.generateWithGemini network prompt apiKey count w in
  Spec.allOrNothing network
    (GeminiGenerate apiKey ("Generate an image: " +:+ prompt))
    Spec.geminiImages (sent w) (Z.to_nat count)
    (fst run) (sent (snd run)) /\
  tried (snd run) = tried w ++ [Gemini].
Proof.
  unfold ReferenceGateway.generateWithGemini, bind, enter.
  set (w1 := {| sent := sent w; tried := tried w ++ [Gemini] |}).
  split.
  - apply (loop_allOrNothing network _ Spec.geminiImages
             (ReferenceGateway.geminiLoop network prompt apiKey)
             (fun _ _ => eq_refl)
             (reference_geminiLoop_S network prompt apiKey)
             (Z.to_nat count) [] w1).
  - apply (loop_tried network _ Spec.geminiImages
             (ReferenceGateway.geminiLoop network prompt apiKey)
             (fun _ _ => eq_refl)
             (reference_geminiLoop_S network prompt apiKey)).
Qed.

Lemma reference_generateWithOpenAI_attempt prompt apiKey count w :
  let run := ReferenceGateway.generateWithOpenAI network prompt apiKey count w in
  Spec.allOrNothing network (OpenAIImages apiKey "dall-e-3" prompt)
    Spec.openAIImages (sent w) (Z.to_nat count)
    (fst run) (sent (snd run)) /\
  tried (snd run) = tried w ++ [OpenAIDalle].
Proof.
  unfold ReferenceGateway.generateWithOpenAI, bind, enter.
  set (w1 := {| sent := sent w; tried := tried w ++ [OpenAIDalle] |}).
  split.
  - apply (loop_allOrNothing network _ Spec.openAIImages
             (ReferenceGateway.openAILoop network prompt apiKey)
             (fun _ _ => eq_refl)
             (reference_openAILoop_S network prompt apiKey)
             (Z.to_nat count) [] w1).
  - apply (loop_tried network _ Spec.openAIImages
             (ReferenceGateway.openAILoop network prompt apiKey)
             (fun _ _ => eq_refl)
             (reference_openAILoop_S network prompt apiKey)).
Qed.

End ProviderAttempts.

(** ** Generation gateway: provider selection *)

Section HandlerFacts.
Import Net.
Variable network : list Request -> Request -> FetchResult.

Lemma visionLoop_tried prompt apiKey refs n images w :
  tried (snd (ReferenceGateway.visionLoop network prompt apiKey refs n
                images w)) = tried w.
Proof.
  revert images w. induction n as [|n IH]; intros images w; [done|].
  cbn [ReferenceGateway.visionLoop]. unfold bind, fetch.
  destruct (network (sent w) _) as [|response]; [done|].
  destruct (negb (ok response)); [done|].
  destruct (json response) as [data|]; [|done].
  destruct (Js.truthy (first_b64_json data)); [by rewrite IH|].
  destruct (Js.truthy (first_url data)); by rewrite IH.
Qed.

Lemma generateWithOpenAIVision_tried prompt apiKey count refs w :
  tried (snd (ReferenceGateway.generateWithOpenAIVision network prompt apiKey
                count refs w)) = tried w ++ [OpenAIVision].
Proof.
  unfold ReferenceGateway.generateWithOpenAIVision, bind, enter.
  by rewrite visionLoop_tried.
Qed.

(** The reference images handed to [generateWithOpenAIVision] do not
    reach the requests it sends, nor its result. *)
Lemma generateWithOpenAIVision_ignores_references prompt apiKey count refs w :
  ReferenceGateway.generateWithOpenAIVision network prompt apiKey count refs w
  = ReferenceGateway.generateWithOpenAIVision network prompt apiKey count [] w.
Proof.
  unfold ReferenceGateway.generateWithOpenAIVision, bind, enter.
  generalize (@nil string) at 1 3.
  generalize {| sent := sent w; tried := tried w ++ [OpenAIVision] |}.
  induction (Z.to_nat count) as [|n IH]; intros w1 images; [done|].
  cbn [ReferenceGateway.visionLoop]. unfold bind, fetch.
  destruct (network (sent w1) _) as [|response]; [done|].
  destruct (negb (ok response)); [done|].
  destruct (json response) as [data|]; [|done].
  destruct (Js.truthy (first_b64_json data)); [by rewrite IH|].
  destruct (Js.truthy (first_url data)); by rewrite IH.
Qed.

(** The provider steps of the gateway without reference images: Gemini
    when its key is configured, then DALL-E when Gemini was not tried or
    failed and the OpenAI key is configured. *)
Lemma plain_handler_tried env request :
  tried (snd (PlainGateway.handler network env request start)) ∈
    [ []; [Gemini]; [Gemini; OpenAIDalle]; [OpenAIDalle] ].
Proof.
  unfold PlainGateway.handler, PlainGateway.respond, ret.
  destruct (negb (String.eqb _ _)); [repeat constructor|].
  destruct (negb _ && negb _); [repeat constructor|].
  destruct (body request) as [b|]; [|repeat constructor].
  destruct (negb (Js.truthy (prompt b))); [repeat constructor|].
  destruct (Js.truthy (GEMINI_API_KEY env)).
  - unfold bind at 1.
    destruct (PlainGateway.generateWithGemini _ _ _ _ _) as [r1 w1] eqn:E1.
    pose proof (plain_generateWithGemini_attempt network
                  (default "" (prompt b)) (default "" (GEMINI_API_KEY env))
                  (Z.min (default 1%Z (count b)) 4) start) as [_ Ht1].
    rewrite E1 in Ht1. cbn [snd start tried app] in Ht1.
    destruct (success r1); [cbn [snd]; rewrite Ht1; repeat constructor|].
    destruct (Js.truthy (OPENAI_API_KEY env));
      [|cbn [snd]; rewrite Ht1; repeat constructor].
    unfold bind.
    destruct (PlainGateway.generateWithOpenAI _ _ _ _ _) as [r2 w2] eqn:E2.
    pose proof (plain_generateWithOpenAI_attempt network
                  (default "" (prompt b)) (default "" (OPENAI_API_KEY env))
                  (Z.min (default 1%Z (count b)) 4) w1) as [_ Ht2].
    rewrite E2, Ht1 in Ht2. cbn [snd app] in Ht2.
    cbn [snd]. rewrite Ht2. repeat constructor.
  - destruct (Js.truthy (OPENAI_API_KEY env)); [|repeat constructor].
    unfold bind.
    destruct (PlainGateway.generateWithOpenAI _ _ _ _ _) as [r2 w2] eqn:E2.
    pose proof (plain_generateWithOpenAI_attempt network
                  (default "" (prompt b)) (default "" (OPENAI_API_KEY env))
                  (Z.min (default 1%Z (count b)) 4) start) as [_ Ht2].
    rewrite E2 in Ht2. cbn [snd start tried app] in Ht2.
    cbn [snd]. rewrite Ht2. repeat constructor.
Qed.

(** Steps 2 and 3 of the gateway with reference images, entered after
    the steps [before]. *)
Lemma reference_steps23_tried env b w before :
  tried w = before ->
  tried (snd (
    (if Js.truthy (GEMINI_API_KEY env)
        && (length (default [] (referenceImages b)) =? 0)
     then
       do result <- ReferenceGateway.generateWithGemini network
                      (default "" (prompt b))
                      (default "" (GEMINI_API_KEY env))
                      (Z.min (default 1%Z (count b)) 4);
       if success result
       then ReferenceGateway.respond 200 (Result result)
       else
         if Js.truthy (OPENAI_API_KEY env)
         then
           do result <- ReferenceGateway.generateWithOpenAI network
                          (default "" (prompt b))
                          (default "" (OPENAI_API_KEY env))
                          (Z.min (default 1%Z (count b)) 4);
           ReferenceGateway.respond (if success result then 200 else 400)
                                    (Result result)
         else ReferenceGateway.respond 500 (ErrorOnly "Image generation failed")
     else
       if Js.truthy (OPENAI_API_KEY env)
       then
         do result <- ReferenceGateway.generateWithOpenAI network
                        (default "" (prompt b))
                        (default "" (OPENAI_API_KEY env))
                        (Z.min (default 1%Z (count b)) 4);
         ReferenceGateway.respond (if success result then 200 else 400)
                                  (Result result)
       else ReferenceGateway.respond 500 (ErrorOnly "Image generation failed"))
    w)) ∈
    [ before; before ++ [Gemini]; before ++ [Gemini; OpenAIDalle];
      before ++ [OpenAIDalle] ].
Proof.
  intros Hw. unfold ReferenceGateway.respond, ret.
  destruct (Js.truthy (GEMINI_API_KEY env) && _).
  - unfold bind at 1.
    destruct (ReferenceGateway.generateWithGemini _ _ _ _ _) as [r1 w1] eqn:E1.
    pose proof (reference_generateWithGemini_attempt network
                  (default "" (prompt b)) (default "" (GEMINI_API_KEY env))
                  (Z.min (default 1%Z (count b)) 4) w) as [_ Ht1].
    rewrite E1, Hw in Ht1. cbn [snd] in Ht1.
    destruct (success r1); [cbn [snd]; rewrite Ht1; repeat constructor|].
    destruct (Js.truthy (OPENAI_API_KEY env));
      [|cbn [snd]; rewrite Ht1; repeat constructor].
    unfold bind.
    destruct (ReferenceGateway.generateWithOpenAI _ _ _ _ _) as [r2 w2] eqn:E2.
    pose proof (reference_generateWithOpenAI_attempt network
                  (default "" (prompt b)) (default "" (OPENAI_API_KEY env))
                  (Z.min (default 1%Z (count b)) 4) w1) as [_ Ht2].
    rewrite E2, Ht1, <- app_assoc in Ht2. cbn [snd] in Ht2.
    cbn [snd]. rewrite Ht2. repeat constructor.
  - destruct (Js.truthy (OPENAI_API_KEY env));
      [|cbn [snd]; rewrite Hw; repeat constructor].
    unfold bind.
    destruct (ReferenceGateway.generateWithOpenAI _ _ _ _ _) as [r2 w2] eqn:E2.
    pose proof (reference_generateWithOpenAI_attempt network
                  (default "" (prompt b)) (default "" (OPENAI_API_KEY env))
                  (Z.min (default 1%Z (count b)) 4) w) as [_ Ht2].
    rewrite E2, Hw in Ht2. cbn [snd] in Ht2.
    cbn [snd]. rewrite Ht2. repeat constructor.
Qed.

End HandlerFacts.

Section GatewayTheorems.
Import Net.
Variable network : list Request -> Request -> FetchResult.

Lemma steps_extend (steps before : list Provider) :
  steps ∈ [ before; before ++ [Gemini]; before ++ [Gemini; OpenAIDalle];
            before ++ [OpenAIDalle] ] ->
  exists rest, steps = before ++ rest /\ OpenAIVision ∉ rest.
Proof.
  rewrite !elem_of_cons, elem_of_nil.
  intros [H|[H|[H|[H|[]]]]]; subst steps;
    [exists []; rewrite app_nil_r|eexists..];
    (split; [done|]);
    repeat (apply not_elem_of_cons; split; [done|]); apply not_elem_of_nil.
Qed.

(** C1, as amended: the gateway that accepts reference images enters
    step 1 (GPT-Image-1, called with the reference images) before any
    other provider step for every request that has a prompt and at least
    one reference image while the OpenAI credential is configured, and when
    step 1 fails it goes on to step 3 (DALL-E) only; it never enters step 1
    for a request without reference images; the gateway without
    reference-image support never enters step 1. *)
Theorem gateway_step1_selection (env : Env) (b : Body) :
  (Js.truthy (prompt b) = true ->
   default [] (referenceImages b) <> [] ->
   Js.truthy (OPENAI_API_KEY env) = true ->
   let step1 :=
     ReferenceGateway.generateWithOpenAIVision network
       (default "" (prompt b)) (default "" (OPENAI_API_KEY env))
       (Z.min (default 1%Z (count b)) 4) (default [] (referenceImages b))
       start in
   tried (snd (ReferenceGateway.handler network env (Spec.post (Some b))
                 start)) =
     OpenAIVision :: (if success (fst step1) then [] else [OpenAIDalle])) /\
  (default [] (referenceImages b) = [] ->
   OpenAIVision ∉
     tried (snd (ReferenceGateway.handler network env (Spec.post (Some b))
                   start))) /\
  OpenAIVision ∉
    tried (snd (PlainGateway.handler network env (Spec.post (Some b)) start)).
Proof.
  split_and!.
  - intros Hprompt Hrefs Hkey step1.
    unfold ReferenceGateway.handler, Spec.post. cbn [method body].
    rewrite String.eqb_refl, Hkey, Hprompt. cbn [negb andb]. cbv zeta.
    assert ((0 <? length (default [] (referenceImages b))) = true) as ->.
    { by destruct (default [] (referenceImages b)). }
    assert ((length (default [] (referenceImages b)) =? 0) = false) as ->.
    { by destruct (default [] (referenceImages b)). }
    rewrite andb_false_r. cbn [andb]. unfold bind at 1. fold step1.
    pose proof (generateWithOpenAIVision_tried network
                  (default "" (prompt b)) (default "" (OPENAI_API_KEY env))
                  (Z.min (default 1%Z (count b)) 4)
                  (default [] (referenceImages b)) start) as Ht1.
    fold step1 in Ht1. cbn [start tried app] in Ht1.
    destruct step1 as [r1 w1]. cbn [fst snd] in *.
    destruct (success r1); [done|].
    unfold bind, ReferenceGateway.respond, ret.
    pose proof (reference_generateWithOpenAI_attempt network
                  (default "" (prompt b)) (default "" (OPENAI_API_KEY env))
                  (Z.min (default 1%Z (count b)) 4) w1) as [_ Ht2].
    destruct (ReferenceGateway.generateWithOpenAI _ _ _ _ _) as [r2 w2].
    cbn [snd] in *. by rewrite Ht2, Ht1.
  - intros Hrefs.
    unfold ReferenceGateway.handler, Spec.post. cbn [method body].
    rewrite String.eqb_refl. cbn [negb]. cbv zeta.
    destruct (negb _ && negb _); [apply not_elem_of_nil|].
    destruct (negb (Js.truthy (prompt b))); [apply not_elem_of_nil|].
    assert ((0 <? length (default [] (referenceImages b))) = false) as ->
      by (by rewrite Hrefs).
    cbn [andb].
    pose proof (reference_steps23_tried network env b start [] eq_refl) as Hin.
    by apply steps_extend in Hin as (rest & -> & ?).
  - pose proof (plain_handler_tried network env (Spec.post (Some b))) as Hin.
    by apply (steps_extend _ []) in Hin as (rest & -> & ?).
Qed.

(** C4, as amended: one provider attempt sends its single-image requests
    one after the other; when a request fails (the fetch throws, the status
    is not 2xx, or the body of a 2xx answer does not parse) the attempt
    stops, reports a failure and returns none of the images collected so
    far; otherwise all the requests are sent and the result is made of the
    images of the answers that carry one, so that a successful attempt
    holds at least one image and at most the requested count. When the
    Gemini attempt fails and the OpenAI key is configured, the gateway
    answers with the result of a new attempt of the whole count by
    DALL-E. *)
Theorem provider_attempt_all_or_nothing (prompt apiKey : string)
    (count : Z) (w : World) :
  (let run := PlainGateway.generateWithGemini network prompt apiKey count w in
   Spec.allOrNothing network
     (GeminiGenerate apiKey ("Generate an image: " +:+ prompt))
     Spec.geminiImages (sent w) (Z.to_nat count)
     (fst run) (sent (snd run)) /\
   Spec.someImages (Z.to_nat count) (fst run)) /\
  (let run := PlainGateway.generateWithOpenAI network prompt apiKey count w in
   Spec.allOrNothing network (OpenAIImages apiKey "dall-e-3" prompt)
     Spec.openAIImages (sent w) (Z.to_nat count)
     (fst run) (sent (snd run)) /\
   Spec.someImages (Z.to_nat count) (fst run)) /\
  (let run := ReferenceGateway.generateWithGemini network prompt apiKey count w in
   Spec.allOrNothing network
     (GeminiGenerate apiKey ("Generate an image: " +:+ prompt))
     Spec.geminiImages (sent w) (Z.to_nat count)
     (fst run) (sent (snd run)) /\
   Spec.someImages (Z.to_nat count) (fst run)) /\
  (let run := ReferenceGateway.generateWithOpenAI network prompt apiKey count w in
   Spec.allOrNothing network (OpenAIImages apiKey "dall-e-3" prompt)
     Spec.openAIImages (sent w) (Z.to_nat count)
     (fst run) (sent (snd run)) /\
   Spec.someImages (Z.to_nat count) (fst run)) /\
  (forall env b,
     Js.truthy (GEMINI_API_KEY env) = true ->
     Js.truthy (OPENAI_API_KEY env) = true ->
     Net.prompt b = Some prompt -> Js.nonempty prompt = true ->
     Net.count b = Some count ->
     let first := PlainGateway.generateWithGemini network prompt
                    (default "" (GEMINI_API_KEY env)) (Z.min count 4) w in
     let second := PlainGateway.generateWithOpenAI network prompt
                     (default "" (OPENAI_API_KEY env)) (Z.min count 4)
                     (snd first) in
     success (fst first) = false ->
     PlainGateway.handler network env (Spec.post (Some b)) w =
       ({| code := if success (fst second) then 200 else 400;
           answer := Result (fst second) |}, snd second)).
Proof.
  split_and!.
  - pose proof (plain_generateWithGemini_attempt network prompt apiKey count w)
      as [H _].
    split; [done|]. eapply allOrNothing_someImages; [|done].
    apply geminiImages_length.
  - pose proof (plain_generateWithOpenAI_attempt network prompt apiKey count w)
      as [H _].
    split; [done|]. eapply allOrNothing_someImages; [|done].
    apply openAIImages_length.
  - pose proof (reference_generateWithGemini_attempt network prompt apiKey
                  count w) as [H _].
    split; [done|]. eapply allOrNothing_someImages; [|done].
    apply geminiImages_length.
  - pose proof (reference_generateWithOpenAI_attempt network prompt apiKey
                  count w) as [H _].
    split; [done|]. eapply allOrNothing_someImages; [|done].
    apply openAIImages_length.
  - intros env b Hg Ho Hp Hne Hc first second Hfail.
    unfold PlainGateway.handler, Spec.post. cbn [method body].
    rewrite String.eqb_refl, Hg, Ho, Hp, Hc. cbn [Js.truthy from_option id].
    rewrite Hne. cbn [negb andb]. cbv zeta. unfold bind at 1.
    fold first. destruct first as [r1 w1] eqn:E1. cbn [fst snd] in *.
    rewrite Hfail. unfold bind, PlainGateway.respond, ret.
    subst second. by destruct (PlainGateway.generateWithOpenAI _ _ _ _ _).
Qed.

(** A request that is not a POST is turned away before anything else,
    by both gateways, and nothing is sent. *)
Lemma handler_other_methods (env : Env) (request : HttpRequest) (w : World) :
  method request <> "POST" ->
  PlainGateway.handler network env request w =
    ({| code := 405; answer := ErrorOnly "Method not allowed" |}, w) /\
  ReferenceGateway.handler network env request w =
    ({| code := 405; answer := ErrorOnly "Method not allowed" |}, w).
Proof.
  intros Hm%String.eqb_neq.
  unfold PlainGateway.handler, ReferenceGateway.handler. by rewrite Hm.
Qed.

(** C6, as amended: when neither provider credential is configured,
    every POST request, whatever its body, is answered at once with the
    error [No API key configured], which the client classifies as a
    misconfiguration; a request with another method is answered with
    [Method not allowed]; in both cases nothing is sent to any provider and
    no provider step is entered: the world is left as it was. *)
Theorem no_credentials_not_configured (env : Env) (request : HttpRequest)
    (w : World) :
  Js.truthy (GEMINI_API_KEY env) = false ->
  Js.truthy (OPENAI_API_KEY env) = false ->
  (method request = "POST" ->
   PlainGateway.handler network env request w =
     ({| code := 500; answer := ErrorOnly "No API key configured" |}, w) /\
   ReferenceGateway.handler network env request w =
     ({| code := 500; answer := ErrorOnly "No API key configured" |}, w)) /\
  (method request <> "POST" ->
   PlainGateway.handler network env request w =
     ({| code := 405; answer := ErrorOnly "Method not allowed" |}, w) /\
   ReferenceGateway.handler network env request w =
     ({| code := 405; answer := ErrorOnly "Method not allowed" |}, w)) /\
  Client.friendlyError "No API key configured" =
    "Oops! Something's not set up right. Ask Uncle Gavin! 🔧".
Proof.
  intros Hg Ho. split_and!.
  - intros Hm. unfold PlainGateway.handler, ReferenceGateway.handler.
    by rewrite Hm, String.eqb_refl, Hg, Ho.
  - apply handler_other_methods.
  - by vm_compute.
Qed.

End GatewayTheorems.

(** C1, as stated, fails on the gateway without reference-image support:
    a request with a reference image, with both credentials configured, is
    served by Gemini, and with the OpenAI credential alone by DALL-E; step 1
    is not entered. *)
Lemma plain_gateway_skips_step1 :
  let run := PlainGateway.handler Sample.happyNetwork Sample.bothKeys
               (Spec.post (Some Sample.withReference)) Net.start in
  let openaiOnly := {| Net.GEMINI_API_KEY := None;
                       Net.OPENAI_API_KEY := Some "sk-key" |} in
  let run' := PlainGateway.handler Sample.happyNetwork openaiOnly
                (Spec.post (Some Sample.withReference)) Net.start in
  Js.truthy (Net.OPENAI_API_KEY Sample.bothKeys) = true /\
  default [] (Net.referenceImages Sample.withReference) <> [] /\
  Net.tried (snd run) = [Net.Gemini] /\
  Net.tried (snd run') = [Net.OpenAIDalle] /\
  ~ (exists rest, Net.tried (snd run) = Net.OpenAIVision :: rest) /\
  ~ (exists rest, Net.tried (snd run') = Net.OpenAIVision :: rest).
Proof.
  split_and!; try (by vm_compute); by intros [rest Heq].
Qed.

Lemma gateway_step1_selection_witness :
  Net.tried (snd (ReferenceGateway.handler Sample.happyNetwork Sample.bothKeys
                    (Spec.post (Some Sample.withReference)) Net.start))
    = [Net.OpenAIVision].
Proof.
  apply (proj1 (gateway_step1_selection Sample.happyNetwork Sample.bothKeys
                  Sample.withReference)); [reflexivity|done|reflexivity].
Defined.

Lemma provider_attempt_all_or_nothing_witness :
  let run := PlainGateway.handler Sample.flakyNetwork Sample.bothKeys
               (Spec.post (Some Sample.fourImages)) Net.start in
  Net.code (fst run) = 200 /\
  Net.tried (snd run) = [Net.Gemini; Net.OpenAIDalle] /\
  length (Net.sent (snd run)) = 7.
Proof.
  intros run. subst run.
  rewrite (proj2 (proj2 (proj2 (proj2
             (provider_attempt_all_or_nothing Sample.flakyNetwork
                "two friends in a meadow" "" 4 Net.start))))
             Sample.bothKeys Sample.fourImages
             eq_refl eq_refl eq_refl eq_refl eq_refl eq_refl).
  by vm_compute.
Defined.

Lemma no_credentials_not_configured_witness :
  PlainGateway.handler Sample.happyNetwork Sample.noKeys
    (Spec.post (Some Sample.withReference)) Net.start =
  ({| Net.code := 500; Net.answer := Net.ErrorOnly "No API key configured" |},
   Net.start).
Proof.
  exact (proj1 (proj1 (no_credentials_not_configured Sample.happyNetwork
                         Sample.noKeys (Spec.post (Some Sample.withReference))
                         Net.start eq_refl eq_refl) eq_refl)).
Defined.

(** C6, as stated, fails for a request that is not a POST: with no
    credential configured, a GET is answered with [Method not allowed],
    which the client does not classify as a misconfiguration. *)
Lemma no_credentials_other_method :
  let request := {| Net.method := "GET"; Net.body := None |} in
  Js.truthy (Net.GEMINI_API_KEY Sample.noKeys) = false /\
  Js.truthy (Net.OPENAI_API_KEY Sample.noKeys) = false /\
  PlainGateway.handler Sample.happyNetwork Sample.noKeys request Net.start =
    ({| Net.code := 405; Net.answer := Net.ErrorOnly "Method not allowed" |},
     Net.start) /\
  ReferenceGateway.handler Sample.happyNetwork Sample.noKeys request Net.start =
    ({| Net.code := 405; Net.answer := Net.ErrorOnly "Method not allowed" |},
     Net.start) /\
  Client.friendlyError "Method not allowed" <>
    Client.friendlyError "No API key configured".
Proof. split_and!; by vm_compute. Qed.

(** C4, as stated, fails when an answer has status 2xx and no image data:
    the attempt goes on, and a successful result holds fewer images than
    were requested. *)
Lemma provider_attempt_partial_set :
  let image := "data:image/png;base64,QUJD" in
  let gemini := PlainGateway.generateWithGemini Sample.skippingNetwork
                  "two friends in a meadow" "gemini-key" 3 Net.start in
  let openai := PlainGateway.generateWithOpenAI Sample.skippingNetwork
                  "two friends in a meadow" "sk-key" 3 Net.start in
  fst gemini = {| Net.success := true; Net.images := Some [image; image];
                  Net.error := None |} /\
  length (Net.sent (snd gemini)) = 3 /\
  ~ Spec.allImages 3 (fst gemini) /\
  fst openai = {| Net.success := true; Net.images := Some [image; image];
                  Net.error := None |} /\
  length (Net.sent (snd openai)) = 3 /\
  ~ Spec.allImages 3 (fst openai).
Proof.
  split_and!; try (by vm_compute);
    intros H; destruct (H eq_refl) as (imgs & Himgs & Hlen);
    vm_compute in Himgs; by simplify_eq.
Qed.

(** ** Export and import *)

Section DatabaseFacts.
Import Database.

Lemma keyed_lookup {A} (key : A -> string) (m : gmap string A) k a :
  keyed key m -> m !! k = Some a -> key a = k.
Proof. intros H. by apply (map_Forall_lookup_1 _ _ _ _ H). Qed.

(** The key-path invariant is kept by every operation on the store. *)
Lemma wellFormed_empty : wellFormed emptyStore.
Proof. split; apply map_Forall_empty. Qed.

Lemma wellFormed_saveAnimal a db : wellFormed db -> wellFormed (saveAnimal a db).
Proof. intros [Ha Hs]. split; [|done]. by apply map_Forall_insert_2. Qed.

Lemma wellFormed_saveScene s db : wellFormed db -> wellFormed (saveScene s db).
Proof. intros [Ha Hs]. split; [done|]. by apply map_Forall_insert_2. Qed.

Lemma wellFormed_deleteAnimal id db :
  wellFormed db -> wellFormed (deleteAnimal id db).
Proof. intros [Ha Hs]. split; [|done]. by apply map_Forall_delete. Qed.

Lemma wellFormed_deleteScene id db :
  wellFormed db -> wellFormed (deleteScene id db).
Proof. intros [Ha Hs]. split; [done|]. by apply map_Forall_delete. Qed.

Lemma wellFormed_saveSettings s db :
  wellFormed db -> wellFormed (saveSettings s db).
Proof. by intros [Ha Hs]. Qed.

Lemma keyed_putAll {A} (key : A -> string) xs (m : gmap string A) :
  keyed key m -> keyed key (putAll key xs m).
Proof.
  revert m. induction xs as [|x xs IH]; intros m Hm; [done|].
  apply IH. by apply map_Forall_insert_2.
Qed.

Lemma wellFormed_importAllData data db :
  wellFormed db -> wellFormed (importAllData data db).
Proof. intros [Ha Hs]. split; by apply keyed_putAll. Qed.

(** [putAll] on records with other keys leaves a key as it was. *)
Lemma putAll_lookup_other {A} (key : A -> string) xs (m : gmap string A) k :
  (forall x, x ∈ xs -> key x <> k) -> putAll key xs m !! k = m !! k.
Proof.
  revert m. induction xs as [|x xs IH]; intros m Hk; [done|].
  cbn [putAll foldl]. fold (putAll key xs (<[key x:=x]> m)). rewrite IH.
  - apply lookup_insert_ne. apply Hk. by left.
  - intros y Hy. apply Hk. by right.
Qed.

(** [putAll] of records with distinct keys files each under its key. *)
Lemma putAll_lookup_elem {A} (key : A -> string) xs (m : gmap string A) a :
  NoDup (key <$> xs) -> a ∈ xs -> putAll key xs m !! key a = Some a.
Proof.
  revert m. induction xs as [|x xs IH]; intros m Hnd Hin.
  - by apply not_elem_of_nil in Hin.
  - rewrite fmap_cons in Hnd. apply NoDup_cons in Hnd as [Hx Hnd].
    cbn [putAll foldl]. fold (putAll key xs (<[key x:=x]> m)).
    apply elem_of_cons in Hin as [->|Hin]; [|by apply IH].
    rewrite putAll_lookup_other; [apply lookup_insert_eq|].
    intros y Hy Heq. apply Hx. rewrite <- Heq. by apply list_elem_of_fmap_2.
Qed.

Lemma values_keys {A} (key : A -> string) (m : gmap string A) :
  keyed key m -> key <$> (map snd (map_to_list m)) = (map_to_list m).*1.
Proof.
  intros Hm. change (map snd (map_to_list m)) with ((map_to_list m).*2).
  rewrite <- list_fmap_compose. apply list_fmap_ext.
  intros i [k a] Hi. simpl.
  apply (keyed_lookup key m); [done|].
  apply elem_of_map_to_list. by eapply list_elem_of_lookup_2.
Qed.

(** Putting back, in any order, the records of a store with key path
    [key] rebuilds the store. *)
Lemma putAll_values {A} (key : A -> string) (m : gmap string A) xs :
  keyed key m -> xs ≡ₚ map snd (map_to_list m) -> putAll key xs ∅ = m.
Proof.
  intros Hm Hperm. apply map_eq. intros k.
  assert (NoDup (key <$> xs)) as Hnd.
  { rewrite Hperm, values_keys by done. apply NoDup_fst_map_to_list. }
  destruct (m !! k) as [a|] eqn:Hk.
  - rewrite <- (keyed_lookup key m k a Hm Hk).
    apply putAll_lookup_elem; [done|]. rewrite Hperm.
    change (a ∈ (map_to_list m).*2).
    apply list_elem_of_fmap. exists (k, a). split; [done|].
    by apply elem_of_map_to_list.
  - rewrite putAll_lookup_other; [done|].
    intros x Hx Heq. rewrite Hperm in Hx.
    change (x ∈ (map_to_list m).*2) in Hx.
    apply list_elem_of_fmap in Hx as ([k' a] & -> & Hin).
    apply elem_of_map_to_list in Hin.
    simpl in Heq. rewrite (keyed_lookup key m k' a Hm Hin) in Heq. congruence.
Qed.

Lemma getAllFromIndex_perm {A} (createdAt : A -> Z) (key : A -> string)
    (m : gmap string A) :
  reverse (getAllFromIndex createdAt key m) ≡ₚ map snd (map_to_list m).
Proof.
  unfold getAllFromIndex. rewrite reverse_Permutation.
  apply merge_sort_Permutation.
Qed.

(** C8: importing the exported document of a store into an empty store
    gives back the same characters and the same scenes; the exported
    settings carry no credential; and an import, of any document into any
    store, leaves the stored credential as it was. *)
Theorem export_import_roundtrip (now : string) (db : Store) :
  wellFormed db ->
  let doc := exportAllData now db in
  let db' := importAllData doc emptyStore in
  animals db' = animals db /\
  scenes db' = scenes db /\
  getAllAnimals db' = getAllAnimals db /\
  getAllScenes db' = getAllScenes db /\
  Settings.openaiApiKey (export_settings doc) = None /\
  (forall data other,
     Settings.openaiApiKey (getSettings (importAllData data other)) =
     Settings.openaiApiKey (getSettings other)).
Proof.
  intros [Ha Hs] doc db'.
  assert (animals db' = animals db) as Hanimals.
  { apply putAll_values; [done|]. apply getAllFromIndex_perm. }
  assert (scenes db' = scenes db) as Hscenes.
  { apply putAll_values; [done|]. apply getAllFromIndex_perm. }
  split_and!; try done.
  - unfold getAllAnimals. by rewrite Hanimals.
  - unfold getAllScenes. by rewrite Hscenes.
  - intros data other. unfold importAllData, saveSettings, getSettings.
    cbn [settings]. by rewrite lookup_insert_eq.
Qed.

Lemma export_import_roundtrip_witness :
  wellFormed Sample.store /\
  animals (importAllData (exportAllData "2024-12-25T08:00:00.000Z" Sample.store)
                         emptyStore) = animals Sample.store /\
  scenes (importAllData (exportAllData "2024-12-25T08:00:00.000Z" Sample.store)
                        emptyStore) = scenes Sample.store.
Proof.
  assert (wellFormed Sample.store) as Hwf.
  { apply (bool_decide_unpack (wellFormed Sample.store)). by vm_compute. }
  split; [exact Hwf|].
  pose proof (export_import_roundtrip "2024-12-25T08:00:00.000Z" Sample.store
                Hwf) as (Hanimals & Hscenes & _).
  by split.
Defined.

(** The exported document of the sample store: newest first, no
    credential. *)
Example export_sample :
  let doc := exportAllData "2024-12-25T08:00:00.000Z" Sample.store in
  export_animals doc = [Sample.dot; Sample.moo; Sample.star] /\
  export_scenes doc = [Sample.picnic] /\
  Settings.openaiApiKey (getSettings Sample.store) = Some "sk-secret" /\
  Settings.openaiApiKey (export_settings doc) = None.
Proof. by vm_compute. Qed.

End DatabaseFacts.

(** * Further properties *)

(** ** Content filter: decision, messages, validators *)

Section ContentFilterMore.
Import ContentFilter.
Context {U : Js.Unicode}.

Lemma mildlyNegative_lower term :
  term ∈ mildlyNegative ->
  Js.isAscii term = true /\ Js.lowerAscii term = term.
Proof.
  assert (Forall (fun t => Js.isAscii t = true /\ Js.lowerAscii t = t)
                 mildlyNegative) as H
    by (repeat constructor).
  rewrite Forall_forall in H. apply H.
Qed.

Lemma scanMild_Some text lowerText terms r :
  scanMild text lowerText terms = Some r ->
  r = {| isAllowed := true; friendlyMessage := Some reassuringMessage;
         cleanedText := Some text |} /\
  exists t, t ∈ terms /\ Js.includes lowerText t = true.
Proof.
  induction terms as [|term rest IH]; simpl; [done|].
  destruct (Js.includes lowerText term) eqn:Hinc.
  - intros [= <-]. split; [done|]. exists term. split; [by left|done].
  - intros H. destruct (IH H) as (-> & t & Ht & Hinc'). split; [done|].
    exists t. split; [by right|done].
Qed.

Lemma scanMild_None text lowerText terms :
  scanMild text lowerText terms = None <->
  forall t, t ∈ terms -> Js.includes lowerText t = false.
Proof.
  induction terms as [|term rest IH]; simpl.
  - split; [|done]. by intros _ t ?%not_elem_of_nil.
  - destruct (Js.includes lowerText term) eqn:Hinc.
    + split; [done|]. intros H. rewrite H in Hinc; [done|]. by left.
    + rewrite IH. split.
      * intros H t [->|?]%elem_of_cons; auto.
      * intros H t ?. apply H. by right.
Qed.

(** A text on which the first loop finds nothing: no blocked term matches
    it. *)
Lemma no_blocked_term text :
  scanBlocked (Js.toLowerCase text) false BLOCKED_TERMS = None ->
  forall term, term ∈ BLOCKED_TERMS -> ~ Spec.matches text term.
Proof.
  rewrite scanBlocked_None. intros Hscan term Hin Hocc.
  unfold Spec.matches in Hocc. rewrite Hscan in Hocc; done.
Qed.

(** X1: [checkContent] allows a text exactly when no blocked term matches
    it, that is, occurs in the text brought to lower case; so it allows no
    text that holds a blocked term in some casing, and on ASCII text it
    allows exactly the texts that hold no blocked term in any casing.  An
    allowed text comes back unchanged as [cleanedText], and a denied text
    comes back with a message and without [cleanedText]. *)
Theorem checkContent_allows_iff (text : string) (extraGentle : bool) :
  (isAllowed (checkContent text extraGentle) = true <->
   forall term, term ∈ BLOCKED_TERMS -> ~ Spec.matches text term) /\
  (isAllowed (checkContent text extraGentle) = true ->
   forall term, term ∈ BLOCKED_TERMS -> ~ Spec.containsIgnoreCase text term) /\
  (Js.isAscii text = true ->
   (isAllowed (checkContent text extraGentle) = true <->
    forall term, term ∈ BLOCKED_TERMS ->
                 ~ Spec.containsIgnoreCase text term)) /\
  (isAllowed (checkContent text extraGentle) = true ->
   cleanedText (checkContent text extraGentle) = Some text) /\
  (isAllowed (checkContent text extraGentle) = false ->
   cleanedText (checkContent text extraGentle) = None /\
   exists msg, friendlyMessage (checkContent text extraGentle) = Some msg).
Proof.
  assert (isAllowed (checkContent text extraGentle) = true <->
          forall term, term ∈ BLOCKED_TERMS -> ~ Spec.matches text term)
    as Hiff.
  { unfold checkContent, Spec.matches. cbv zeta.
    destruct (scanBlocked (Js.toLowerCase text) extraGentle BLOCKED_TERMS)
      as [r|] eqn:Hscan.
    - apply scanBlocked_Some in Hscan
        as (before & first & after & Heq & _ & Hfirst & ->).
      assert (first ∈ BLOCKED_TERMS) as Hin.
      { rewrite Heq. apply elem_of_app. right. by left. }
      destruct (blockedResult_denies extraGentle first) as [-> _].
      split; [done|]. intros Hnone. by destruct (Hnone first Hin).
    - rewrite scanBlocked_None in Hscan.
      assert (forall term, term ∈ BLOCKED_TERMS ->
                Js.includes (Js.toLowerCase text) term <> true) as Hnone.
      { intros term Hin Hocc. rewrite Hscan in Hocc; done. }
      destruct extraGentle; [|done].
      destruct (scanMild text (Js.toLowerCase text) mildlyNegative)
        as [r|] eqn:Hm; [|done].
      by apply scanMild_Some in Hm as [-> _]. }
  split_and!.
  - exact Hiff.
  - intros Hok term Hin Hocc. apply (proj1 Hiff Hok term Hin).
    by apply includes_toLowerCase;
      [apply BLOCKED_TERMS_ascii|apply BLOCKED_TERMS_lower|].
  - intros Htext. rewrite Hiff. unfold Spec.matches.
    split; intros Hnone term Hin Hocc; apply (Hnone term Hin).
    + by apply includes_toLowerCase;
        [apply BLOCKED_TERMS_ascii|apply BLOCKED_TERMS_lower|].
    + by apply (includes_toLowerCase_iff text term Htext);
        [apply BLOCKED_TERMS_lower|].
  - unfold checkContent. cbv zeta.
    destruct (scanBlocked (Js.toLowerCase text) extraGentle BLOCKED_TERMS)
      as [r|] eqn:Hscan.
    + apply scanBlocked_Some in Hscan as (? & first & ? & _ & _ & _ & ->).
      by destruct (blockedResult_denies extraGentle first) as [-> _].
    + destruct extraGentle; [|done].
      destruct (scanMild text (Js.toLowerCase text) mildlyNegative)
        as [r|] eqn:Hm; [|done].
      by apply scanMild_Some in Hm as [-> _].
  - unfold checkContent. cbv zeta.
    destruct (scanBlocked (Js.toLowerCase text) extraGentle BLOCKED_TERMS)
      as [r|] eqn:Hscan.
    + apply scanBlocked_Some in Hscan as (? & first & ? & _ & _ & _ & ->).
      intros _. split; [apply blockedResult_denies|].
      unfold blockedResult. destruct (_ && _); eauto.
    + destruct extraGentle; [|done].
      destruct (scanMild text (Js.toLowerCase text) mildlyNegative)
        as [r|] eqn:Hm; [|done].
      by apply scanMild_Some in Hm as [-> _].
Qed.

(** X2: on a text that no blocked term matches, the only effect of the
    extra-gentle flag is the reassuring message, attached exactly when one
    of the mildly negative terms matches the text, as it does when the
    text holds it in some casing; without the flag an allowed text carries
    no message. *)
Theorem checkContent_reassures_iff (text : string) :
  (forall term, term ∈ BLOCKED_TERMS -> ~ Spec.matches text term) ->
  friendlyMessage (checkContent text false) = None /\
  (forall term, term ∈ mildlyNegative ->
     Spec.containsIgnoreCase text term -> Spec.matches text term) /\
  ((exists term, term ∈ mildlyNegative /\ Spec.matches text term) ->
   checkContent text true =
     {| isAllowed := true; friendlyMessage := Some reassuringMessage;
        cleanedText := Some text |}) /\
  ((forall term, term ∈ mildlyNegative -> ~ Spec.matches text term) ->
   checkContent text true = checkContent text false).
Proof.
  intros Hnone.
  assert (forall g, scanBlocked (Js.toLowerCase text) g BLOCKED_TERMS = None)
    as Hscan.
  { intros g. apply scanBlocked_None. intros t Ht.
    destruct (Js.includes (Js.toLowerCase text) t) eqn:Hinc; [|done].
    by destruct (Hnone t Ht). }
  unfold checkContent, Spec.matches. cbv zeta. rewrite !Hscan.
  split_and!; [done| | |].
  - intros term Hin Hocc. destruct (mildlyNegative_lower term Hin).
    by apply includes_toLowerCase.
  - intros (term & Hin & Hocc).
    destruct (scanMild text (Js.toLowerCase text) mildlyNegative) as [r|] eqn:Hm.
    + by apply scanMild_Some in Hm as [-> _].
    + rewrite scanMild_None in Hm. rewrite Hm in Hocc; done.
  - intros Hmild.
    destruct (scanMild text (Js.toLowerCase text) mildlyNegative) as [r|] eqn:Hm;
      [|done].
    apply scanMild_Some in Hm as (_ & t & Ht & Hinc).
    by destruct (Hmild t Ht).
Qed.

End ContentFilterMore.

Lemma checkContent_reassures_iff_witness :
  ContentFilter.checkContent (U := Js.asciiOnly) "Lost in the Dark woods" true =
    {| ContentFilter.isAllowed := true;
       ContentFilter.friendlyMessage := Some ContentFilter.reassuringMessage;
       ContentFilter.cleanedText := Some "Lost in the Dark woods" |}.
Proof.
  assert (forall term, term ∈ ContentFilter.BLOCKED_TERMS ->
            ~ Spec.matches (U := Js.asciiOnly) "Lost in the Dark woods" term)
    as Hnone.
  { apply no_blocked_term. by vm_compute. }
  destruct (checkContent_reassures_iff (U := Js.asciiOnly)
              "Lost in the Dark woods" Hnone) as (_ & Hmatch & Hmild & _).
  apply Hmild. exists "lost". split; [by left|].
  apply Hmatch; [by left|].
  exists "", "Lost", " in the Dark woods". by split.
Defined.

(** ** Strings: [trim], [length], [includes] *)

Section JsMore.

Lemma strlen_app s t :
  Js.length (s +:+ t) = Js.length s + Js.length t.
Proof.
  induction s as [|c s IH]; [done|].
  rewrite sapp_cons. cbn [Js.length]. rewrite IH. lia.
Qed.

Lemma bytes_app s t :
  String.length (s +:+ t) = String.length s + String.length t.
Proof.
  induction s as [|c s IH]; [done|].
  rewrite sapp_cons. cbn [String.length]. by rewrite IH.
Qed.

Lemma nonempty_iff s : Js.nonempty s = true <-> s <> "".
Proof. by destruct s. Qed.

(** [trimStart] leaves the text as it is, or removes the encoding [w] of
    a white-space character from its start and goes on. *)
Lemma trimStart_cases s :
  Js.trimStart s = s \/
  exists w s', s = w +:+ s' /\ w <> "" /\
               forall u, Js.trimStart (w +:+ u) = Js.trimStart u.
Proof.
  destruct s as [|c1 s1]; [by left|].
  destruct (Js.is_space1 c1) eqn:H1.
  { right. exists (String c1 ""), s1. split_and!; [done..|].
    intros u. rewrite sapp_cons, sapp_nil_l. cbn [Js.trimStart].
    by rewrite H1. }
  destruct s1 as [|c2 s2]; [left; cbn [Js.trimStart]; by rewrite H1|].
  destruct (Js.is_space2 c1 c2) eqn:H2.
  { right. exists (String c1 (String c2 "")), s2. split_and!; [done..|].
    intros u. rewrite !sapp_cons, sapp_nil_l. cbn [Js.trimStart].
    by rewrite H1, H2. }
  destruct s2 as [|c3 s3]; [left; cbn [Js.trimStart]; by rewrite H1, H2|].
  destruct (Js.is_space3 c1 c2 c3) eqn:H3.
  { right. exists (String c1 (String c2 (String c3 ""))), s3.
    split_and!; [done..|].
    intros u. rewrite !sapp_cons, sapp_nil_l. cbn [Js.trimStart].
    by rewrite H1, H2, H3. }
  left. cbn [Js.trimStart]. by rewrite H1, H2, H3.
Qed.

(** Induction along [trimStart]. *)
Lemma trimStart_ind (P : string -> Prop) :
  (forall s, Js.trimStart s = s -> P s) ->
  (forall w s, w <> "" ->
     (forall u, Js.trimStart (w +:+ u) = Js.trimStart u) ->
     P s -> P (w +:+ s)) ->
  forall s, P s.
Proof.
  intros Hstop Hstep s.
  remember (String.length s) as n eqn:Hn. revert s Hn.
  induction n as [n IH] using lt_wf_ind. intros s ->.
  destruct (trimStart_cases s) as [Hs|(w & s' & -> & Hw & Hskip)];
    [by apply Hstop|].
  apply Hstep; [done..|]. apply (IH (String.length s')); [|done].
  rewrite bytes_app. destruct w; [done|]. cbn [String.length]. lia.
Qed.

Lemma trimStart_split s :
  exists pre, s = pre +:+ Js.trimStart s.
Proof.
  induction s as [s Hs|w s Hw Hskip [pre IH]] using trimStart_ind.
  - exists "". by rewrite Hs.
  - exists (w +:+ pre). by rewrite Hskip, sapp_assoc, <- IH.
Qed.

Lemma trimStart_idemp s : Js.trimStart (Js.trimStart s) = Js.trimStart s.
Proof.
  induction s as [s Hs|w s Hw Hskip IH] using trimStart_ind.
  - by rewrite !Hs.
  - by rewrite Hskip.
Qed.

(** White space at the start of a text goes away with what follows. *)
Lemma trimStart_blank p u :
  Js.trimStart p = "" -> Js.trimStart (p +:+ u) = Js.trimStart u.
Proof.
  induction p as [p Hp|w p Hw Hskip IH] using trimStart_ind.
  - intros Hblank. rewrite Hblank in Hp. by subst p.
  - rewrite Hskip. intros Hblank. rewrite sapp_assoc, Hskip. by apply IH.
Qed.

(** [trimEnd] cuts white space off the end. *)
Lemma trimEnd_split s :
  exists post, s = Js.trimEnd s +:+ post /\ Js.trimStart post = "".
Proof.
  induction s as [|c s (post & IH & Hpost)]; [by exists ""|].
  cbn [Js.trimEnd]. destruct (Js.nonempty (Js.trimStart (String c s))) eqn:Hne.
  - exists post. split; [|done]. by rewrite sapp_cons, <- IH.
  - exists (String c s). split; [done|].
    by destruct (Js.trimStart (String c s)).
Qed.

(** [trim] cuts a piece off each end of the string. *)
Lemma trim_split s :
  exists pre post, s = pre +:+ Js.trim s +:+ post.
Proof.
  destruct (trimStart_split s) as [pre Hpre].
  destruct (trimEnd_split (Js.trimStart s)) as (post & Hpost & _).
  exists pre, post. unfold Js.trim. by rewrite <- Hpost.
Qed.

Lemma trim_length s : Js.length (Js.trim s) <= Js.length s.
Proof.
  destruct (trim_split s) as (pre & post & Heq).
  rewrite Heq at 2. rewrite !strlen_app. lia.
Qed.

(** A text that is not white space only keeps something when it is cut
    at the end. *)
Lemma trimEnd_keeps s :
  Js.trimStart s <> "" -> Js.trimStart (Js.trimEnd s) <> "".
Proof.
  intros Hs Hblank. destruct (trimEnd_split s) as (post & Heq & Hpost).
  apply Hs. rewrite Heq. by rewrite trimStart_blank.
Qed.

Lemma trimEnd_idemp s : Js.trimEnd (Js.trimEnd s) = Js.trimEnd s.
Proof.
  induction s as [|c s IH]; [done|]. cbn [Js.trimEnd].
  destruct (Js.nonempty (Js.trimStart (String c s))) eqn:Hne; [|done].
  apply nonempty_iff in Hne. apply trimEnd_keeps in Hne.
  cbn [Js.trimEnd] in Hne.
  destruct (Js.nonempty (Js.trimStart (String c s))) eqn:Hne'.
  - apply nonempty_iff in Hne. cbn [Js.trimEnd]. by rewrite Hne, IH.
  - by cbn in Hne.
Qed.

(** A text that does not start with white space still does not when it
    is cut at the end. *)
Lemma trimStart_trimEnd t :
  Js.trimStart t = t -> Js.trimStart (Js.trimEnd t) = Js.trimEnd t.
Proof.
  intros Ht.
  destruct (trimStart_cases (Js.trimEnd t)) as [|(w & p & Heq & Hw & Hskip)];
    [done|].
  exfalso. destruct (trimEnd_split t) as (post & Hsplit & _).
  rewrite Heq, sapp_assoc in Hsplit.
  destruct (trimStart_split (p +:+ post)) as [pre Hpre].
  assert (String.length t = String.length (Js.trimStart (p +:+ post))) as Hlen.
  { rewrite <- Ht at 1. by rewrite Hsplit, Hskip. }
  rewrite Hsplit in Hlen at 1. rewrite bytes_app in Hlen.
  rewrite Hpre in Hlen at 1. rewrite bytes_app in Hlen.
  destruct w; [done|]. cbn [String.length] in Hlen. lia.
Qed.

(** Trimming twice is trimming once. *)
Lemma trim_idemp s : Js.trim (Js.trim s) = Js.trim s.
Proof.
  unfold Js.trim.
  rewrite (trimStart_trimEnd (Js.trimStart s) (trimStart_idemp s)).
  apply trimEnd_idemp.
Qed.

(** A term that occurs in a piece of a text occurs in the text. *)
Lemma containsIgnoreCase_piece pre s post term :
  Spec.containsIgnoreCase s term ->
  Spec.containsIgnoreCase (pre +:+ s +:+ post) term.
Proof.
  intros (a & mid & b & -> & Hmid).
  exists (pre +:+ a), mid, (b +:+ post). split; [|done].
  by rewrite !sapp_assoc.
Qed.

Lemma containsIgnoreCase_trim s term :
  Spec.containsIgnoreCase (Js.trim s) term -> Spec.containsIgnoreCase s term.
Proof.
  destruct (trim_split s) as (pre & post & Heq). intros H.
  rewrite Heq. by apply containsIgnoreCase_piece.
Qed.

(** A text that holds [t +:+ u] holds [t]. *)
Lemma includes_prefix_of_term s t u :
  Js.includes s (t +:+ u) = true -> Js.includes s t = true.
Proof.
  rewrite !includes_iff. intros (pre & post & ->).
  exists pre, (u +:+ post). by rewrite sapp_assoc.
Qed.

End JsMore.

(** ** Content filter: unreachable suggestion, validators *)

Section ContentFilterValidators.
Import ContentFilter.
Context {U : Js.Unicode}.

Lemma scanBlocked_app lowerText g l1 l2 :
  scanBlocked lowerText g (l1 ++ l2) =
  match scanBlocked lowerText g l1 with
  | Some r => Some r
  | None => scanBlocked lowerText g l2
  end.
Proof.
  induction l1 as [|t l1 IH]; [done|]. simpl.
  by destruct (Js.includes lowerText t).
Qed.

(** The terms of the blocklist other than "fighting": none of them makes
    [checkContent] offer "playing". *)
Lemma other_terms_never_playing :
  Forall (fun t => forall g,
            friendlyMessage (blockedResult g t) <>
            Some (alternativeMessage "fighting" "playing"))
         (take 14 BLOCKED_TERMS ++ drop 15 BLOCKED_TERMS).
Proof.
  apply Forall_forall. intros t Hin g.
  apply list_elem_of_In in Hin. vm_compute in Hin.
  repeat (destruct Hin as [<-|Hin]; [by destruct g; vm_compute|]).
  destruct Hin.
Qed.

(** X3: "fight" comes before "fighting" in the blocklist and occurs in
    every text in which "fighting" occurs, so the entry of "fighting" in
    the table of gentle alternatives is never used: [checkContent] never
    offers "playing". Each of the other six entries is used for the text
    made of its own key. *)
Theorem checkContent_never_suggests_playing :
  (forall text g,
     friendlyMessage (checkContent text g) <>
     Some (alternativeMessage "fighting" "playing")) /\
  GENTLE_ALTERNATIVES "fighting" = Some "playing" /\
  (forall key alternative,
     (key, alternative) ∈ GENTLE_ALTERNATIVES_entries -> key <> "fighting" ->
     friendlyMessage (checkContent key true) =
     Some (alternativeMessage key alternative)).
Proof.
  split_and!; [|done|].
  - intros text g. unfold checkContent. cbv zeta.
    pose proof other_terms_never_playing as Hothers.
    rewrite Forall_app, !Forall_forall in Hothers. destruct Hothers as [H1 H2].
    change BLOCKED_TERMS
      with (take 14 BLOCKED_TERMS ++ "fighting" :: drop 15 BLOCKED_TERMS).
    rewrite scanBlocked_app.
    destruct (scanBlocked _ g (take 14 BLOCKED_TERMS)) as [r|] eqn:E1.
    { apply scanBlocked_Some in E1 as (b & first & a & Heq & _ & _ & ->).
      apply H1. rewrite Heq. apply elem_of_app. right. by left. }
    rewrite scanBlocked_None in E1.
    assert (Js.includes (Js.toLowerCase text) "fighting" = false) as Hno.
    { destruct (Js.includes (Js.toLowerCase text) "fighting") eqn:Hinc; [|done].
      apply (includes_prefix_of_term _ "fight" "ing") in Hinc.
      rewrite E1 in Hinc; [done|]. apply list_elem_of_In. vm_compute. tauto. }
    cbn [scanBlocked]. rewrite Hno.
    destruct (scanBlocked _ g (drop 15 BLOCKED_TERMS)) as [r|] eqn:E2.
    { apply scanBlocked_Some in E2 as (b & first & a & Heq & _ & _ & ->).
      apply H2. rewrite Heq. apply elem_of_app. right. by left. }
    destruct g; [|done].
    destruct (scanMild text (Js.toLowerCase text) mildlyNegative) as [r|] eqn:Hm;
      [|done].
    apply scanMild_Some in Hm as [-> _]. by vm_compute.
  - intros key alternative Hin Hne.
    apply list_elem_of_In in Hin. vm_compute in Hin.
    repeat (destruct Hin as [[= <- <-]|Hin];
            [by rewrite checkContent_ascii by done; vm_compute|]).
    destruct Hin.
Qed.

(** Without the extra-gentle flag [checkContent] has two answers. *)
Lemma checkContent_plain text :
  ((forall term, term ∈ BLOCKED_TERMS -> ~ Spec.matches text term) /\
   checkContent text false =
     {| isAllowed := true; friendlyMessage := None;
        cleanedText := Some text |}) \/
  ((exists term, term ∈ BLOCKED_TERMS /\ Spec.matches text term) /\
   checkContent text false =
     {| isAllowed := false; friendlyMessage := Some genericMessage;
        cleanedText := None |}).
Proof.
  unfold checkContent. cbv zeta.
  destruct (scanBlocked (Js.toLowerCase text) false BLOCKED_TERMS)
    as [r|] eqn:Hscan.
  - right. apply scanBlocked_Some in Hscan
      as (before & first & after & Heq & _ & Hfirst & ->).
    split; [|done]. exists first. split; [|done].
    rewrite Heq. apply elem_of_app. right. by left.
  - left. split; [|done]. by apply no_blocked_term.
Qed.

(** The guard [!s || s.trim().length === 0] of the two validators. *)
Lemma blank_guard s :
  negb (Js.nonempty s) || (Js.length (Js.trim s) =? 0) = true <->
  Js.length (Js.trim s) = 0.
Proof.
  rewrite orb_true_iff, negb_true_iff, Nat.eqb_eq. split; [|by right].
  intros [Hs|Hs]; [|done]. by destruct s.
Qed.

(** X4: [validateAnimalName] accepts a name exactly when it is not blank
    (something is left of it once trimmed), has a length of at most 30 and
    no blocked term matches it; so it accepts no name that holds a blocked
    term in some casing.  A blank name gets the missing-name message and a
    longer name the too-long message, whatever they contain; an accepted
    name comes back unchanged and without message, and a name refused for
    its content gets the generic message, never a suggested replacement. *)
Theorem validateAnimalName_accepts_iff (name : string) :
  (isAllowed (validateAnimalName name) = true <->
   Js.length (Js.trim name) <> 0 /\ Js.length name <= 30 /\
   forall term, term ∈ BLOCKED_TERMS -> ~ Spec.matches name term) /\
  (isAllowed (validateAnimalName name) = true ->
   forall term, term ∈ BLOCKED_TERMS -> ~ Spec.containsIgnoreCase name term) /\
  (Js.length (Js.trim name) = 0 ->
   validateAnimalName name =
     {| isAllowed := false; friendlyMessage := Some nameMissingMessage;
        cleanedText := None |}) /\
  (Js.length (Js.trim name) <> 0 -> 30 < Js.length name ->
   validateAnimalName name =
     {| isAllowed := false; friendlyMessage := Some nameTooLongMessage;
        cleanedText := None |}) /\
  (isAllowed (validateAnimalName name) = true ->
   validateAnimalName name =
     {| isAllowed := true; friendlyMessage := None;
        cleanedText := Some name |}) /\
  (Js.length (Js.trim name) <> 0 -> Js.length name <= 30 ->
   isAllowed (validateAnimalName name) = false ->
   friendlyMessage (validateAnimalName name) = Some genericMessage).
Proof.
  assert (forall term, term ∈ BLOCKED_TERMS ->
            Spec.containsIgnoreCase name term -> Spec.matches name term)
    as Hcasing.
  { intros term Hin Hocc.
    by apply includes_toLowerCase;
      [apply BLOCKED_TERMS_ascii|apply BLOCKED_TERMS_lower|]. }
  unfold validateAnimalName.
  destruct (negb (Js.nonempty name) || (Js.length (Js.trim name) =? 0))
    eqn:Hblank.
  { apply blank_guard in Hblank. split_and!; try done.
    split; [done|]. by intros [? _]. }
  assert (Js.length (Js.trim name) <> 0) as Hne.
  { intros H. apply blank_guard in H. congruence. }
  destruct (30 <? Js.length name) eqn:Hlong.
  { apply Nat.ltb_lt in Hlong. split_and!; try done.
    - split; [done|]. intros (_ & ? & _). lia.
    - intros _ ?. lia. }
  apply Nat.ltb_ge in Hlong.
  destruct (checkContent_plain name) as [[Hnone ->]|[(term & Hin & Hocc) ->]];
    split_and!; try done.
  - intros _ term Hin Hocc. by apply (Hnone term Hin), Hcasing.
  - intros ? ?. lia.
  - split; [done|]. intros (_ & _ & Hnone). by destruct (Hnone term Hin).
  - intros ? ?. lia.
Qed.

(** A name of no-break spaces is blank, and a name of thirty accented
    letters, sixty bytes, is not too long, whatever the case mapping. *)
Example validateAnimalName_beyond_ascii :
  validateAnimalName (Sample.nbsp +:+ " " +:+ Sample.nbsp) =
    {| isAllowed := false; friendlyMessage := Some nameMissingMessage;
       cleanedText := None |} /\
  Js.length "éééééééééééééééééééééééééééééé" = 30 /\
  validateAnimalName "éééééééééééééééééééééééééééééé" =
    checkContent "éééééééééééééééééééééééééééééé" false /\
  Js.trim (Sample.nbsp +:+ "Star" +:+ Sample.nbsp) = "Star".
Proof. split_and!; by vm_compute. Qed.

(** X5: [validateSceneDescription] accepts a description exactly when it
    is not blank, has a length of at most 500 and no blocked term matches
    it; so it accepts no description that holds a blocked term in some
    casing.  The blank and the too-long description get their own messages;
    an accepted description comes back unchanged and without message, also
    when it holds a mildly negative term, and one refused for its content
    gets the generic message: the extra-gentle mode plays no part. *)
Theorem validateSceneDescription_accepts_iff (description : string) :
  (isAllowed (validateSceneDescription description) = true <->
   Js.length (Js.trim description) <> 0 /\ Js.length description <= 500 /\
   forall term, term ∈ BLOCKED_TERMS -> ~ Spec.matches description term) /\
  (isAllowed (validateSceneDescription description) = true ->
   forall term, term ∈ BLOCKED_TERMS ->
                ~ Spec.containsIgnoreCase description term) /\
  (Js.length (Js.trim description) = 0 ->
   validateSceneDescription description =
     {| isAllowed := false; friendlyMessage := Some descriptionMissingMessage;
        cleanedText := None |}) /\
  (Js.length (Js.trim description) <> 0 -> 500 < Js.length description ->
   validateSceneDescription description =
     {| isAllowed := false; friendlyMessage := Some descriptionTooLongMessage;
        cleanedText := None |}) /\
  (isAllowed (validateSceneDescription description) = true ->
   validateSceneDescription description =
     {| isAllowed := true; friendlyMessage := None;
        cleanedText := Some description |}) /\
  (Js.length (Js.trim description) <> 0 -> Js.length description <= 500 ->
   isAllowed (validateSceneDescription description) = false ->
   friendlyMessage (validateSceneDescription description) =
     Some genericMessage).
Proof.
  assert (forall term, term ∈ BLOCKED_TERMS ->
            Spec.containsIgnoreCase description term ->
            Spec.matches description term) as Hcasing.
  { intros term Hin Hocc.
    by apply includes_toLowerCase;
      [apply BLOCKED_TERMS_ascii|apply BLOCKED_TERMS_lower|]. }
  unfold validateSceneDescription.
  destruct (negb (Js.nonempty description)
            || (Js.length (Js.trim description) =? 0)) eqn:Hblank.
  { apply blank_guard in Hblank. split_and!; try done.
    split; [done|]. by intros [? _]. }
  assert (Js.length (Js.trim description) <> 0) as Hne.
  { intros H. apply blank_guard in H. congruence. }
  destruct (500 <? Js.length description) eqn:Hlong.
  { apply Nat.ltb_lt in Hlong. split_and!; try done.
    - split; [done|]. intros (_ & ? & _). lia.
    - intros _ ?. lia. }
  apply Nat.ltb_ge in Hlong.
  destruct (checkContent_plain description)
    as [[Hnone ->]|[(term & Hin & Hocc) ->]];
    split_and!; try done.
  - intros _ term Hin Hocc. by apply (Hnone term Hin), Hcasing.
  - intros ? ?. lia.
  - split; [done|]. intros (_ & _ & Hnone). by destruct (Hnone term Hin).
  - intros ? ?. lia.
Qed.

End ContentFilterValidators.

Lemma checkContent_never_suggests_playing_witness :
  ContentFilter.friendlyMessage
    (ContentFilter.checkContent (U := Js.asciiOnly) "They were fighting" true) =
    Some (ContentFilter.alternativeMessage "fight" "play") /\
  ContentFilter.friendlyMessage
    (ContentFilter.checkContent (U := Js.asciiOnly) "sad" true) =
    Some (ContentFilter.alternativeMessage "sad" "a little blue").
Proof.
  split; [by vm_compute|].
  apply (proj2 (proj2 (checkContent_never_suggests_playing
                         (U := Js.asciiOnly)))).
  - apply list_elem_of_In. vm_compute. tauto.
  - done.
Defined.

Lemma validateAnimalName_accepts_iff_witness :
  ContentFilter.validateAnimalName (U := Js.asciiOnly) "   " =
    {| ContentFilter.isAllowed := false;
       ContentFilter.friendlyMessage := Some ContentFilter.nameMissingMessage;
       ContentFilter.cleanedText := None |} /\
  ContentFilter.validateAnimalName (U := Js.asciiOnly)
    "Sir Gallops-a-Lot of the Meadow" =
    {| ContentFilter.isAllowed := false;
       ContentFilter.friendlyMessage := Some ContentFilter.nameTooLongMessage;
       ContentFilter.cleanedText := None |}.
Proof.
  split.
  - by apply (proj1 (proj2 (proj2 (validateAnimalName_accepts_iff
                                     (U := Js.asciiOnly) "   ")))).
  - apply (proj1 (proj2 (proj2 (proj2
             (validateAnimalName_accepts_iff
                (U := Js.asciiOnly) "Sir Gallops-a-Lot of the Meadow"))))).
    + by vm_compute.
    + vm_compute. lia.
Defined.

Lemma validateSceneDescription_accepts_iff_witness :
  ContentFilter.validateSceneDescription (U := Js.asciiOnly)
    "They got lost in the dark" =
    {| ContentFilter.isAllowed := true;
       ContentFilter.friendlyMessage := None;
       ContentFilter.cleanedText := Some "They got lost in the dark" |}.
Proof.
  apply (proj1 (proj2 (proj2 (proj2 (proj2
           (validateSceneDescription_accepts_iff
              (U := Js.asciiOnly) "They got lost in the dark")))))).
  by vm_compute.
Defined.

(** ** Prompt builder: framing and portrait colors *)

Section PromptBuilderMore.
Import PromptBuilder.
Context {U : Js.Unicode}.

Lemma startsWith_app s t : Js.startsWith (s +:+ t) s = true.
Proof. unfold Js.startsWith. apply prefix_iff. by exists t. Qed.

Lemma endsWith_app s t : Js.endsWith (s +:+ t) t = true.
Proof.
  induction s as [|c s IH].
  - destruct t; simpl; [done|]. by rewrite Ascii.eqb_refl, String.eqb_refl.
  - rewrite sapp_cons. cbn [Js.endsWith]. rewrite IH. apply orb_true_r.
Qed.

(** X6: whatever the characters, the location and the text typed by the
    user, the scene prompt and the portrait prompt begin with the art-style
    paragraph and end with the kid-safe suffix. *)
Theorem prompts_are_framed (animals : list Animal.t) (location : Location)
    (userDescription : string) (animal : Animal.t) :
  Js.startsWith (buildScenePrompt animals location userDescription)
                (ART_STYLE +:+ ".") = true /\
  Js.endsWith (buildScenePrompt animals location userDescription)
              buildKidSafePromptSuffix = true /\
  Js.startsWith (buildAnimalPortraitPrompt animal) (ART_STYLE +:+ ".") = true /\
  Js.endsWith (buildAnimalPortraitPrompt animal) buildKidSafePromptSuffix = true.
Proof.
  unfold buildScenePrompt, buildAnimalPortraitPrompt. cbv zeta. split_and!.
  - rewrite <- (sapp_assoc ART_STYLE "."). apply startsWith_app.
  - rewrite <- !sapp_assoc. apply endsWith_app.
  - rewrite <- (sapp_assoc ART_STYLE "."). apply startsWith_app.
  - rewrite <- !sapp_assoc. apply endsWith_app.
Qed.

(** X7: the color line of the portrait prompt is the full color text of
    the character: the primary color, then the secondary color and the
    markings when present; it is the text that the scene prompt puts in
    parentheses for a character without image. *)
Theorem portrait_color_line (animal : Animal.t) :
  (exists pre post,
     buildAnimalPortraitPrompt animal =
     pre +:+ "Color: " +:+ Spec.fullColorText (Animal.colors animal)
         +:+ "." +:+ post) /\
  (hasImage animal = false ->
   forall index, exists pre post,
     descriptor index animal =
     pre +:+ " (" +:+ Spec.fullColorText (Animal.colors animal)
         +:+ ")" +:+ post).
Proof.
  split.
  - unfold buildAnimalPortraitPrompt, Spec.fullColorText. cbv zeta.
    destruct (Animal.colors animal) as [p s m].
    cbn [primary secondary markings].
    eexists (ART_STYLE +:+ "." +:+ nl +:+ nl +:+ "A friendly portrait of " +:+
             Animal.name animal +:+ ", a " +:+
             Js.toLowerCase (Personality_str (Animal.personality animal)) +:+
             " " +:+ Js.toLowerCase (Species_str (Animal.species animal)) +:+
             "." +:+ nl +:+ nl),
            (nl +:+ nl +:+
             (if Js.truthy (Animal.specialThing animal)
              then "Special detail: " +:+
                   default "" (Animal.specialThing animal) +:+ "."
              else "") +:+ nl +:+ nl +:+
             "The animal should have a warm, friendly expression and be looking at the viewer." +:+ nl +:+
             "Centered composition with soft background." +:+ nl +:+ nl +:+
             buildKidSafePromptSuffix).
    destruct m as [[|c m]|]; destruct s as [|c' s];
      cbn [Js.truthy Js.nonempty default from_option id];
      rewrite ?sapp_assoc, ?sapp_nil_l, ?sapp_nil_r, ?sapp_assoc; reflexivity.
  - intros H index. rewrite (descriptor_without_image index animal H).
    unfold Spec.inlineColors. exists (Spec.who animal), (Spec.manner animal).
    by rewrite ?sapp_assoc.
Qed.

End PromptBuilderMore.

Lemma portrait_color_line_witness :
  exists pre post,
    PromptBuilder.descriptor (U := Js.asciiOnly) 1 Sample.moo =
    pre +:+ " (" +:+ Spec.fullColorText (Animal.colors Sample.moo)
        +:+ ")" +:+ post.
Proof.
  exact (proj2 (portrait_color_line (U := Js.asciiOnly) Sample.moo) eq_refl 1).
Defined.

(** ** Generation gateway: bounds, status codes, guards *)

Section GatewayMore.
Import Net.
Variable network : list Request -> Request -> FetchResult.

(** An attempt for [n] images sends at most [n] requests. *)
Lemma allOrNothing_sent_length req extract history n result sent' :
  Spec.allOrNothing network req extract history n result sent' ->
  length sent' <= length history + n.
Proof.
  intros [(j & Hj & _ & _ & _ & _ & ->)|(_ & _ & ->)];
    rewrite length_app, length_replicate; lia.
Qed.

(** An attempt ends in a failure without images or in a success with at
    least one image and at most one for each requested image. *)
Lemma attempt_shape req extract history n result sent' :
  (forall r, length (extract r) <= 1) ->
  Spec.allOrNothing network req extract history n result sent' ->
  (success result = false /\ images result = None) \/
  (exists img imgs, result = {| success := true; images := Some (img :: imgs);
                                error := None |} /\ S (length imgs) <= n).
Proof.
  intros Hone [(j & _ & _ & _ & Hs & Hi & _)|(_ & -> & _)]; [by left|].
  pose proof (flat_map_length_le
                (fun i => extract (Spec.answerAt network req history i))
                (seq 0 n) (fun i => Hone _)) as Hlen.
  rewrite length_seq in Hlen.
  fold (Spec.collected network req extract history n) in Hlen.
  destruct (Spec.collected network req extract history n) as [|img imgs];
    [by left|].
  right. exists img, imgs. split; [done|]. simpl in Hlen. lia.
Qed.

Lemma visionLoop_bounds prompt apiKey refs n images w :
  let run := ReferenceGateway.visionLoop network prompt apiKey refs n images w in
  length (sent (snd run)) <= length (sent w) + 2 * n /\
  ((success (fst run) = false /\ Net.images (fst run) = None) \/
   (exists imgs, fst run = finish imgs /\ length imgs <= length images + n)).
Proof.
  revert images w. induction n as [|n IH]; intros images w.
  - simpl. split; [lia|]. right. exists images. split; [done|lia].
  - cbn [ReferenceGateway.visionLoop]. unfold bind, fetch.
    destruct (network (sent w) _) as [|response];
      [simpl; rewrite length_app; simpl; split; [lia|by left]|].
    destruct (negb (ok response));
      [simpl; rewrite length_app; simpl; split; [lia|by left]|].
    destruct (json response) as [data|];
      [|simpl; rewrite length_app; simpl; split; [lia|by left]].
    assert (forall imgs w' k,
              length imgs <= length images + 1 ->
              length (sent w') <= length (sent w) + 2 ->
              k = ReferenceGateway.visionLoop network prompt apiKey refs n
                    imgs w' ->
              length (sent (snd k)) <= length (sent w) + 2 * S n /\
              ((success (fst k) = false /\ Net.images (fst k) = None) \/
               (exists imgs', fst k = finish imgs' /\
                              length imgs' <= length images + S n))) as Hstep.
    { intros imgs w' k Himgs Hw ->.
      destruct (IH imgs w') as [Hlen Hshape]. split; [lia|].
      destruct Hshape as [?|(imgs' & ? & Hl)]; [by left|].
      right. exists imgs'. split; [done|lia]. }
    destruct (Js.truthy (first_b64_json data)).
    { eapply Hstep; [| |reflexivity].
      - rewrite length_app. simpl. lia.
      - cbn [after sent]. rewrite length_app. simpl. lia. }
    destruct (Js.truthy (first_url data)).
    { eapply Hstep; [| |reflexivity].
      - rewrite length_app. simpl. lia.
      - cbn [after sent snd]. rewrite !length_app. simpl. lia. }
    eapply Hstep; [| |reflexivity].
    + lia.
    + cbn [after sent]. rewrite length_app. simpl. lia.
Qed.

Lemma attempted_of_allOrNothing p req extract n w run :
  (forall r, length (extract r) <= 1) ->
  Spec.allOrNothing network req extract (sent w) n (fst run) (sent (snd run)) ->
  tried (snd run) = tried w ++ [p] ->
  Spec.attempted p 1 n w run.
Proof.
  intros Hone Hrun Htried. split_and!; [done| |].
  - apply allOrNothing_sent_length in Hrun. lia.
  - by apply (attempt_shape _ _ _ _ _ _ Hone Hrun).
Qed.

Lemma plain_gemini_attempted prompt apiKey count w :
  Spec.attempted Gemini 1 (Z.to_nat count) w
    (PlainGateway.generateWithGemini network prompt apiKey count w).
Proof.
  destruct (plain_generateWithGemini_attempt network prompt apiKey count w).
  eapply attempted_of_allOrNothing; [apply geminiImages_length|done..].
Qed.

Lemma plain_openAI_attempted prompt apiKey count w :
  Spec.attempted OpenAIDalle 1 (Z.to_nat count) w
    (PlainGateway.generateWithOpenAI network prompt apiKey count w).
Proof.
  destruct (plain_generateWithOpenAI_attempt network prompt apiKey count w).
  eapply attempted_of_allOrNothing; [apply openAIImages_length|done..].
Qed.

Lemma reference_gemini_attempted prompt apiKey count w :
  Spec.attempted Gemini 1 (Z.to_nat count) w
    (ReferenceGateway.generateWithGemini network prompt apiKey count w).
Proof.
  destruct (reference_generateWithGemini_attempt network prompt apiKey count w).
  eapply attempted_of_allOrNothing; [apply geminiImages_length|done..].
Qed.

Lemma reference_openAI_attempted prompt apiKey count w :
  Spec.attempted OpenAIDalle 1 (Z.to_nat count) w
    (ReferenceGateway.generateWithOpenAI network prompt apiKey count w).
Proof.
  destruct (reference_generateWithOpenAI_attempt network prompt apiKey count w).
  eapply attempted_of_allOrNothing; [apply openAIImages_length|done..].
Qed.

Lemma reference_vision_attempted prompt apiKey count refs w :
  Spec.attempted OpenAIVision 2 (Z.to_nat count) w
    (ReferenceGateway.generateWithOpenAIVision network prompt apiKey count
       refs w).
Proof.
  split_and!.
  - apply generateWithOpenAIVision_tried.
  - unfold ReferenceGateway.generateWithOpenAIVision, bind, enter.
    apply (proj1 (visionLoop_bounds prompt apiKey refs (Z.to_nat count) []
                    {| sent := sent w; tried := tried w ++ [OpenAIVision] |})).
  - unfold ReferenceGateway.generateWithOpenAIVision, bind, enter.
    destruct (visionLoop_bounds prompt apiKey refs (Z.to_nat count) []
                {| sent := sent w; tried := tried w ++ [OpenAIVision] |})
      as [_ [?|(imgs & -> & Hl)]]; [by left|].
    destruct imgs as [|img imgs]; [by left|].
    right. exists img, imgs. split; [done|]. simpl in Hl. lia.
Qed.

(** The number of images a request asks the providers for. *)
Lemma clamp_le_4 (c : Z) : Z.to_nat (Z.min c 4) <= 4.
Proof. lia. Qed.

Lemma handled_error perImage n code msg w :
  sent w = [] -> code = 400 \/ code = 405 \/ code = 500 ->
  Spec.handled perImage n ({| code := code; answer := ErrorOnly msg |}, w).
Proof.
  intros Hw Hc. split; [simpl; rewrite Hw; simpl; lia|]. left. eauto.
Qed.

Lemma handled_error_after perImage n code msg w :
  length (sent w) <= perImage * n -> code = 400 \/ code = 405 \/ code = 500 ->
  Spec.handled perImage n ({| code := code; answer := ErrorOnly msg |}, w).
Proof. intros Hw Hc. split; [done|]. left. eauto. Qed.

Lemma handled_result perImage n r w :
  length (sent w) <= perImage * n -> Spec.outcome n r ->
  Spec.handled perImage n
    ({| code := if success r then 200 else 400; answer := Result r |}, w).
Proof. intros Hw Ho. split; [done|]. right. by exists r. Qed.

(** What the gateway without reference images does with a request: how
    much it sends, and how its status code goes with its answer. *)
Lemma plain_handler_summary env request :
  Spec.handled 2 (Spec.asked request)
    (PlainGateway.handler network env request start).
Proof.
  unfold PlainGateway.handler, PlainGateway.respond, ret, Spec.asked.
  destruct (negb (String.eqb _ _)); [apply handled_error; auto|].
  destruct (negb _ && negb _); [apply handled_error; auto|].
  destruct (body request) as [b|]; [|apply handled_error; auto].
  destruct (negb (Js.truthy (prompt b))); [apply handled_error; auto|].
  set (n := Z.to_nat (Z.min (default 1%Z (count b)) 4)).
  destruct (Js.truthy (GEMINI_API_KEY env)).
  - unfold bind at 1.
    pose proof (plain_gemini_attempted (default "" (prompt b))
                  (default "" (GEMINI_API_KEY env))
                  (Z.min (default 1%Z (count b)) 4) start) as (_ & Hs1 & Ho1).
    destruct (PlainGateway.generateWithGemini _ _ _ _ _) as [r1 w1].
    cbn [fst snd start sent length] in *. fold n in Hs1, Ho1.
    destruct (success r1) eqn:Hok1.
    { replace 200 with (if success r1 then 200 else 400) by (by rewrite Hok1).
      apply handled_result; [lia|done]. }
    destruct (Js.truthy (OPENAI_API_KEY env));
      [|apply handled_error_after; [lia|auto]].
    unfold bind.
    pose proof (plain_openAI_attempted (default "" (prompt b))
                  (default "" (OPENAI_API_KEY env))
                  (Z.min (default 1%Z (count b)) 4) w1) as (_ & Hs2 & Ho2).
    destruct (PlainGateway.generateWithOpenAI _ _ _ _ _) as [r2 w2].
    cbn [fst snd] in *. fold n in Hs2, Ho2.
    apply handled_result; [lia|done].
  - destruct (Js.truthy (OPENAI_API_KEY env)); [|apply handled_error; auto].
    unfold bind.
    pose proof (plain_openAI_attempted (default "" (prompt b))
                  (default "" (OPENAI_API_KEY env))
                  (Z.min (default 1%Z (count b)) 4) start) as (_ & Hs2 & Ho2).
    destruct (PlainGateway.generateWithOpenAI _ _ _ _ _) as [r2 w2].
    cbn [fst snd start sent length] in *. fold n in Hs2, Ho2.
    apply handled_result; [lia|done].
Qed.

(** Step 3 of the gateway with reference images, started after at most
    [2 * n] requests. *)
Lemma reference_step3_summary env b w :
  let n := Z.to_nat (Z.min (default 1%Z (count b)) 4) in
  length (sent w) <= 2 * n ->
  Spec.handled 3 n
    ((if Js.truthy (OPENAI_API_KEY env)
      then
        do result <- ReferenceGateway.generateWithOpenAI network
                       (default "" (prompt b))
                       (default "" (OPENAI_API_KEY env))
                       (Z.min (default 1%Z (count b)) 4);
        ReferenceGateway.respond (if success result then 200 else 400)
                                 (Result result)
      else ReferenceGateway.respond 500 (ErrorOnly "Image generation failed"))
       w).
Proof.
  intros n Hw. unfold ReferenceGateway.respond, ret.
  destruct (Js.truthy (OPENAI_API_KEY env));
    [|apply handled_error_after; [lia|auto]].
  unfold bind.
  pose proof (reference_openAI_attempted (default "" (prompt b))
                (default "" (OPENAI_API_KEY env))
                (Z.min (default 1%Z (count b)) 4) w) as (_ & Hs2 & Ho2).
  destruct (ReferenceGateway.generateWithOpenAI _ _ _ _ _) as [r2 w2].
  cbn [fst snd] in *. fold n in Hs2, Ho2.
  apply handled_result; [lia|done].
Qed.

(** The same for the gateway with reference images, whose first step may
    send two requests for an image. *)
Lemma reference_handler_summary env request :
  Spec.handled 3 (Spec.asked request)
    (ReferenceGateway.handler network env request start).
Proof.
  unfold ReferenceGateway.handler, Spec.asked.
  destruct (negb (String.eqb _ _)); [apply handled_error; auto|].
  destruct (negb _ && negb _); [apply handled_error; auto|].
  destruct (body request) as [b|]; [|apply handled_error; auto].
  destruct (negb (Js.truthy (prompt b))); [apply handled_error; auto|].
  set (n := Z.to_nat (Z.min (default 1%Z (count b)) 4)). cbv zeta.
  destruct ((0 <? length (default [] (referenceImages b)))
            && Js.truthy (OPENAI_API_KEY env)) eqn:Hstep1.
  - unfold bind at 1.
    pose proof (reference_vision_attempted (default "" (prompt b))
                  (default "" (OPENAI_API_KEY env))
                  (Z.min (default 1%Z (count b)) 4)
                  (default [] (referenceImages b)) start) as (_ & Hs1 & Ho1).
    destruct (ReferenceGateway.generateWithOpenAIVision _ _ _ _ _ _)
      as [r1 w1].
    cbn [fst snd start sent length] in *. fold n in Hs1, Ho1.
    destruct (success r1) eqn:Hok1.
    { unfold ReferenceGateway.respond, ret.
      replace 200 with (if success r1 then 200 else 400) by (by rewrite Hok1).
      apply handled_result; [lia|done]. }
    apply andb_true_iff in Hstep1 as [Hrefs _].
    assert ((length (default [] (referenceImages b)) =? 0) = false) as ->.
    { apply Nat.ltb_lt in Hrefs. apply Nat.eqb_neq. lia. }
    rewrite andb_false_r. apply reference_step3_summary. fold n. lia.
  - destruct (Js.truthy (GEMINI_API_KEY env)
              && (length (default [] (referenceImages b)) =? 0));
      [|apply reference_step3_summary; simpl; lia].
    unfold bind at 1.
    pose proof (reference_gemini_attempted (default "" (prompt b))
                  (default "" (GEMINI_API_KEY env))
                  (Z.min (default 1%Z (count b)) 4) start) as (_ & Hs1 & Ho1).
    destruct (ReferenceGateway.generateWithGemini _ _ _ _ _) as [r1 w1].
    cbn [fst snd start sent length] in *. fold n in Hs1, Ho1.
    destruct (success r1) eqn:Hok1.
    { unfold ReferenceGateway.respond, ret.
      replace 200 with (if success r1 then 200 else 400) by (by rewrite Hok1).
      apply handled_result; [lia|done]. }
    apply reference_step3_summary. fold n. lia.
Qed.

(** X8: a call of the gateway sends at most two requests for each image
    asked for when it has no reference-image step and at most three when it
    has one; the images asked for are the [count] of the body, one when
    [count] is absent, and never more than four, so a call sends at most 8,
    respectively 12, requests, and none at all when [count] is zero or
    negative. *)
Theorem gateway_request_bound (env : Env) (request : HttpRequest) :
  let plain := snd (PlainGateway.handler network env request start) in
  let reference := snd (ReferenceGateway.handler network env request start) in
  length (sent plain) <= 2 * Spec.asked request /\
  length (sent reference) <= 3 * Spec.asked request /\
  Spec.asked request <= 4 /\
  (forall b, body request = Some b -> count b = None ->
             Spec.asked request = 1) /\
  (forall b c, body request = Some b -> count b = Some c -> (c <= 0)%Z ->
               sent plain = [] /\ sent reference = []).
Proof.
  intros plain reference.
  destruct (plain_handler_summary env request) as [Hp _].
  destruct (reference_handler_summary env request) as [Hr _].
  fold plain in Hp. fold reference in Hr. split_and!; try done.
  - unfold Spec.asked. destruct (body request); lia.
  - intros b Hb Hc. unfold Spec.asked. by rewrite Hb, Hc.
  - intros b c Hb Hc Hle.
    assert (Spec.asked request = 0) as Hz.
    { unfold Spec.asked. rewrite Hb, Hc. simpl. lia. }
    rewrite Hz in Hp, Hr.
    split; apply length_zero_iff_nil; lia.
Qed.

(** X9: the status code of the gateway is 200 exactly when its answer is
    a successful result, and a successful result holds at least one image
    and at most four; every other answer has status 400, 405 or 500. *)
Theorem gateway_status_code (env : Env) (request : HttpRequest) :
  let plain := fst (PlainGateway.handler network env request start) in
  let reference := fst (ReferenceGateway.handler network env request start) in
  (code plain = 200 <->
   exists img imgs,
     answer plain = Result {| success := true; images := Some (img :: imgs);
                              error := None |} /\ S (length imgs) <= 4) /\
  (code reference = 200 <->
   exists img imgs,
     answer reference = Result {| success := true;
                                  images := Some (img :: imgs);
                                  error := None |} /\ S (length imgs) <= 4) /\
  (code plain = 200 \/ code plain = 400 \/ code plain = 405 \/
   code plain = 500) /\
  (code reference = 200 \/ code reference = 400 \/ code reference = 405 \/
   code reference = 500).
Proof.
  intros plain reference.
  assert (Spec.asked request <= 4) as Hn.
  { unfold Spec.asked. destruct (body request); lia. }
  assert (forall perImage run,
            Spec.handled perImage (Spec.asked request) run ->
            (code (fst run) = 200 <->
             exists img imgs,
               answer (fst run) =
                 Result {| success := true; images := Some (img :: imgs);
                           error := None |} /\ S (length imgs) <= 4) /\
            (code (fst run) = 200 \/ code (fst run) = 400 \/
             code (fst run) = 405 \/ code (fst run) = 500)) as Hgen.
  { intros perImage [response w] [_ H]. cbn [fst snd] in *.
    destruct H as [(msg & Ha & Hc)|(r & Ha & Ho & Hc)].
    - split; [|tauto]. split.
      + intros H200. destruct Hc as [?|[?|?]]; congruence.
      + intros (img & imgs & Ha' & _). congruence.
    - destruct Ho as [[Hs Hi]|(img & imgs & -> & Hl)].
      + rewrite Hs in Hc. split; [|tauto]. split; [congruence|].
        intros (img & imgs & Ha' & _). rewrite Ha in Ha'.
        injection Ha' as ->. done.
      + simpl in Hc. split; [|tauto]. split; [|done].
        intros _. exists img, imgs. split; [done|lia]. }
  destruct (Hgen 2 _ (plain_handler_summary env request)) as [H1 H2].
  destruct (Hgen 3 _ (reference_handler_summary env request)) as [H3 H4].
  by split_and!.
Qed.

End GatewayMore.

Lemma gateway_request_bound_witness :
  Net.sent (snd (PlainGateway.handler Sample.happyNetwork Sample.bothKeys
                   (Spec.post (Some {| Net.prompt := Some "a pony";
                                       Net.count := Some 0%Z;
                                       Net.referenceImages := None |}))
                   Net.start)) = [].
Proof.
  pose proof (gateway_request_bound Sample.happyNetwork Sample.bothKeys
                (Spec.post (Some {| Net.prompt := Some "a pony";
                                    Net.count := Some 0%Z;
                                    Net.referenceImages := None |})))
    as (_ & _ & _ & _ & H).
  apply (H {| Net.prompt := Some "a pony"; Net.count := Some 0%Z;
              Net.referenceImages := None |} 0%Z eq_refl eq_refl).
  lia.
Defined.


(** ** Generation gateway: credentials, fallbacks, reference images *)

Section GatewaySteps.
Import Net.
Variable network : list Request -> Request -> FetchResult.

(** Decide a goal [p ∉ l] on a list of distinct providers. *)
Ltac not_in :=
  repeat (apply not_elem_of_cons; split; [done|]); apply not_elem_of_nil.

Ltac credentialed_leaf :=
  split; [intros ?; first [congruence | not_in]
         |intros ?; first [congruence | split; not_in]].

(** X10: no provider is tried without its credential: the gateway enters
    the Gemini step only when the Gemini key is configured and the
    GPT-Image-1 and DALL-E steps only when the OpenAI key is configured;
    the gateway with reference images moreover never enters the Gemini
    step for a request that carries reference images. *)
Theorem gateway_uses_configured_providers (env : Env) (request : HttpRequest) :
  Spec.credentialed env
    (tried (snd (PlainGateway.handler network env request start))) /\
  Spec.credentialed env
    (tried (snd (ReferenceGateway.handler network env request start))) /\
  (forall b, body request = Some b ->
             default [] (referenceImages b) <> [] ->
             Gemini ∉ tried (snd (ReferenceGateway.handler network env request
                                    start))).
Proof.
  split_and!.
  - unfold PlainGateway.handler, PlainGateway.respond, ret.
    destruct (negb (String.eqb _ _)); [credentialed_leaf|].
    destruct (negb _ && negb _); [credentialed_leaf|].
    destruct (body request) as [b|]; [|credentialed_leaf].
    destruct (negb (Js.truthy (prompt b))); [credentialed_leaf|].
    destruct (Js.truthy (GEMINI_API_KEY env)) eqn:Hg.
    + unfold bind at 1.
      pose proof (plain_gemini_attempted network (default "" (prompt b))
                    (default "" (GEMINI_API_KEY env))
                    (Z.min (default 1%Z (count b)) 4) start) as (Ht1 & _).
      destruct (PlainGateway.generateWithGemini _ _ _ _ _) as [r1 w1].
      cbn [fst snd start tried app] in *.
      destruct (success r1); [cbn [snd]; rewrite Ht1; credentialed_leaf|].
      destruct (Js.truthy (OPENAI_API_KEY env)) eqn:Ho;
        [|cbn [snd]; rewrite Ht1; credentialed_leaf].
      unfold bind.
      pose proof (plain_openAI_attempted network (default "" (prompt b))
                    (default "" (OPENAI_API_KEY env))
                    (Z.min (default 1%Z (count b)) 4) w1) as (Ht2 & _).
      destruct (PlainGateway.generateWithOpenAI _ _ _ _ _) as [r2 w2].
      cbn [fst snd] in *. rewrite Ht2, Ht1. credentialed_leaf.
    + destruct (Js.truthy (OPENAI_API_KEY env)) eqn:Ho; [|credentialed_leaf].
      unfold bind.
      pose proof (plain_openAI_attempted network (default "" (prompt b))
                    (default "" (OPENAI_API_KEY env))
                    (Z.min (default 1%Z (count b)) 4) start) as (Ht2 & _).
      destruct (PlainGateway.generateWithOpenAI _ _ _ _ _) as [r2 w2].
      cbn [fst snd start tried app] in *. rewrite Ht2. credentialed_leaf.
  - unfold ReferenceGateway.handler.
    destruct (negb (String.eqb _ _)); [credentialed_leaf|].
    destruct (negb _ && negb _); [credentialed_leaf|].
    destruct (body request) as [b|]; [|credentialed_leaf].
    destruct (negb (Js.truthy (prompt b))); [credentialed_leaf|].
    cbv zeta.
    destruct ((0 <? length (default [] (referenceImages b)))
              && Js.truthy (OPENAI_API_KEY env)) eqn:Hstep1.
    + apply andb_true_iff in Hstep1 as [Hrefs Ho].
      unfold bind at 1.
      pose proof (generateWithOpenAIVision_tried network
                    (default "" (prompt b)) (default "" (OPENAI_API_KEY env))
                    (Z.min (default 1%Z (count b)) 4)
                    (default [] (referenceImages b)) start) as Ht1.
      destruct (ReferenceGateway.generateWithOpenAIVision _ _ _ _ _ _)
        as [r1 w1].
      cbn [fst snd start tried app] in *.
      destruct (success r1);
        [unfold ReferenceGateway.respond, ret; cbn [snd]; rewrite Ht1;
         credentialed_leaf|].
      assert ((length (default [] (referenceImages b)) =? 0) = false) as ->.
      { apply Nat.ltb_lt in Hrefs. apply Nat.eqb_neq. lia. }
      rewrite andb_false_r, Ho. unfold bind, ReferenceGateway.respond, ret.
      pose proof (reference_openAI_attempted network (default "" (prompt b))
                    (default "" (OPENAI_API_KEY env))
                    (Z.min (default 1%Z (count b)) 4) w1) as (Ht2 & _).
      destruct (ReferenceGateway.generateWithOpenAI _ _ _ _ _) as [r2 w2].
      cbn [fst snd] in *. rewrite Ht2, Ht1. credentialed_leaf.
    + clear Hstep1.
      destruct (Js.truthy (GEMINI_API_KEY env)) eqn:Hg; cbn [andb].
      * destruct (length (default [] (referenceImages b)) =? 0).
        -- unfold bind at 1.
           pose proof (reference_gemini_attempted network
                         (default "" (prompt b))
                         (default "" (GEMINI_API_KEY env))
                         (Z.min (default 1%Z (count b)) 4) start) as (Ht1 & _).
           destruct (ReferenceGateway.generateWithGemini _ _ _ _ _) as [r1 w1].
           cbn [fst snd start tried app] in *.
           unfold ReferenceGateway.respond, ret.
           destruct (success r1); [cbn [snd]; rewrite Ht1; credentialed_leaf|].
           destruct (Js.truthy (OPENAI_API_KEY env)) eqn:Ho;
             [|cbn [snd]; rewrite Ht1; credentialed_leaf].
           unfold bind.
           pose proof (reference_openAI_attempted network
                         (default "" (prompt b))
                         (default "" (OPENAI_API_KEY env))
                         (Z.min (default 1%Z (count b)) 4) w1) as (Ht2 & _).
           destruct (ReferenceGateway.generateWithOpenAI _ _ _ _ _) as [r2 w2].
           cbn [fst snd] in *. rewrite Ht2, Ht1. credentialed_leaf.
        -- unfold ReferenceGateway.respond, ret.
           destruct (Js.truthy (OPENAI_API_KEY env)) eqn:Ho;
             [|credentialed_leaf].
           unfold bind.
           pose proof (reference_openAI_attempted network
                         (default "" (prompt b))
                         (default "" (OPENAI_API_KEY env))
                         (Z.min (default 1%Z (count b)) 4) start) as (Ht2 & _).
           destruct (ReferenceGateway.generateWithOpenAI _ _ _ _ _) as [r2 w2].
           cbn [fst snd start tried app] in *. rewrite Ht2. credentialed_leaf.
      * unfold ReferenceGateway.respond, ret.
        destruct (Js.truthy (OPENAI_API_KEY env)) eqn:Ho; [|credentialed_leaf].
        unfold bind.
        pose proof (reference_openAI_attempted network
                      (default "" (prompt b))
                      (default "" (OPENAI_API_KEY env))
                      (Z.min (default 1%Z (count b)) 4) start) as (Ht2 & _).
        destruct (ReferenceGateway.generateWithOpenAI _ _ _ _ _) as [r2 w2].
        cbn [fst snd start tried app] in *. rewrite Ht2. credentialed_leaf.
  - intros b Hb Hrefs. unfold ReferenceGateway.handler. rewrite Hb.
    destruct (negb (String.eqb _ _)); [apply not_elem_of_nil|].
    destruct (negb _ && negb _); [apply not_elem_of_nil|].
    destruct (negb (Js.truthy (prompt b))); [apply not_elem_of_nil|].
    cbv zeta.
    assert ((length (default [] (referenceImages b)) =? 0) = false) as ->.
    { by destruct (default [] (referenceImages b)). }
    rewrite andb_false_r.
    assert (forall w, Gemini ∉ tried w ->
      Gemini ∉ tried (snd (
        (if Js.truthy (OPENAI_API_KEY env)
         then
           do result <- ReferenceGateway.generateWithOpenAI network
                          (default "" (prompt b))
                          (default "" (OPENAI_API_KEY env))
                          (Z.min (default 1%Z (count b)) 4);
           ReferenceGateway.respond (if success result then 200 else 400)
                                    (Result result)
         else ReferenceGateway.respond 500
                (ErrorOnly "Image generation failed")) w))) as H3.
    { intros w Hw. unfold ReferenceGateway.respond, ret.
      destruct (Js.truthy (OPENAI_API_KEY env)); [|done].
      unfold bind.
      pose proof (reference_openAI_attempted network (default "" (prompt b))
                    (default "" (OPENAI_API_KEY env))
                    (Z.min (default 1%Z (count b)) 4) w) as (Ht2 & _).
      destruct (ReferenceGateway.generateWithOpenAI _ _ _ _ _) as [r2 w2].
      cbn [fst snd] in *. rewrite Ht2. intros [?|?%list_elem_of_singleton]%elem_of_app;
        done. }
    destruct ((0 <? length (default [] (referenceImages b)))
              && Js.truthy (OPENAI_API_KEY env));
      [|apply H3, not_elem_of_nil].
    unfold bind at 1.
    pose proof (generateWithOpenAIVision_tried network
                  (default "" (prompt b)) (default "" (OPENAI_API_KEY env))
                  (Z.min (default 1%Z (count b)) 4)
                  (default [] (referenceImages b)) start) as Ht1.
    destruct (ReferenceGateway.generateWithOpenAIVision _ _ _ _ _ _)
      as [r1 w1].
    cbn [fst snd start tried app] in *.
    destruct (success r1).
    + unfold ReferenceGateway.respond, ret. cbn [snd]. rewrite Ht1. not_in.
    + apply H3. rewrite Ht1. not_in.
Qed.

(** X11: with the Gemini key alone, the gateway without reference
    images answers a failed Gemini attempt with status 500 and [Image
    generation failed], whatever error Gemini gave (rate limit, blocked
    content, connection): the error of the Gemini step is not passed on,
    and the client shows its generic message. *)
Theorem gemini_error_not_passed_on (env : Env) (b : Body) (w : World) :
  Js.truthy (GEMINI_API_KEY env) = true ->
  Js.truthy (OPENAI_API_KEY env) = false ->
  Js.truthy (prompt b) = true ->
  let first := PlainGateway.generateWithGemini network (default "" (prompt b))
                 (default "" (GEMINI_API_KEY env))
                 (Z.min (default 1%Z (count b)) 4) w in
  PlainGateway.handler network env (Spec.post (Some b)) w =
    (if success (fst first)
     then {| code := 200; answer := Result (fst first) |}
     else {| code := 500; answer := ErrorOnly "Image generation failed" |},
     snd first) /\
  Client.friendlyError "Image generation failed" =
    "Something went wrong. Let's try again! 🔄".
Proof.
  intros Hg Ho Hp first. split; [|by vm_compute].
  unfold PlainGateway.handler, Spec.post. cbn [method body].
  rewrite String.eqb_refl, Hg, Ho, Hp. cbn [negb andb]. cbv zeta.
  unfold bind at 1. fold first. destruct first as [r1 w1]. cbn [fst snd].
  unfold PlainGateway.respond, ret. by destruct (success r1).
Qed.

(** X12: with the Gemini key alone, the gateway with reference images
    serves no request that carries reference images: step 1 and step 3
    need the OpenAI key and step 2 is skipped because of the images, so the
    answer is status 500 with [Image generation failed] and nothing is
    sent. *)
Theorem references_need_openai_key (env : Env) (b : Body) (w : World) :
  Js.truthy (GEMINI_API_KEY env) = true ->
  Js.truthy (OPENAI_API_KEY env) = false ->
  Js.truthy (prompt b) = true ->
  default [] (referenceImages b) <> [] ->
  ReferenceGateway.handler network env (Spec.post (Some b)) w =
    ({| code := 500; answer := ErrorOnly "Image generation failed" |}, w).
Proof.
  intros Hg Ho Hp Hrefs.
  unfold ReferenceGateway.handler, Spec.post. cbn [method body].
  rewrite String.eqb_refl, Hg, Ho, Hp. cbn [negb andb]. cbv zeta.
  assert ((length (default [] (referenceImages b)) =? 0) = false) as ->.
  { by destruct (default [] (referenceImages b)). }
  by rewrite andb_false_r.
Qed.

(** X13: the gateway with reference images looks at whether a request
    carries reference images, not at the images: two requests with the same
    prompt and count that both carry images, or both carry none, are served
    by the same run, request for request. *)
Theorem reference_images_only_counted (env : Env) (b b' : Body) (w : World) :
  prompt b = prompt b' -> count b = count b' ->
  (default [] (referenceImages b) = [] <->
   default [] (referenceImages b') = []) ->
  ReferenceGateway.handler network env (Spec.post (Some b)) w =
  ReferenceGateway.handler network env (Spec.post (Some b')) w.
Proof.
  intros Hp Hc Hrefs.
  unfold ReferenceGateway.handler, Spec.post. cbn [method body].
  rewrite Hp, Hc.
  assert ((length (default [] (referenceImages b)) =? 0) =
          (length (default [] (referenceImages b')) =? 0)) as Hz.
  { destruct (default [] (referenceImages b)) as [|x l],
      (default [] (referenceImages b')) as [|x' l'];
      first [done | discriminate (proj1 Hrefs eq_refl)
            | discriminate (proj2 Hrefs eq_refl)]. }
  assert ((0 <? length (default [] (referenceImages b))) =
          (0 <? length (default [] (referenceImages b')))) as Hpos.
  { destruct (default [] (referenceImages b)) as [|x l],
      (default [] (referenceImages b')) as [|x' l'];
      first [done | discriminate (proj1 Hrefs eq_refl)
            | discriminate (proj2 Hrefs eq_refl)]. }
  cbv zeta. rewrite Hz, Hpos.
  destruct (negb (String.eqb "POST" "POST")); [done|].
  destruct (negb _ && negb _); [done|].
  destruct (negb (Js.truthy (prompt b'))); [done|].
  destruct ((0 <? length (default [] (referenceImages b')))
            && Js.truthy (OPENAI_API_KEY env)); [|done].
  assert (forall refs (k : GenResult -> M HttpResponse),
            (do r <- ReferenceGateway.generateWithOpenAIVision network
                       (default "" (prompt b'))
                       (default "" (OPENAI_API_KEY env))
                       (Z.min (default 1%Z (count b')) 4) refs;
             k r) w =
            (do r <- ReferenceGateway.generateWithOpenAIVision network
                       (default "" (prompt b'))
                       (default "" (OPENAI_API_KEY env))
                       (Z.min (default 1%Z (count b')) 4) [];
             k r) w) as Hext.
  { intros refs k. unfold bind.
    by rewrite (generateWithOpenAIVision_ignores_references network _ _ _ refs). }
  rewrite (Hext (default [] (referenceImages b))).
  by rewrite (Hext (default [] (referenceImages b'))).
Qed.

(** X14: once a credential is configured, both gateways check the request
    before any provider: a body that does not parse is answered with
    status 500 and [Server error], a body without prompt, or with the empty
    prompt, with status 400 and [Prompt is required]; nothing is sent and
    no provider step is entered. *)
Theorem gateway_checks_request_first (env : Env) (body : option Body)
    (w : World) :
  Js.truthy (GEMINI_API_KEY env) = true \/
  Js.truthy (OPENAI_API_KEY env) = true ->
  (body = None ->
   PlainGateway.handler network env (Spec.post body) w =
     ({| code := 500; answer := ErrorOnly "Server error" |}, w) /\
   ReferenceGateway.handler network env (Spec.post body) w =
     ({| code := 500; answer := ErrorOnly "Server error" |}, w)) /\
  (forall b, body = Some b -> Js.truthy (prompt b) = false ->
   PlainGateway.handler network env (Spec.post body) w =
     ({| code := 400; answer := ErrorOnly "Prompt is required" |}, w) /\
   ReferenceGateway.handler network env (Spec.post body) w =
     ({| code := 400; answer := ErrorOnly "Prompt is required" |}, w)).
Proof.
  intros Hkey.
  assert (negb (Js.truthy (GEMINI_API_KEY env))
          && negb (Js.truthy (OPENAI_API_KEY env)) = false) as Hk1.
  { destruct Hkey as [-> | ->]; [done|apply andb_false_r]. }
  assert (negb (Js.truthy (OPENAI_API_KEY env))
          && negb (Js.truthy (GEMINI_API_KEY env)) = false) as Hk2.
  { destruct Hkey as [-> | ->]; [apply andb_false_r|done]. }
  split.
  - intros ->. unfold PlainGateway.handler, ReferenceGateway.handler, Spec.post.
    cbn [method Net.body]. by rewrite String.eqb_refl, Hk1, Hk2.
  - intros b -> Hp.
    unfold PlainGateway.handler, ReferenceGateway.handler, Spec.post.
    cbn [method Net.body]. by rewrite String.eqb_refl, Hk1, Hk2, Hp.
Qed.

End GatewaySteps.

Lemma gateway_uses_configured_providers_witness :
  Net.tried (snd (ReferenceGateway.handler Sample.happyNetwork Sample.bothKeys
                    (Spec.post (Some Sample.withReference)) Net.start))
    = [Net.OpenAIVision] /\
  Net.Gemini ∉
    Net.tried (snd (ReferenceGateway.handler Sample.happyNetwork
                      Sample.bothKeys (Spec.post (Some Sample.withReference))
                      Net.start)).
Proof.
  split; [by vm_compute|].
  apply (proj2 (proj2 (gateway_uses_configured_providers Sample.happyNetwork
                         Sample.bothKeys
                         (Spec.post (Some Sample.withReference))))
           Sample.withReference eq_refl).
  by vm_compute.
Defined.

Lemma gemini_error_not_passed_on_witness :
  fst (PlainGateway.generateWithGemini Sample.busyNetwork
         "two friends in a meadow" "gemini-key" 2 Net.start) =
    Net.failed "Rate limited - try again in a moment" /\
  fst (PlainGateway.handler Sample.busyNetwork Sample.geminiOnly
         (Spec.post (Some Sample.withoutReference)) Net.start) =
    {| Net.code := 500; Net.answer := Net.ErrorOnly "Image generation failed" |}.
Proof.
  split; [by vm_compute|].
  rewrite (proj1 (gemini_error_not_passed_on Sample.busyNetwork
                    Sample.geminiOnly Sample.withoutReference Net.start
                    eq_refl eq_refl eq_refl)).
  by vm_compute.
Defined.

Lemma references_need_openai_key_witness :
  ReferenceGateway.handler Sample.happyNetwork Sample.geminiOnly
    (Spec.post (Some Sample.withReference)) Net.start =
  ({| Net.code := 500; Net.answer := Net.ErrorOnly "Image generation failed" |},
   Net.start).
Proof.
  by apply (references_need_openai_key Sample.happyNetwork Sample.geminiOnly
              Sample.withReference Net.start).
Defined.

Lemma reference_images_only_counted_witness :
  ReferenceGateway.handler Sample.happyNetwork Sample.bothKeys
    (Spec.post (Some Sample.withReference)) Net.start =
  ReferenceGateway.handler Sample.happyNetwork Sample.bothKeys
    (Spec.post (Some {| Net.prompt := Some "two friends in a meadow";
                        Net.count := Some 2%Z;
                        Net.referenceImages := Some ["another"; "image"] |}))
    Net.start.
Proof.
  by apply (reference_images_only_counted Sample.happyNetwork).
Defined.

Lemma gateway_checks_request_first_witness :
  PlainGateway.handler Sample.happyNetwork Sample.bothKeys
    (Spec.post (Some {| Net.prompt := Some ""; Net.count := None;
                        Net.referenceImages := None |})) Net.start =
  ({| Net.code := 400; Net.answer := Net.ErrorOnly "Prompt is required" |},
   Net.start).
Proof.
  apply (proj2 (gateway_checks_request_first Sample.happyNetwork
                  Sample.bothKeys _ Net.start (or_introl eq_refl))
           {| Net.prompt := Some ""; Net.count := None;
              Net.referenceImages := None |} eq_refl eq_refl).
Defined.


(** ** The client in front of the gateway *)

Section EndToEnd.
Import Net.
Variable network : list Request -> Request -> FetchResult.

(** X15: when neither credential is configured, [generateImages] fails
    with the message for a set-up problem, whichever gateway serves it and
    whatever prompt, count and reference images it is called with. *)
Theorem client_reports_missing_credentials (env : Env) (prompt : string)
    (settings : Settings.t) (count : Z)
    (referenceImages : option (list string)) :
  Js.truthy (GEMINI_API_KEY env) = false ->
  Js.truthy (OPENAI_API_KEY env) = false ->
  Client.generateImages
    (Deployment.serve (PlainGateway.handler network env))
    prompt settings count referenceImages =
    Client.failure "Oops! Something's not set up right. Ask Uncle Gavin! 🔧" /\
  Client.generateImages
    (Deployment.serve (ReferenceGateway.handler network env))
    prompt settings count referenceImages =
    Client.failure "Oops! Something's not set up right. Ask Uncle Gavin! 🔧".
Proof.
  intros Hg Ho.
  unfold Client.generateImages, Deployment.serve, Deployment.request,
    PlainGateway.handler, ReferenceGateway.handler.
  cbn [method]. rewrite String.eqb_refl, Hg, Ho. split; by vm_compute.
Qed.

(** X16: a successful [generateImages] served by either gateway returns
    at least one image and at most four, whatever count was asked for. *)
Theorem client_gets_one_to_four_images (env : Env) (prompt : string)
    (settings : Settings.t) (count : Z)
    (referenceImages : option (list string)) :
  let plain := Client.generateImages
                 (Deployment.serve (PlainGateway.handler network env))
                 prompt settings count referenceImages in
  let reference := Client.generateImages
                     (Deployment.serve (ReferenceGateway.handler network env))
                     prompt settings count referenceImages in
  (Client.success plain = true ->
   exists img imgs, Client.images plain = Some (img :: imgs) /\
                    S (length imgs) <= 4) /\
  (Client.success reference = true ->
   exists img imgs, Client.images reference = Some (img :: imgs) /\
                    S (length imgs) <= 4).
Proof.
  assert (forall perImage handler,
            (forall request,
               Spec.handled perImage (Spec.asked request)
                 (handler request start)) ->
            let result := Client.generateImages (Deployment.serve handler)
                            prompt settings count referenceImages in
            Client.success result = true ->
            exists img imgs, Client.images result = Some (img :: imgs) /\
                             S (length imgs) <= 4) as Hgen.
  { intros perImage handler Hh result. subst result.
    unfold Client.generateImages, Deployment.serve.
    set (request := Deployment.request _).
    assert (Spec.asked request <= 4) as Hn.
    { unfold Spec.asked. destruct (body request); lia. }
    destruct (Hh request) as [_ H].
    destruct (handler request start) as [response w]. cbn [fst snd] in *.
    destruct H as [(msg & -> & Hc)|(r & -> & Ho & ->)].
    - assert (Client.ok (code response) = false) as ->; [|done].
      by destruct Hc as [-> |[-> | ->]].
    - destruct Ho as [[-> Hi]|(img & imgs & -> & Hl)]; [done|].
      simpl. intros _. exists img, imgs. split; [done|lia]. }
  split.
  - apply (Hgen 2). apply plain_handler_summary.
  - apply (Hgen 3). apply reference_handler_summary.
Qed.

Lemma imageless_attempt req extract history n result sent' :
  Spec.imageless network ->
  (forall h response data,
     network h req = Responded response -> json response = Some data ->
     firstImagePart (candidate_parts data) = [] ->
     Js.truthy (first_b64_json data) = false ->
     extract (network h req) = []) ->
  Spec.allOrNothing network req extract history n result sent' ->
  result = failed "No images generated".
Proof.
  intros Hnet Hext [(j & _ & _ & Hfail & _)|(_ & -> & _)].
  - exfalso. unfold Spec.answerAt in Hfail.
    destruct (Hnet (history ++ replicate j req) req)
      as (response & data & Hr & Hok & Hj & _).
    rewrite Hr in Hfail. simpl in Hfail. by rewrite Hok, Hj in Hfail.
  - assert (Spec.collected network req extract history n = []) as ->; [|done].
    unfold Spec.collected. induction (seq 0 n) as [|i l IH]; [done|].
    cbn [flat_map]. rewrite IH, app_nil_r. unfold Spec.answerAt.
    destruct (Hnet (history ++ replicate i req) req)
      as (response & data & Hr & Hok & Hj & Hp & Hb).
    by apply (Hext _ response data).
Qed.

(** X17: when every provider answer has status 2xx and no image data and
    the OpenAI key is configured, the gateway without reference images
    answers with status 400 and [No images generated], and
    [generateImages] reports it with the rate-limit message: the error
    text holds "rate" inside "generated". *)
Theorem imageless_answers_read_as_rate_limit (env : Env) (prompt : string)
    (settings : Settings.t) (count : Z)
    (referenceImages : option (list string)) :
  Spec.imageless network ->
  Js.truthy (OPENAI_API_KEY env) = true ->
  Js.nonempty prompt = true ->
  fst (PlainGateway.handler network env
         (Deployment.request
            {| Client.body_prompt := prompt; Client.body_count := count;
               Client.body_referenceImages := default [] referenceImages |})
         start) =
    {| code := 400; answer := Result (failed "No images generated") |} /\
  Client.generateImages
    (Deployment.serve (PlainGateway.handler network env))
    prompt settings count referenceImages =
    Client.failure "Whoa, slow down! Wait a moment and try again ⏰".
Proof.
  intros Hnet Ho Hp.
  assert (forall apiKey c w,
            fst (PlainGateway.generateWithGemini network prompt apiKey c w) =
            failed "No images generated") as Hgem.
  { intros apiKey c w.
    destruct (plain_generateWithGemini_attempt network prompt apiKey c w)
      as [Hrun _].
    eapply imageless_attempt; [done| |exact Hrun].
    intros h response data Hr Hj Hparts _. rewrite Hr.
    destruct response as [st j b64]. simpl in Hj. subst j. done. }
  assert (forall apiKey c w,
            fst (PlainGateway.generateWithOpenAI network prompt apiKey c w) =
            failed "No images generated") as Hoai.
  { intros apiKey c w.
    destruct (plain_generateWithOpenAI_attempt network prompt apiKey c w)
      as [Hrun _].
    eapply imageless_attempt; [done| |exact Hrun].
    intros h response data Hr Hj _ Hb. rewrite Hr.
    destruct response as [st j b64]. simpl in Hj. subst j. simpl.
    destruct (first_b64_json data) as [s|]; [|done].
    simpl in Hb. by rewrite Hb. }
  assert (fst (PlainGateway.handler network env
                 (Deployment.request
                    {| Client.body_prompt := prompt;
                       Client.body_count := count;
                       Client.body_referenceImages :=
                         default [] referenceImages |}) start) =
          {| code := 400; answer := Result (failed "No images generated") |})
    as Hanswer.
  { unfold PlainGateway.handler, Deployment.request.
    cbn [method body Client.body_prompt Client.body_count
         Client.body_referenceImages Net.prompt Net.count].
    rewrite String.eqb_refl, Ho, andb_false_r.
    cbn [Js.truthy from_option id]. rewrite Hp. cbn [negb]. cbv zeta.
    assert (forall w,
              fst ((do result <- PlainGateway.generateWithOpenAI network prompt
                                   (default "" (OPENAI_API_KEY env))
                                   (Z.min count 4);
                    PlainGateway.respond (if success result then 200 else 400)
                                         (Result result)) w) =
              {| code := 400;
                 answer := Result (failed "No images generated") |}) as H2.
    { intros w. unfold bind, PlainGateway.respond, ret.
      specialize (Hoai (default "" (OPENAI_API_KEY env)) (Z.min count 4) w).
      destruct (PlainGateway.generateWithOpenAI _ _ _ _ _) as [r2 w2].
      simpl in Hoai. by subst r2. }
    destruct (Js.truthy (GEMINI_API_KEY env)); [|apply H2].
    unfold bind at 1.
    specialize (Hgem (default "" (GEMINI_API_KEY env)) (Z.min count 4) start).
    destruct (PlainGateway.generateWithGemini _ _ _ _ _) as [r1 w1].
    simpl in Hgem. subst r1. cbn [success failed]. apply H2. }
  split; [done|].
  unfold Client.generateImages, Deployment.serve. rewrite Hanswer.
  by vm_compute.
Qed.

End EndToEnd.

Lemma client_gets_one_to_four_images_witness :
  Client.generateImages
    (Deployment.serve (PlainGateway.handler Sample.happyNetwork Sample.bothKeys))
    "two friends in a meadow" Sample.settings 9 None =
  {| Client.success := true;
     Client.images := Some (replicate 4 "data:image/png;base64,QUJD");
     Client.error := None |} /\
  exists img imgs,
    Client.images
      (Client.generateImages
         (Deployment.serve
            (PlainGateway.handler Sample.happyNetwork Sample.bothKeys))
         "two friends in a meadow" Sample.settings 9 None)
      = Some (img :: imgs) /\ S (length imgs) <= 4.
Proof.
  split; [by vm_compute|].
  apply (proj1 (client_gets_one_to_four_images Sample.happyNetwork
                  Sample.bothKeys "two friends in a meadow" Sample.settings
                  9 None)).
  by vm_compute.
Defined.

Lemma client_reports_missing_credentials_witness :
  Client.generateImages
    (Deployment.serve (ReferenceGateway.handler Sample.happyNetwork
                         Sample.noKeys))
    "two friends in a meadow" Sample.settings 2 None =
  Client.failure "Oops! Something's not set up right. Ask Uncle Gavin! 🔧".
Proof.
  exact (proj2 (client_reports_missing_credentials Sample.happyNetwork
                  Sample.noKeys "two friends in a meadow" Sample.settings 2
                  None eq_refl eq_refl)).
Defined.

Lemma imageless_answers_read_as_rate_limit_witness :
  Client.generateImages
    (Deployment.serve (PlainGateway.handler Sample.textNetwork Sample.bothKeys))
    "two friends in a meadow" Sample.settings 2 None =
  Client.failure "Whoa, slow down! Wait a moment and try again ⏰".
Proof.
  apply (imageless_answers_read_as_rate_limit Sample.textNetwork
           Sample.bothKeys "two friends in a meadow" Sample.settings 2 None).
  - intros history req. eexists _, _. repeat split; reflexivity.
  - reflexivity.
  - reflexivity.
Defined.

(** ** The stores: listings, upserts, imports *)

Section IndexFacts.
Import Database.
Context {A : Type} (createdAt : A -> Z) (key : A -> string).

#[local] Instance byCreated_total : Total (byCreated createdAt key).
Proof.
  intros a b. unfold byCreated.
  destruct (Z.lt_trichotomy (createdAt a) (createdAt b)) as [H|[H|H]].
  - left. by left.
  - destruct (total String.le (key a) (key b)); [left|right]; right; by split.
  - right. by left.
Qed.

#[local] Instance byCreated_trans : Transitive (byCreated createdAt key).
Proof.
  intros a b c [H1|[H1 L1]] [H2|[H2 L2]]; unfold byCreated.
  - left. lia.
  - left. lia.
  - left. lia.
  - right. split; [lia|]. by transitivity (key b).
Qed.

Lemma StronglySorted_reverse {B} (R : relation B) (l : list B) :
  StronglySorted R l -> StronglySorted (flip R) (reverse l).
Proof.
  induction 1 as [|x l Hl IH Hx]; [constructor|].
  rewrite reverse_cons. apply StronglySorted_app_2; [|done|].
  - intros x1 x2 H1 H2. apply list_elem_of_singleton in H2 as ->.
    rewrite elem_of_reverse in H1. rewrite Forall_forall in Hx.
    unfold flip. by apply Hx.
  - repeat constructor.
Qed.

Lemma StronglySorted_filter {B} (R : relation B) (P : B -> Prop)
    `{!forall x, Decision (P x)} (l : list B) :
  StronglySorted R l -> StronglySorted R (filter P l).
Proof.
  induction 1 as [|x l Hl IH Hx]; [constructor|].
  rewrite filter_cons. destruct (decide (P x)); [|done].
  constructor; [done|].
  rewrite Forall_forall in Hx. apply Forall_forall.
  intros y Hy. apply list_elem_of_filter in Hy as [_ Hy]. by apply Hx.
Qed.

Lemma values_elem_of (m : gmap string A) a :
  keyed key m -> a ∈ map snd (map_to_list m) <-> m !! key a = Some a.
Proof.
  intros Hm. change (map snd (map_to_list m)) with ((map_to_list m).*2).
  rewrite list_elem_of_fmap. split.
  - intros ([k b] & -> & Hin). apply elem_of_map_to_list in Hin. simpl.
    by rewrite (keyed_lookup key m k b Hm Hin).
  - intros Ha. exists (key a, a). split; [done|].
    by apply elem_of_map_to_list.
Qed.

Lemma values_NoDup (m : gmap string A) :
  keyed key m -> NoDup (key <$> map snd (map_to_list m)).
Proof.
  intros Hm. rewrite values_keys by done. apply NoDup_fst_map_to_list.
Qed.

Lemma listing_sorted m :
  StronglySorted (flip (byCreated createdAt key)) (listing createdAt key m).
Proof. apply StronglySorted_reverse, StronglySorted_merge_sort; apply _. Qed.

Lemma listing_elem_of m a :
  keyed key m -> a ∈ listing createdAt key m <-> m !! key a = Some a.
Proof.
  intros Hm. unfold listing.
  rewrite getAllFromIndex_perm. by apply values_elem_of.
Qed.

Lemma listing_NoDup m : keyed key m -> NoDup (key <$> listing createdAt key m).
Proof.
  intros Hm. unfold listing.
  rewrite getAllFromIndex_perm. by apply values_NoDup.
Qed.

Lemma listing_descending m :
  StronglySorted (fun a b => (createdAt b <= createdAt a)%Z) (listing createdAt key m).
Proof.
  induction (listing_sorted m) as [|x l Hl IH Hx]; constructor; [done|].
  eapply Forall_impl; [exact Hx|].
  intros y [H|[H _]]; simpl in *; lia.
Qed.

(** A list with the store's records, each once, newest first, is the
    listing. *)
Lemma listing_unique m l :
  keyed key m -> NoDup (key <$> l) ->
  (forall a, a ∈ l <-> m !! key a = Some a) ->
  StronglySorted (flip (byCreated createdAt key)) l ->
  listing createdAt key m = l.
Proof.
  intros Hm Hnd Hl Hs.
  apply (StronglySorted_unique_strong (flip (byCreated createdAt key)));
    [|apply listing_sorted|done|].
  - intros a b Ha Hb Hab Hba. apply (listing_elem_of m a Hm) in Ha.
    apply Hl in Hb. unfold flip, byCreated in Hab, Hba.
    assert (key a = key b) as Hk.
    { destruct Hab as [?|[? L1]], Hba as [?|[? L2]]; try lia.
      by apply (anti_symm String.le). }
    rewrite Hk in Ha. congruence.
  - apply NoDup_Permutation.
    + eapply NoDup_fmap_1, listing_NoDup, Hm.
    + by eapply NoDup_fmap_1.
    + intros a. by rewrite Hl, listing_elem_of.
Qed.

Lemma listing_delete m id :
  keyed key m ->
  listing createdAt key (delete id m) = filter (fun a => key a <> id) (listing createdAt key m).
Proof.
  intros Hm. apply listing_unique.
  - by apply map_Forall_delete.
  - apply (NoDup_fmap_2_strong key).
    + intros a b Ha Hb Hk.
      apply list_elem_of_filter in Ha as [_ Ha].
      apply list_elem_of_filter in Hb as [_ Hb].
      apply (listing_elem_of m _ Hm) in Ha.
      apply (listing_elem_of m _ Hm) in Hb. rewrite Hk in Ha. congruence.
    + apply NoDup_filter. eapply NoDup_fmap_1, listing_NoDup, Hm.
  - intros a. rewrite list_elem_of_filter, (listing_elem_of m a Hm).
    destruct (decide (key a = id)) as [<-|Hne].
    + rewrite lookup_delete_eq. intuition congruence.
    + rewrite lookup_delete_ne by done. intuition congruence.
  - apply StronglySorted_filter, listing_sorted.
Qed.

(** The records of [m] after [put a], in any order. *)
Lemma listing_insert_perm m a :
  keyed key m ->
  listing createdAt key (<[key a := a]> m) ≡ₚ
    a :: filter (fun b => key b <> key a) (listing createdAt key m).
Proof.
  intros Hm.
  assert (keyed key (<[key a := a]> m)) as Hm'
    by by apply map_Forall_insert_2.
  assert (NoDup (key <$> filter (fun b => key b <> key a) (listing createdAt key m))) as Hf.
  { apply (NoDup_fmap_2_strong key).
    - intros b c Hb Hc Hk.
      apply list_elem_of_filter in Hb as [_ Hb].
      apply list_elem_of_filter in Hc as [_ Hc].
      apply (listing_elem_of m _ Hm) in Hb.
      apply (listing_elem_of m _ Hm) in Hc. rewrite Hk in Hb. congruence.
    - apply NoDup_filter. eapply NoDup_fmap_1, listing_NoDup, Hm. }
  apply NoDup_Permutation.
  - eapply NoDup_fmap_1, listing_NoDup, Hm'.
  - apply NoDup_cons. split; [|by eapply NoDup_fmap_1].
    rewrite list_elem_of_filter. intuition congruence.
  - intros b. rewrite (listing_elem_of _ b Hm'), elem_of_cons,
      list_elem_of_filter, (listing_elem_of m b Hm).
    destruct (decide (key b = key a)) as [Heq|Hne].
    + rewrite Heq, lookup_insert_eq. intuition congruence.
    + rewrite lookup_insert_ne by done. intuition congruence.
Qed.

(** [put a] of a record newer than every other one puts it first. *)
Lemma listing_insert_newest m a :
  keyed key m ->
  (forall b, m !! key b = Some b -> key b <> key a ->
             (createdAt b < createdAt a)%Z) ->
  listing createdAt key (<[key a := a]> m) =
    a :: filter (fun b => key b <> key a) (listing createdAt key m).
Proof.
  intros Hm Hnew.
  assert (keyed key (<[key a := a]> m)) as Hm'
    by by apply map_Forall_insert_2.
  pose proof (listing_insert_perm m a Hm) as Hperm.
  apply listing_unique; [done| | |].
  - rewrite <- Hperm. by apply listing_NoDup.
  - intros b. by rewrite <- Hperm, listing_elem_of.
  - constructor; [apply StronglySorted_filter, listing_sorted|].
    apply Forall_forall. intros b Hb.
    apply list_elem_of_filter in Hb as [Hne Hb].
    apply (listing_elem_of m b Hm) in Hb. left. by apply Hnew.
Qed.

(** [put a] over a record with the same creation time replaces it in
    place. *)
Lemma listing_insert_same m a old :
  keyed key m -> m !! key a = Some old -> createdAt old = createdAt a ->
  listing createdAt key (<[key a := a]> m) =
    (fun b => if decide (key b = key a) then a else b) <$> listing createdAt key m.
Proof.
  intros Hm Hold Hc.
  set (f := fun b => if decide (key b = key a) then a else b).
  assert (keyed key (<[key a := a]> m)) as Hm'
    by by apply map_Forall_insert_2.
  assert (forall b, key (f b) = key b) as Hkey.
  { intros b. unfold f. by destruct (decide (key b = key a)). }
  assert (forall b, b ∈ listing createdAt key m -> createdAt (f b) = createdAt b) as Hcr.
  { intros b Hb. unfold f. destruct (decide (key b = key a)) as [Heq|]; [|done].
    apply (listing_elem_of m b Hm) in Hb. rewrite Heq in Hb. congruence. }
  apply listing_unique; [done| | |].
  - rewrite <- list_fmap_compose.
    rewrite (list_fmap_ext (key ∘ f) key (listing createdAt key m));
      [|by intros; apply Hkey].
    by apply listing_NoDup.
  - intros b. rewrite list_elem_of_fmap. split.
    + intros (c & -> & Hc'). rewrite Hkey.
      apply (listing_elem_of m c Hm) in Hc'. unfold f.
      destruct (decide (key c = key a)) as [Heq|Hne].
      * rewrite Heq. apply lookup_insert_eq.
      * by rewrite lookup_insert_ne.
    + intros Hb. destruct (decide (key b = key a)) as [Heq|Hne].
      * rewrite Heq, lookup_insert_eq in Hb. injection Hb as <-.
        exists old. assert (key old = key a) as Hko
          by by apply (keyed_lookup key m).
        split.
        -- unfold f. by rewrite decide_True.
        -- apply (listing_elem_of m old Hm). by rewrite Hko.
      * rewrite lookup_insert_ne in Hb by done.
        exists b. split; [unfold f; by rewrite decide_False|].
        by apply (listing_elem_of m b Hm).
  - pose proof (listing_sorted m) as Hs.
    induction Hs as [|x l Hl IH Hx]; [constructor|].
    rewrite fmap_cons. constructor.
    + apply IH. intros b Hb. apply Hcr. by right.
    + rewrite Forall_forall in Hx. apply Forall_forall.
      intros y Hy. apply list_elem_of_fmap in Hy as (c & -> & Hc').
      specialize (Hx c Hc'). unfold flip, byCreated in *.
      rewrite !Hkey, (Hcr x), (Hcr c); [done|by right|by left].
Qed.

End IndexFacts.

Section DatabaseMore.
Import Database.

(** What [putAll] leaves under a key: the last record of the list with
    that key, or what was there. *)
Lemma putAll_lookup {A} (key : A -> string) xs (m : gmap string A) k :
  putAll key xs m !! k =
    match last (filter (fun x => key x = k) xs) with
    | Some x => Some x
    | None => m !! k
    end.
Proof.
  revert m. induction xs as [|x xs IH]; intros m; [done|].
  cbn [putAll foldl]. fold (putAll key xs (<[key x:=x]> m)).
  rewrite IH, filter_cons. destruct (decide (key x = k)) as [<-|Hne].
  - rewrite last_cons, lookup_insert_eq.
    by destruct (last (filter _ xs)).
  - by rewrite lookup_insert_ne.
Qed.

Lemma putAll_twice {A} (key : A -> string) xs (m : gmap string A) :
  putAll key xs (putAll key xs m) = putAll key xs m.
Proof.
  apply map_eq. intros k. rewrite !putAll_lookup.
  by destruct (last (filter _ xs)).
Qed.

Lemma putAll_own_listing {A} (createdAt : A -> Z) (key : A -> string)
    (m : gmap string A) :
  keyed key m -> putAll key (listing createdAt key m) m = m.
Proof.
  intros Hm. apply map_eq. intros k. rewrite putAll_lookup.
  destruct (last (filter _ _)) as [x|] eqn:Hlast; [|done].
  apply last_Some_elem_of, list_elem_of_filter in Hlast as [<- Hx].
  symmetry. by apply (listing_elem_of createdAt key m x Hm).
Qed.

(** X18: the listings hold exactly the stored records, each once, with
    the newest first. *)
Theorem listings_newest_first (db : Store) :
  wellFormed db ->
  (forall a, a ∈ getAllAnimals db <-> getAnimal (Animal.id a) db = Some a) /\
  NoDup (Animal.id <$> getAllAnimals db) /\
  StronglySorted
    (fun a b => (Animal.createdAt b <= Animal.createdAt a)%Z)
    (getAllAnimals db) /\
  (forall s, s ∈ getAllScenes db <-> getScene (Scene.id s) db = Some s) /\
  NoDup (Scene.id <$> getAllScenes db) /\
  StronglySorted
    (fun s t => (Scene.createdAt t <= Scene.createdAt s)%Z)
    (getAllScenes db).
Proof.
  intros [Ha Hs]. split_and!.
  - intros a. by apply (listing_elem_of Animal.createdAt Animal.id).
  - by apply (listing_NoDup Animal.createdAt Animal.id).
  - apply (listing_descending Animal.createdAt Animal.id).
  - intros s. by apply (listing_elem_of Scene.createdAt Scene.id).
  - by apply (listing_NoDup Scene.createdAt Scene.id).
  - apply (listing_descending Scene.createdAt Scene.id).
Qed.

Lemma listings_newest_first_witness :
  wellFormed Sample.store /\
  NoDup (Animal.id <$> getAllAnimals Sample.store) /\
  StronglySorted
    (fun a b => (Animal.createdAt b <= Animal.createdAt a)%Z)
    (getAllAnimals Sample.store).
Proof.
  assert (wellFormed Sample.store) as Hwf.
  { apply (bool_decide_unpack (wellFormed Sample.store)). by vm_compute. }
  split; [exact Hwf|].
  pose proof (listings_newest_first Sample.store Hwf) as (_ & Hnd & Hs & _).
  by split.
Defined.

(** X19: [saveAnimal] files the animal under its id, in place of an
    animal with the same id and beside all others; in the listing it
    comes first when it is newer than every other animal.  [deleteAnimal]
    takes the animal with that id out of the listing and keeps the order
    of the others. *)
Theorem saveAnimal_deleteAnimal_listing (a : Animal.t) (db : Store) :
  wellFormed db ->
  getAnimal (Animal.id a) (saveAnimal a db) = Some a /\
  (forall id, id <> Animal.id a ->
              getAnimal id (saveAnimal a db) = getAnimal id db) /\
  getAllAnimals (saveAnimal a db) ≡ₚ
    a :: filter (fun b => Animal.id b <> Animal.id a) (getAllAnimals db) /\
  ((forall b, b ∈ getAllAnimals db -> Animal.id b <> Animal.id a ->
              (Animal.createdAt b < Animal.createdAt a)%Z) ->
   getAllAnimals (saveAnimal a db) =
     a :: filter (fun b => Animal.id b <> Animal.id a) (getAllAnimals db)) /\
  (forall id,
     getAnimal id (deleteAnimal id db) = None /\
     getAllAnimals (deleteAnimal id db) =
       filter (fun b => Animal.id b <> id) (getAllAnimals db)) /\
  getAllScenes (saveAnimal a db) = getAllScenes db.
Proof.
  intros [Ha Hs]. split_and!.
  - apply lookup_insert_eq.
  - intros id Hne. by apply lookup_insert_ne.
  - by apply (listing_insert_perm Animal.createdAt Animal.id).
  - intros Hnew.
    apply (listing_insert_newest Animal.createdAt Animal.id); [done|].
    intros b Hb. apply Hnew.
    by apply (listing_elem_of Animal.createdAt Animal.id).
  - intros id. split; [apply lookup_delete_eq|].
    by apply (listing_delete Animal.createdAt Animal.id).
  - done.
Qed.

Lemma saveAnimal_deleteAnimal_listing_witness :
  getAllAnimals (saveAnimal Sample.star (deleteAnimal "c-dot" Sample.store))
    ≡ₚ [Sample.star; Sample.moo].
Proof.
  assert (wellFormed (deleteAnimal "c-dot" Sample.store)) as Hwf.
  { apply (bool_decide_unpack (wellFormed _)). by vm_compute. }
  pose proof (saveAnimal_deleteAnimal_listing Sample.star _ Hwf)
    as (_ & _ & Hperm & _).
  by rewrite Hperm.
Defined.

(** X20: [saveScene] of a scene that is stored with the same creation
    time replaces it at its place in the listing, and of a scene newer
    than every other one puts it first; [deleteScene] takes the scene
    with that id out and keeps the order of the others. *)
Theorem saveScene_deleteScene_listing (s : Scene.t) (db : Store) :
  wellFormed db ->
  (forall old, getScene (Scene.id s) db = Some old ->
               Scene.createdAt old = Scene.createdAt s ->
     getAllScenes (saveScene s db) =
       (fun t => if decide (Scene.id t = Scene.id s) then s else t)
         <$> getAllScenes db) /\
  ((forall t, t ∈ getAllScenes db -> Scene.id t <> Scene.id s ->
              (Scene.createdAt t < Scene.createdAt s)%Z) ->
   getAllScenes (saveScene s db) =
     s :: filter (fun t => Scene.id t <> Scene.id s) (getAllScenes db)) /\
  (forall id,
     getScene id (deleteScene id db) = None /\
     getAllScenes (deleteScene id db) =
       filter (fun t => Scene.id t <> id) (getAllScenes db)) /\
  getAllAnimals (saveScene s db) = getAllAnimals db.
Proof.
  intros [Ha Hs]. split_and!.
  - intros old Hold Hc.
    by apply (listing_insert_same Scene.createdAt Scene.id _ _ old).
  - intros Hnew.
    apply (listing_insert_newest Scene.createdAt Scene.id); [done|].
    intros t Ht. apply Hnew.
    by apply (listing_elem_of Scene.createdAt Scene.id).
  - intros id. split; [apply lookup_delete_eq|].
    by apply (listing_delete Scene.createdAt Scene.id).
  - done.
Qed.

Lemma saveScene_deleteScene_listing_witness :
  getAllScenes (deleteScene "s-picnic" Sample.store) = [].
Proof.
  assert (wellFormed Sample.store) as Hwf.
  { apply (bool_decide_unpack (wellFormed Sample.store)). by vm_compute. }
  pose proof (saveScene_deleteScene_listing Sample.picnic Sample.store Hwf)
    as (_ & _ & Hdel & _).
  destruct (Hdel "s-picnic") as [_ ->]. by vm_compute.
Defined.

(** X21: [importAllData] merges: under each id the store holds the last
    record of the document with that id, or else what it held before;
    the settings become the document's, with the credential that was
    stored. *)
Theorem importAllData_merges (data : ExportData) (db : Store) :
  (forall id,
     getAnimal id (importAllData data db) =
       match last (filter (fun a => Animal.id a = id) (export_animals data))
       with Some a => Some a | None => getAnimal id db end) /\
  (forall id,
     getScene id (importAllData data db) =
       match last (filter (fun s => Scene.id s = id) (export_scenes data))
       with Some s => Some s | None => getScene id db end) /\
  getSettings (importAllData data db) =
    withApiKey (export_settings data)
               (Settings.openaiApiKey (getSettings db)).
Proof.
  split_and!.
  - intros id. apply putAll_lookup.
  - intros id. apply putAll_lookup.
  - unfold importAllData, saveSettings, getSettings. cbn [settings].
    by rewrite lookup_insert_eq.
Qed.

(** X22: importing a document a second time changes nothing. *)
Theorem importAllData_idempotent (data : ExportData) (db : Store) :
  importAllData data (importAllData data db) = importAllData data db.
Proof.
  unfold importAllData, saveSettings, getSettings.
  cbn [animals scenes settings]. rewrite !putAll_twice, lookup_insert_eq.
  cbn [default withApiKey Settings.openaiApiKey]. by rewrite insert_insert_eq.
Qed.

(** X23: importing a store's own exported document into that store
    leaves its characters, its scenes and its settings, credential
    included, as they were. *)
Theorem import_own_export (now : string) (db : Store) :
  wellFormed db ->
  let db' := importAllData (exportAllData now db) db in
  animals db' = animals db /\
  scenes db' = scenes db /\
  getSettings db' = getSettings db /\
  (is_Some (settings db !! "main") -> db' = db).
Proof.
  intros [Ha Hs] db'.
  assert (animals db' = animals db) as Hanimals
    by by apply (putAll_own_listing Animal.createdAt Animal.id).
  assert (scenes db' = scenes db) as Hscenes
    by by apply (putAll_own_listing Scene.createdAt Scene.id).
  assert (forall s, withApiKey (withApiKey s None) (Settings.openaiApiKey s)
                    = s) as Hkey by by intros [].
  assert (settings db' = <["main" := getSettings db]> (settings db)) as Hset.
  { unfold db', importAllData, saveSettings, exportAllData.
    cbn [settings export_settings]. f_equal. apply Hkey. }
  split_and!; try done.
  - unfold getSettings at 1. by rewrite Hset, lookup_insert_eq.
  - intros [s Hmain]. destruct db as [an sc se], db' as [an' sc' se'].
    cbn [animals scenes settings] in *. subst an' sc' se'. f_equal.
    unfold getSettings. cbn [settings]. rewrite Hmain.
    by apply insert_id.
Qed.

Lemma import_own_export_witness :
  importAllData (exportAllData "2024-12-25T08:00:00.000Z" Sample.store)
                Sample.store = Sample.store.
Proof.
  assert (wellFormed Sample.store) as Hwf.
  { apply (bool_decide_unpack (wellFormed Sample.store)). by vm_compute. }
  apply (import_own_export "2024-12-25T08:00:00.000Z" Sample.store Hwf).
  by eexists.
Defined.

End DatabaseMore.

(** ** The application state against the database *)

Section AppFacts.
Import App.

Lemma selectedScene_elem_of st scene :
  selectedScene st = Some scene -> scene ∈ scenes st.
Proof.
  unfold selectedScene. destruct (selectedSceneId st) as [id|]; [|done].
  destruct (Js.nonempty id); [|done].
  destruct (list_find _ _) as [[i s]|] eqn:Hfind; [|done].
  cbn. intros [= <-]. apply list_find_Some in Hfind as (Hi & _).
  by eapply list_elem_of_lookup_2.
Qed.

Lemma viewerUpdate_keeps (P : State -> Prop) update st :
  (forall scene, Scene.id (update scene) = Scene.id scene /\
                 Scene.createdAt (update scene) = Scene.createdAt scene) ->
  (forall scene, scene ∈ scenes st ->
                 Scene.id (update scene) = Scene.id scene ->
                 Scene.createdAt (update scene) = Scene.createdAt scene ->
                 P (handleUpdateScene (update scene) st)) ->
  P st -> P (viewerUpdate update st).
Proof.
  intros Hupd Hupdate Hst. unfold viewerUpdate.
  destruct (currentPage st); try done.
  destruct (selectedScene st) as [scene|] eqn:Hsel; [|done].
  apply Hupdate; [by apply selectedScene_elem_of|apply Hupd..].
Qed.

Lemma handleUpdateScene_inSync scene st old :
  Database.wellFormed (db st) -> inSync st ->
  old ∈ scenes st -> Scene.id scene = Scene.id old ->
  Scene.createdAt scene = Scene.createdAt old ->
  Database.wellFormed (db (handleUpdateScene scene st)) /\
  inSync (handleUpdateScene scene st).
Proof.
  intros Hwf (Ha & Hs & Hset) Hold Hid Hcr.
  split; [by apply wellFormed_saveScene|].
  unfold inSync, handleUpdateScene. cbn [animals scenes settings db].
  split_and!; [done| |done].
  rewrite Hs. symmetry. destruct Hwf as [_ Hsc].
  apply (listing_insert_same Scene.createdAt Scene.id _ _ old); [done| |done].
  rewrite Hid. apply (listing_elem_of Scene.createdAt Scene.id); [done|].
  rewrite Hs in Hold. exact Hold.
Qed.

Lemma step_inSync st e :
  Database.wellFormed (db st) -> inSync st -> timely st e ->
  Database.wellFormed (db (step st e)) /\ inSync (step st e).
Proof.
  intros Hwf Hsync Ht.
  pose proof Hwf as [Han Hsc]. pose proof Hsync as (Ha & Hs & Hset).
  assert (forall update,
            (forall scene, Scene.id (update scene) = Scene.id scene /\
               Scene.createdAt (update scene) = Scene.createdAt scene) ->
            Database.wellFormed (db (viewerUpdate update st)) /\
            inSync (viewerUpdate update st)) as Hviewer.
  { intros update Hupd.
    apply (viewerUpdate_keeps
             (fun st => Database.wellFormed (db st) /\ inSync st));
      [done| |done].
    intros scene Hin Hid Hcr. by apply (handleUpdateScene_inSync _ _ scene). }
  destruct e as [animal|id|scene|id|scene|caption|audio| |newSettings|page];
    cbn [step].
  - split; [unfold handleSaveAnimal;
            destruct (hasCreatedFirstAnimal st); by apply wellFormed_saveAnimal|].
    assert (Database.getAllAnimals (Database.saveAnimal animal (db st)) =
            animal :: filter (fun a => Animal.id a <> Animal.id animal)
                        (animals st)) as Hnew.
    { rewrite Ha.
      apply (listing_insert_newest Animal.createdAt Animal.id); [done|].
      intros b Hb. apply Ht. rewrite Ha.
      by apply (listing_elem_of Animal.createdAt Animal.id). }
    unfold inSync, handleSaveAnimal.
    by destruct (hasCreatedFirstAnimal st); cbn; rewrite Hnew.
  - split; [by apply wellFormed_deleteAnimal|].
    unfold inSync, handleDeleteAnimal. cbn [animals scenes settings db].
    split_and!; [|done..]. rewrite Ha. symmetry.
    by apply (listing_delete Animal.createdAt Animal.id).
  - split; [unfold handleSaveScene;
            destruct (hasCreatedFirstScene st); by apply wellFormed_saveScene|].
    assert (Database.getAllScenes (Database.saveScene scene (db st)) =
            scene :: filter (fun s => Scene.id s <> Scene.id scene)
                       (scenes st)) as Hnew.
    { rewrite Hs.
      apply (listing_insert_newest Scene.createdAt Scene.id); [done|].
      intros b Hb. apply Ht. rewrite Hs.
      by apply (listing_elem_of Scene.createdAt Scene.id). }
    unfold inSync, handleSaveScene.
    by destruct (hasCreatedFirstScene st); cbn; rewrite Hnew.
  - split; [by apply wellFormed_deleteScene|].
    unfold inSync, handleDeleteScene. cbn [animals scenes settings db].
    split_and!; [done| |done]. rewrite Hs. symmetry.
    by apply (listing_delete Scene.createdAt Scene.id).
  - done.
  - by apply Hviewer.
  - by apply Hviewer.
  - by apply Hviewer.
  - split; [by apply wellFormed_saveSettings|].
    unfold inSync, handleUpdateSettings, Database.getSettings.
    cbn. by rewrite lookup_insert_eq.
  - done.
Qed.

Lemma run_inSync events st :
  Database.wellFormed (db st) -> inSync st -> timelyRun events st ->
  Database.wellFormed (db (run events st)) /\ inSync (run events st).
Proof.
  revert st. induction events as [|e events IH]; intros st Hwf Hsync Ht;
    [done|].
  destruct Ht as [Hte Ht].
  destruct (step_inSync st e Hwf Hsync Hte) as [Hwf' Hsync'].
  by apply IH.
Qed.

(** X24: as long as every saved animal and scene is newer than the other
    ones, the lists and settings on the screen stay, through any sequence
    of saves, deletions and updates, exactly what loading from the
    database would give. *)
Theorem screen_matches_database (store : Database.Store)
    (events : list Event) :
  Database.wellFormed store ->
  timelyRun events (loadData store) ->
  let st := run events (loadData store) in
  Database.wellFormed (db st) /\
  animals st = animals (loadData (db st)) /\
  scenes st = scenes (loadData (db st)) /\
  settings st = settings (loadData (db st)).
Proof.
  intros Hwf Ht st. by apply run_inSync.
Qed.

Lemma screen_matches_database_witness :
  let pip := Animal.mk "d-pip" 1735000002000 dream "Pip" Bunny Playful
               (Build_AnimalColors "white" "" None) None None None in
  let events := [ViewScene Sample.picnic; SaveCaption " our picnic ";
                 DeleteAnimal "c-dot"; SaveAnimal pip] in
  let st := run events (loadData Sample.store) in
  Scene.caption <$> scenes st = [Some "our picnic"] /\
  animals st = [pip; Sample.moo; Sample.star] /\
  animals st = animals (loadData (db st)) /\
  scenes st = scenes (loadData (db st)).
Proof.
  intros pip events st.
  assert (Database.wellFormed Sample.store) as Hwf.
  { apply (bool_decide_unpack (Database.wellFormed Sample.store)).
    by vm_compute. }
  assert (timelyRun events (loadData Sample.store)) as Ht.
  { subst events. cbn [timelyRun timely]. split_and!; try done.
    cbn [step timely]. intros a Ha _.
    assert (Forall (fun a => (Animal.createdAt a < 1735000002000)%Z)
              (animals (run [ViewScene Sample.picnic;
                             SaveCaption " our picnic ";
                             DeleteAnimal "c-dot"]
                          (loadData Sample.store)))) as Hall.
    { apply (bool_decide_unpack _). by vm_compute. }
    rewrite Forall_forall in Hall. by apply Hall. }
  pose proof (screen_matches_database Sample.store events Hwf Ht)
    as (_ & Ha & Hs & _).
  split_and!; [by vm_compute|by vm_compute|exact Ha|exact Hs].
Defined.

End AppFacts.

(** ** The forms: what is saved and what is selected *)

Section FormFacts.
Import ContentFilter.
Context {U : Js.Unicode}.

(** An allowed text holds no blocked term, in any casing. *)
Lemma allowed_no_casing text g :
  isAllowed (checkContent text g) = true ->
  forall term, term ∈ BLOCKED_TERMS -> ~ Spec.containsIgnoreCase text term.
Proof.
  intros Hok term Hin Hocc.
  apply (includes_toLowerCase text term) in Hocc;
    [|by apply BLOCKED_TERMS_ascii|by apply BLOCKED_TERMS_lower].
  revert Hok. unfold checkContent. cbv zeta.
  destruct (scanBlocked (Js.toLowerCase text) g BLOCKED_TERMS)
    as [r|] eqn:Hscan.
  - apply scanBlocked_Some in Hscan as (? & first & ? & _ & _ & _ & ->).
    by destruct (blockedResult_denies g first) as [-> _].
  - rewrite scanBlocked_None in Hscan. rewrite Hscan in Hocc; done.
Qed.

(** An ASCII text that holds no blocked term, in any casing, is allowed. *)
Lemma no_casing_allowed text g :
  Js.isAscii text = true ->
  (forall term, term ∈ BLOCKED_TERMS -> ~ Spec.containsIgnoreCase text term) ->
  isAllowed (checkContent text g) = true.
Proof.
  intros Htext Hnone. unfold checkContent. cbv zeta.
  destruct (scanBlocked (Js.toLowerCase text) g BLOCKED_TERMS)
    as [r|] eqn:Hscan.
  - apply scanBlocked_Some in Hscan
      as (before & first & after & Heq & _ & Hfirst & ->).
    exfalso. apply (Hnone first).
    + rewrite Heq. apply elem_of_app. right. by left.
    + apply (includes_toLowerCase_iff text first Htext); [|done].
      apply BLOCKED_TERMS_lower. rewrite Heq. apply elem_of_app. right.
      by left.
  - destruct g; [|done].
    destruct (scanMild text (Js.toLowerCase text) mildlyNegative) as [r|] eqn:Hm;
      [|done].
    by apply scanMild_Some in Hm as [-> _].
Qed.

Lemma isAscii_trim s : Js.isAscii s = true -> Js.isAscii (Js.trim s) = true.
Proof.
  destruct (trim_split s) as (pre & post & Heq). intros Hs.
  rewrite Heq, !isAscii_app in Hs.
  by apply andb_true_iff in Hs as [_ [? _]%andb_true_iff].
Qed.

Lemma validName_iff name :
  isAllowed (validateAnimalName name) = true <->
  Js.length (Js.trim name) <> 0 /\ Js.length name <= 30 /\
  isAllowed (checkContent name false) = true.
Proof.
  unfold validateAnimalName.
  destruct (negb (Js.nonempty name) || (Js.length (Js.trim name) =? 0))
    eqn:Hblank.
  { apply blank_guard in Hblank. split; [done|]. by intros [? _]. }
  assert (Js.length (Js.trim name) <> 0) as Hne.
  { intros H. apply blank_guard in H. congruence. }
  destruct (30 <? Js.length name) eqn:Hlong.
  { apply Nat.ltb_lt in Hlong. split; [done|]. intros (_ & ? & _). lia. }
  apply Nat.ltb_ge in Hlong. by split; [|intros (_ & _ & ?)].
Qed.

(** What a valid name is once trimmed. *)
Lemma validName_trimmed name :
  isAllowed (validateAnimalName name) = true ->
  Js.trim (Js.trim name) = Js.trim name /\
  0 < Js.length (Js.trim name) <= 30 /\
  (forall term, term ∈ BLOCKED_TERMS -> ~ Spec.matches name term) /\
  (forall term, term ∈ BLOCKED_TERMS ->
                ~ Spec.containsIgnoreCase (Js.trim name) term) /\
  (Js.isAscii name = true ->
   isAllowed (validateAnimalName (Js.trim name)) = true).
Proof.
  intros Hvalid. apply validName_iff in Hvalid as (Hne & Hlen & Hok).
  pose proof (trim_length name) as Htrim.
  assert (forall term, term ∈ BLOCKED_TERMS ->
            ~ Spec.containsIgnoreCase (Js.trim name) term) as Hnone.
  { intros term Hin Hocc. apply (allowed_no_casing name false Hok term Hin).
    by apply containsIgnoreCase_trim. }
  split_and!; [apply trim_idemp|lia|lia| |done|].
  - intros term Hin Hocc. revert Hok. unfold checkContent. cbv zeta.
    destruct (scanBlocked (Js.toLowerCase name) false BLOCKED_TERMS)
      as [r|] eqn:Hscan.
    + apply scanBlocked_Some in Hscan as (? & first & ? & _ & _ & _ & ->).
      by destruct (blockedResult_denies false first) as [-> _].
    + rewrite scanBlocked_None in Hscan. unfold Spec.matches in Hocc.
      rewrite Hscan in Hocc; done.
  - intros Hascii. apply validName_iff. rewrite trim_idemp.
    split_and!; [done|lia|].
    apply no_casing_allowed; [by apply isAscii_trim|done].
Qed.

Lemma trimmedOrUndefined_Some s t :
  DreamAnimal.trimmedOrUndefined s = Some t ->
  t = Js.trim s /\ t <> "" /\ Js.trim t = t.
Proof.
  unfold DreamAnimal.trimmedOrUndefined.
  destruct (Js.nonempty (Js.trim s)) eqn:Hne; [|done].
  intros [= <-]. split_and!; [done| |apply trim_idemp].
  by apply nonempty_iff.
Qed.

(** X25: an animal that the dream form saves has the fresh id and time
    and the mode [dream].  Its name is the typed name trimmed: it has no
    white space left at its ends, a length from 1 to 30, and holds no
    blocked term in any casing; no blocked term matches the typed name;
    and a name typed in ASCII passes [validateAnimalName] again once
    trimmed.  Its special thing, when it has one, is the typed one
    trimmed: not empty, with no white space left at its ends and no
    blocked term in any casing, and the typed one passes the content check
    of the current mode. *)
Theorem dream_animal_saved_valid (form : DreamAnimal.Form)
    (settings : Settings.t) (uuid : string) (now : Z) (animal : Animal.t) :
  DreamAnimal.handleSave form settings uuid now = DreamAnimal.OnSave animal ->
  Animal.id animal = uuid /\ Animal.createdAt animal = now /\
  Animal.mode animal = dream /\
  Animal.name animal = Js.trim (DreamAnimal.name form) /\
  Js.trim (Animal.name animal) = Animal.name animal /\
  0 < Js.length (Animal.name animal) <= 30 /\
  (forall term, term ∈ BLOCKED_TERMS ->
                ~ Spec.matches (DreamAnimal.name form) term) /\
  (forall term, term ∈ BLOCKED_TERMS ->
                ~ Spec.containsIgnoreCase (Animal.name animal) term) /\
  (Js.isAscii (DreamAnimal.name form) = true ->
   isAllowed (validateAnimalName (Animal.name animal)) = true) /\
  (forall thing, Animal.specialThing animal = Some thing ->
     thing = Js.trim (DreamAnimal.specialThing form) /\
     thing <> "" /\ Js.trim thing = thing /\
     isAllowed (checkContent (DreamAnimal.specialThing form)
                             (Settings.extraGentleMode settings)) = true /\
     forall term, term ∈ BLOCKED_TERMS ->
                  ~ Spec.containsIgnoreCase thing term).
Proof.
  unfold DreamAnimal.handleSave. cbv zeta.
  destruct (isAllowed (validateAnimalName (DreamAnimal.name form)))
    eqn:Hname; [|done].
  destruct (validName_trimmed _ Hname)
    as (Hidem & [Hpos Hle] & Hmatch & Hnone & Hagain).
  cbn [negb].
  destruct (Js.nonempty (DreamAnimal.specialThing form)) eqn:Hne.
  - destruct (isAllowed (checkContent (DreamAnimal.specialThing form) _))
      eqn:Hthing; [|done].
    cbn [negb andb]. intros [= <-].
    cbn [Animal.id Animal.createdAt Animal.mode Animal.name
         Animal.specialThing].
    split_and!; try done.
    intros thing Hsome.
    apply trimmedOrUndefined_Some in Hsome as (-> & ? & ?).
    split_and!; [done..|].
    intros term Hin Hocc.
    apply (allowed_no_casing _ _ Hthing term Hin).
    by apply containsIgnoreCase_trim.
  - cbn [negb andb]. intros [= <-].
    cbn [Animal.id Animal.createdAt Animal.mode Animal.name
         Animal.specialThing].
    split_and!; try done.
    intros thing Hsome. destruct (DreamAnimal.specialThing form); done.
Qed.

(** X26: the dream form decides on the name and the special thing only:
    two forms that agree on these are both saved, with the same name and
    special thing, or both refused with the same message, whatever their
    markings, colors, species, personality and portrait are; the markings
    are saved trimmed, as typed. *)
Theorem dream_animal_unchecked_fields (form form' : DreamAnimal.Form)
    (settings : Settings.t) (uuid : string) (now : Z) :
  DreamAnimal.name form = DreamAnimal.name form' ->
  DreamAnimal.specialThing form = DreamAnimal.specialThing form' ->
  match DreamAnimal.handleSave form settings uuid now,
        DreamAnimal.handleSave form' settings uuid now with
  | DreamAnimal.SetError msg, DreamAnimal.SetError msg' => msg = msg'
  | DreamAnimal.OnSave animal, DreamAnimal.OnSave animal' =>
      Animal.name animal = Animal.name animal' /\
      Animal.specialThing animal = Animal.specialThing animal' /\
      markings (Animal.colors animal) =
        DreamAnimal.trimmedOrUndefined (DreamAnimal.markings form) /\
      markings (Animal.colors animal') =
        DreamAnimal.trimmedOrUndefined (DreamAnimal.markings form')
  | _, _ => False
  end.
Proof.
  intros Hn Hs. unfold DreamAnimal.handleSave. cbv zeta. rewrite <- Hn, <- Hs.
  destruct (isAllowed (validateAnimalName (DreamAnimal.name form)));
    [|done].
  cbn [negb].
  by destruct (Js.nonempty (DreamAnimal.specialThing form)
               && negb (isAllowed (checkContent _ _))).
Qed.

(** X27: an animal that the toy form saves has the fresh id and time and
    the mode [toy].  Its name is the typed name trimmed: it has no white
    space left at its ends, a length from 1 to 30, and holds no blocked
    term in any casing; no blocked term matches the typed name; and a name
    typed in ASCII passes [validateAnimalName] again once trimmed.  Its
    image is the processed photo, so that a scene prompt describes it by
    its reference image and never by the default colors of toys.  The form
    decides on the name and the photo only: the special thing is saved
    trimmed, as typed. *)
Theorem toy_animal_saved (form : ToyAnimal.Form) (uuid : string) (now : Z)
    (animal : Animal.t) :
  ToyAnimal.handleSave form uuid now = DreamAnimal.OnSave animal ->
  Animal.id animal = uuid /\ Animal.createdAt animal = now /\
  Animal.mode animal = toy /\
  Animal.name animal = Js.trim (ToyAnimal.name form) /\
  Js.trim (Animal.name animal) = Animal.name animal /\
  0 < Js.length (Animal.name animal) <= 30 /\
  (forall term, term ∈ BLOCKED_TERMS ->
                ~ Spec.matches (ToyAnimal.name form) term) /\
  (forall term, term ∈ BLOCKED_TERMS ->
                ~ Spec.containsIgnoreCase (Animal.name animal) term) /\
  (Js.isAscii (ToyAnimal.name form) = true ->
   isAllowed (validateAnimalName (Animal.name animal)) = true) /\
  PromptBuilder.getAnimalImages [animal] =
    [default "" (ToyAnimal.stickerImage form)] /\
  (forall index, PromptBuilder.descriptor index animal =
                 Spec.deferral (index + 1) animal) /\
  (forall thing,
     exists animal',
       ToyAnimal.handleSave
         {| ToyAnimal.name := ToyAnimal.name form;
            ToyAnimal.species := ToyAnimal.species form;
            ToyAnimal.personality := ToyAnimal.personality form;
            ToyAnimal.specialThing := thing;
            ToyAnimal.stickerImage := ToyAnimal.stickerImage form |}
         uuid now = DreamAnimal.OnSave animal' /\
       Animal.specialThing animal' = DreamAnimal.trimmedOrUndefined thing).
Proof.
  unfold ToyAnimal.handleSave. cbv zeta.
  cbn [ToyAnimal.name ToyAnimal.species ToyAnimal.personality
       ToyAnimal.specialThing ToyAnimal.stickerImage].
  destruct (isAllowed (validateAnimalName (ToyAnimal.name form)))
    eqn:Hname; [|done].
  destruct (validName_trimmed _ Hname)
    as (Hidem & [Hpos Hle] & Hmatch & Hnone & Hagain).
  cbn [negb].
  destruct (Js.truthy (ToyAnimal.stickerImage form)) eqn:Hphoto; [|done].
  cbn [negb]. intros [= <-]. cbn [Animal.id Animal.createdAt Animal.mode
                                  Animal.name].
  split_and!; try done.
  - unfold PromptBuilder.getAnimalImages, PromptBuilder.imageOf, Js.or_else.
    cbn. rewrite Hphoto. cbn.
    by destruct (ToyAnimal.stickerImage form).
  - intros index. apply descriptor_with_image.
    unfold PromptBuilder.hasImage, PromptBuilder.imageOf, Js.or_else.
    by cbn.
  - intros thing. by eexists.
Qed.

End FormFacts.

Lemma dream_animal_saved_valid_witness :
  let form := {| DreamAnimal.name := "  Star ";
                 DreamAnimal.species := Horse;
                 DreamAnimal.primaryColor := "#FFFFFF";
                 DreamAnimal.secondaryColor := "#000000";
                 DreamAnimal.markings := "";
                 DreamAnimal.personality := Brave;
                 DreamAnimal.specialThing := " jumps over the Dark river ";
                 DreamAnimal.portrait := None |} in
  exists animal,
    DreamAnimal.handleSave (U := Js.asciiOnly) form Sample.settings "a-star"
      1735000000000 = DreamAnimal.OnSave animal /\
    Animal.name animal = "Star" /\
    Animal.specialThing animal = Some "jumps over the Dark river" /\
    ContentFilter.isAllowed
      (ContentFilter.validateAnimalName (U := Js.asciiOnly)
         (Animal.name animal)) = true.
Proof.
  intros form.
  destruct (DreamAnimal.handleSave (U := Js.asciiOnly) form Sample.settings
              "a-star" 1735000000000) as [msg|animal] eqn:Hsave;
    [by vm_compute in Hsave|].
  exists animal. split; [reflexivity|].
  pose proof (dream_animal_saved_valid (U := Js.asciiOnly) form
                Sample.settings "a-star" 1735000000000 animal Hsave)
    as (_ & _ & _ & _ & _ & _ & _ & _ & Hvalid & _).
  specialize (Hvalid eq_refl).
  vm_compute in Hsave. injection Hsave as <-. by split_and!.
Defined.

Lemma dream_animal_unchecked_fields_witness :
  let form := {| DreamAnimal.name := "Star";
                 DreamAnimal.species := Horse;
                 DreamAnimal.primaryColor := "#FFFFFF";
                 DreamAnimal.secondaryColor := "#000000";
                 DreamAnimal.markings := " a scary blood stain ";
                 DreamAnimal.personality := Brave;
                 DreamAnimal.specialThing := "";
                 DreamAnimal.portrait := None |} in
  exists animal,
    DreamAnimal.handleSave (U := Js.asciiOnly) form Sample.settings "a-star"
      1735000000000 = DreamAnimal.OnSave animal /\
    markings (Animal.colors animal) = Some "a scary blood stain" /\
    ContentFilter.isAllowed
      (ContentFilter.checkContent (U := Js.asciiOnly) "a scary blood stain"
         false) = false.
Proof.
  intros form.
  pose proof (dream_animal_unchecked_fields (U := Js.asciiOnly) form
                {| DreamAnimal.name := "Star";
                   DreamAnimal.species := Horse;
                   DreamAnimal.primaryColor := "#FFFFFF";
                   DreamAnimal.secondaryColor := "#000000";
                   DreamAnimal.markings := "";
                   DreamAnimal.personality := Brave;
                   DreamAnimal.specialThing := "";
                   DreamAnimal.portrait := None |}
                Sample.settings "a-star" 1735000000000 eq_refl eq_refl) as H.
  eexists. split; [vm_compute; reflexivity|].
  split; [|reflexivity]. vm_compute in H. by destruct H as (_ & _ & H & _).
Defined.

Lemma toy_animal_saved_witness :
  let form := {| ToyAnimal.name := " Moo ";
                 ToyAnimal.species := Cow;
                 ToyAnimal.personality := Kind;
                 ToyAnimal.specialThing := "";
                 ToyAnimal.stickerImage :=
                   Some "data:image/png;base64,TU9P" |} in
  exists animal,
    ToyAnimal.handleSave (U := Js.asciiOnly) form "b-moo" 1735000000500
      = DreamAnimal.OnSave animal /\
    Animal.name animal = "Moo" /\
    PromptBuilder.getAnimalImages [animal] = ["data:image/png;base64,TU9P"].
Proof.
  intros form.
  destruct (ToyAnimal.handleSave (U := Js.asciiOnly) form "b-moo"
              1735000000500) as [msg|animal] eqn:Hsave;
    [by vm_compute in Hsave|].
  exists animal. split; [reflexivity|].
  pose proof (toy_animal_saved (U := Js.asciiOnly) form "b-moo" 1735000000500
                animal Hsave)
    as (_ & _ & _ & _ & _ & _ & _ & _ & _ & Himages & _).
  split; [|exact Himages].
  vm_compute in Hsave. by injection Hsave as <-.
Defined.

Section SceneMakerFacts.
Import SceneMaker.

Lemma includesId_iff ids id : includesId ids id = true <-> id ∈ ids.
Proof.
  unfold includesId. rewrite existsb_exists. split.
  - intros (x & Hin & Heq). apply String.eqb_eq in Heq as ->.
    by apply list_elem_of_In.
  - intros Hin. exists id. split; [by apply list_elem_of_In|].
    apply String.eqb_refl.
Qed.

Lemma list_filter_elem_of {B} (f : B -> bool) (l : list B) x :
  x ∈ List.filter f l <-> x ∈ l /\ f x = true.
Proof. by rewrite !list_elem_of_In, filter_In. Qed.

Lemma list_filter_NoDup {B} (f : B -> bool) (l : list B) :
  NoDup l -> NoDup (List.filter f l).
Proof.
  induction 1 as [|x l Hx Hl IH]; [constructor|].
  cbn. destruct (f x); [|done]. constructor; [|done].
  rewrite list_filter_elem_of. by intros [? _].
Qed.

Lemma list_filter_length {B} (f : B -> bool) (l : list B) :
  length (List.filter f l) <= length l.
Proof. induction l as [|x l IH]; cbn; [done|]. destruct (f x); cbn; lia. Qed.

Lemma toggleAnimal_invariant ids id :
  NoDup ids -> length ids <= 3 ->
  NoDup (toggleAnimal ids id) /\ length (toggleAnimal ids id) <= 3.
Proof.
  intros Hnd Hlen. unfold toggleAnimal.
  destruct (includesId ids id) eqn:Hin.
  - split; [by apply list_filter_NoDup|].
    pose proof (list_filter_length
                  (fun aid => negb (String.eqb aid id)) ids). lia.
  - destruct (length ids <? 3) eqn:Hlt; [|done].
    apply Nat.ltb_lt in Hlt. split.
    + apply NoDup_app. split_and!; [done| |apply NoDup_singleton].
      intros x Hx Hx'. apply list_elem_of_singleton in Hx' as ->.
      apply includesId_iff in Hx. congruence.
    + rewrite length_app. cbn. lia.
Qed.

(** X28: whatever animals are clicked, in whatever order, the scene
    maker's selection holds no id twice and at most three ids, all of them
    clicked; with animals of distinct ids in the stable, at most three
    animals go into the scene and at most three reference images into the
    request, and each of these animals is a selected one. *)
Theorem selection_at_most_three (clicks : list string)
    (animals : list Animal.t) :
  let selectedAnimalIds := foldl toggleAnimal [] clicks in
  NoDup selectedAnimalIds /\ length selectedAnimalIds <= 3 /\
  (forall id, id ∈ selectedAnimalIds -> id ∈ clicks) /\
  (forall a, a ∈ selectedAnimals animals selectedAnimalIds <->
             a ∈ animals /\ Animal.id a ∈ selectedAnimalIds) /\
  (NoDup (Animal.id <$> animals) ->
   length (selectedAnimals animals selectedAnimalIds) <= 3 /\
   length (PromptBuilder.getAnimalImages
             (selectedAnimals animals selectedAnimalIds)) <= 3).
Proof.
  intros ids.
  assert (NoDup ids /\ length ids <= 3 /\ forall id, id ∈ ids -> id ∈ clicks)
    as (Hnd & Hlen & Hclicked).
  { subst ids. induction clicks as [|c clicks IH] using rev_ind.
    - split_and!; [constructor|cbn; lia|done].
    - rewrite foldl_app. cbn [foldl]. destruct IH as (Hnd & Hlen & Hin).
      destruct (toggleAnimal_invariant _ c Hnd Hlen) as [Hnd' Hlen'].
      split_and!; [done..|].
      intros id. rewrite elem_of_app, list_elem_of_singleton.
      unfold toggleAnimal. destruct (includesId _ c).
      + rewrite list_filter_elem_of. intros [? _]. left. by apply Hin.
      + destruct (_ <? 3).
        * rewrite elem_of_app, list_elem_of_singleton.
          intros [?| ->]; [left; by apply Hin|by right].
        * intros ?. left. by apply Hin. }
  assert (forall a, a ∈ selectedAnimals animals ids <->
                    a ∈ animals /\ Animal.id a ∈ ids) as Hsel.
  { intros a. unfold selectedAnimals.
    by rewrite list_filter_elem_of, includesId_iff. }
  split_and!; try done.
  intros Hdistinct.
  assert (length (selectedAnimals animals ids) <= 3) as Hthree.
  { rewrite <- (length_fmap Animal.id).
    transitivity (length ids); [|done].
    apply submseteq_length, NoDup_submseteq.
    - unfold selectedAnimals. clear Hsel.
      induction animals as [|a animals IH]; [constructor|].
      rewrite fmap_cons in Hdistinct.
      apply NoDup_cons in Hdistinct as [Ha Hdistinct].
      cbn [List.filter]. destruct (includesId ids (Animal.id a)); [|by apply IH].
      rewrite fmap_cons. constructor; [|by apply IH].
      intros Hin. apply Ha. apply list_elem_of_fmap in Hin as (b & -> & Hb).
      apply list_filter_elem_of in Hb as [Hb _].
      by apply list_elem_of_fmap_2.
    - intros id Hin. apply list_elem_of_fmap in Hin as (a & -> & Ha).
      by apply Hsel in Ha as [_ ?]. }
  split; [done|].
  pose proof (getAnimalImages_length (selectedAnimals animals ids)). lia.
Qed.

Lemma selection_at_most_three_witness :
  foldl toggleAnimal [] ["c-dot"; "a-star"; "c-dot"; "b-moo"; "x"; "c-dot"; "y"]
    = ["a-star"; "b-moo"; "x"] /\
  length (selectedAnimals [Sample.dot; Sample.moo; Sample.star]
            (foldl toggleAnimal []
               ["c-dot"; "a-star"; "c-dot"; "b-moo"; "x"; "c-dot"; "y"])) <= 3.
Proof.
  split; [reflexivity|].
  apply (selection_at_most_three
           ["c-dot"; "a-star"; "c-dot"; "b-moo"; "x"; "c-dot"; "y"]
           [Sample.dot; Sample.moo; Sample.star]).
  apply (bool_decide_unpack _). by vm_compute.
Defined.

End SceneMakerFacts.

Section ConfettiFacts.
Import App.




End ConfettiFacts.
